(** * Concurrent web-fetch engine of project-union-coop: a shallow embedding

    The development follows two source files:
    - [etl/data_collection/playwright_scraper_utils.py]: the browser pool,
      the fetch task, the completion detector and the batch orchestrator;
    - [etl/data_collection/scrape_federal_corporations.py]: the paginator
      with its retry loop.

    Conventions.  Python [int]s are [Z] ([//] is [Z.div], [%] is
    [Z.modulo]: both floor, as in Python).

    Time.  [time.time()] returns a double.  From 2004 to 2038 its
    values lie between 2^30 and 2^31 seconds, where the doubles are the
    multiples of 2^-22 s, and the difference of two doubles that close
    to one another is computed without rounding.  The clock of the
    model counts these ticks: a reading is an integer, a second is
    [second = 2^22] ticks, and the subtractions and comparisons of the
    code ([time.time() - start_time < max_wait], [... > 3.0]) are the
    integer ones.  How long an awaited call takes and how late a
    [sleep] ends is for the environment to say: a [sleep] is not
    assumed to last what it was asked to, only to let the clock move by
    a tick at least (the wall clock is not set back during a wait).

    A Python exception is represented by its [str()]; the exceptions of
    the model are instances of [Exception], the ones [except Exception]
    catches (cancellation and interpreter exit are outside of it).
    Coroutines are computations in a state-and-exception monad whose
    calls to the browser, the page and the server are answered by an
    environment given as a parameter; [print] calls are dropped.  The
    orchestrator keeps a journal of the batches it dispatches and of the
    pauses it makes, which the code does not: it is what the pacing
    properties are stated on. *)

From Stdlib Require Import ZArith Lia.
From stdpp Require Import base option list gmap strings.
From Equations Require Import Equations.

Local Open Scope Z_scope.

(** * Part I: the embedding *)

(** ** Exceptions, awaits and the coroutine monad *)

Module Py.

Definition exn := string.

(** What an [await] (or a plain call) can do: return a value, raise,
    or never resume. *)
Inductive outcome (A : Type) : Type :=
| Ret (a : A)
| Raise (e : exn)
| Pending.
Arguments Ret {A} a.
Arguments Raise {A} e.
Arguments Pending {A}.

(** What the environment (browser, page, server) answers to a call:
    it answers or it fails; it is not allowed to stay silent. *)
Inductive reply (A : Type) : Type :=
| Answer (a : A)
| Fails (e : exn).
Arguments Answer {A} a.
Arguments Fails {A} e.

Definition outcome_of_reply {A} (r : reply A) : outcome A :=
  match r with Answer a => Ret a | Fails e => Raise e end.

(** A computation over a state [S]; the state reached is kept when an
    exception is raised, as the mutations of a Python object are. *)
Definition M (S A : Type) : Type := S -> outcome A * S.

Definition ret {S A} (a : A) : M S A := fun s => (Ret a, s).
Definition raise {S A} (e : exn) : M S A := fun s => (Raise e, s).
Definition lift {S A} (o : outcome A) : M S A := fun s => (o, s).
Definition get {S} : M S S := fun s => (Ret s, s).
Definition modify {S} (f : S -> S) : M S unit := fun s => (Ret tt, f s).

Definition bind {S A B} (c : M S A) (k : A -> M S B) : M S B :=
  fun s =>
    match c s with
    | (Ret a, s') => k a s'
    | (Raise e, s') => (Raise e, s')
    | (Pending, s') => (Pending, s')
    end.

(** [try: body / except Exception as e: handler e] *)
Definition try_except {S A} (body : M S A) (handler : exn -> M S A) : M S A :=
  fun s =>
    match body s with
    | (Raise e, s') => handler e s'
    | r => r
    end.

(** [try: body / finally: fin]: an exception of [fin] replaces the
    result of [body], whatever it was. *)
Definition try_finally {S A} (body : M S A) (fin : M S unit) : M S A :=
  fun s =>
    match body s with
    | (Pending, s') => (Pending, s')
    | (r, s') =>
        match fin s' with
        | (Ret _, s'') => (r, s'')
        | (Raise e, s'') => (Raise e, s'')
        | (Pending, s'') => (Pending, s'')
        end
    end.

(** [for x in xs: body x] *)
Fixpoint for_each {S A} (xs : list A) (body : A -> M S unit) : M S unit :=
  match xs with
  | [] => ret tt
  | x :: rest => bind (body x) (fun _ => for_each rest body)
  end.

(** Keeps the equation when a test is matched on. *)
Definition inspect {A} (a : A) : {b : A | a = b} := exist _ a eq_refl.

(** Computations whose state is the wall clock: the reading of
    [time.time()], in ticks of 2^-22 s. *)
Definition second : Z := 4194304.

Definition time_time : M Z Z := get.

(** What the clock moves by across [sleep(delay)] when the sleep ends
    [late] ticks late ([late < 0]: the readings make it shorter than
    asked): a tick at least. *)
Definition lasted (delay late : Z) : Z := Z.max 1 (delay + late).

(** [await asyncio.sleep(delay)]; [late] is for the environment to
    say. *)
Definition sleep (delay late : Z) : M Z unit :=
  modify (fun t => t + lasted delay late).

(** An awaited call to the environment: it takes [took] ticks and then
    answers or fails. *)
Record timed (A : Type) : Type := { took : N; answer : reply A }.
Arguments took {A} _.
Arguments answer {A} _.

Definition await {A} (c : timed A) : M Z A :=
  fun t => (outcome_of_reply (answer c), t + Z.of_N (took c)).

(** [c] always settles (it returns or raises), and [Q] holds of the
    value whenever it returns. *)
Definition ensures {S A} (c : M S A) (Q : A -> Prop) : Prop :=
  forall s, match (c s).1 with
            | Ret a => Q a
            | Raise _ => True
            | Pending => False
            end.

(** [range(start, stop, step)] *)
Definition range3 (start stop step : Z) : outcome (list Z) :=
  if step =? 0 then Raise "range() arg 3 must not be zero"%string
  else if 0 <? step then
    Ret ((fun k => start + Z.of_nat k * step)
           <$> seq 0 (Z.to_nat ((stop - start + step - 1) / step)))
  else
    Ret ((fun k => start + Z.of_nat k * step)
           <$> seq 0 (Z.to_nat ((start - stop - step - 1) / (- step)))).

(** [range(n)] *)
Definition range (n : Z) : list nat := seq 0 (Z.to_nat n).

End Py.
Export Py.

Notation "'let*' x := c 'in' k" := (bind c (fun x => k))
  (at level 10, x pattern, c at level 100, k at level 200).
Notation "c >> k" := (bind c (fun _ => k))
  (at level 65, right associativity).

(** ** The paginator's retry loop ([scrape_federal_corporations.main]) *)

Module Paginator.

Definition max_retries : nat := 5.

Record response := { status_code : Z; text : string }.

(** [response.raise_for_status()] raises for 4xx and 5xx. *)
Definition raises_for_status (r : response) : bool :=
  (400 <=? status_code r) && (status_code r <? 600).

(** [response.ok] *)
Definition ok (r : response) : bool := negb (raises_for_status r).

(** What [session.get] does on one attempt. *)
Inductive get_reply :=
| Got (r : response)
| RequestException (e : exn).

Record retry_state := {
  response_var : option response;   (* the variable [response] *)
  slept : list Z;                   (* arguments of [time.sleep], in order, seconds *)
  tried : nat                       (* calls of [session.get] *)
}.

(** The [except requests.RequestException] branch of attempt [attempt];
    [continue_] is the rest of the loop. *)
Definition on_request_exception (attempt : nat) (st : retry_state)
    (continue_ : retry_state -> retry_state) : retry_state :=
  if (attempt + 1 =? max_retries)%nat then st
  else
    let wait_time := 2 ^ (Z.of_nat attempt + 1) in
    continue_ {| response_var := response_var st;
                 slept := slept st ++ [wait_time];
                 tried := tried st |}.

(** [for attempt in attempts: try: ... except ...] *)
Fixpoint retry_loop (get : nat -> get_reply) (attempts : list nat)
    (st : retry_state) : retry_state :=
  match attempts with
  | [] => st
  | attempt :: rest =>
      match get attempt with
      | RequestException _ =>
          on_request_exception attempt
            {| response_var := response_var st; slept := slept st;
               tried := S (tried st) |}
            (retry_loop get rest)
      | Got r =>
          let st1 := {| response_var := Some r; slept := slept st;
                        tried := S (tried st) |} in
          if raises_for_status r
          then on_request_exception attempt st1 (retry_loop get rest)
          else st1
      end
  end.

(** One page of [main]: [response = None], then the retry loop. *)
Definition fetch_page (get : nat -> get_reply) : retry_state :=
  retry_loop get (range (Z.of_nat max_retries))
    {| response_var := None; slept := []; tried := 0 |}.

(** [if response is None or not response.ok: break] *)
Definition gives_up (st : retry_state) : bool :=
  match response_var st with
  | None => true
  | Some r => negb (ok r)
  end.

(** The backoff rule as the specification words it: after the failed
    attempt [attempt] (0-based) the loop sleeps [2^attempt] seconds. *)
Definition spec_backoff (get : nat -> get_reply) : Prop :=
  forall (attempt : nat) (d : Z),
    slept (fetch_page get) !! attempt = Some d -> d = 2 ^ Z.of_nat attempt.

(** A server that refuses every connection. *)
Definition always_refused : nat -> get_reply :=
  fun _ => RequestException "connection refused".

(** *** The pagination loop of [main] *)

(** Attempt [a] goes through: a response that [raise_for_status]
    accepts. *)
Definition attempt_succeeds (get : nat -> get_reply) (a : nat) : bool :=
  match get a with
  | Got r => negb (raises_for_status r)
  | RequestException _ => false
  end.

(** [2 ** (attempt + 1)] *)
Definition backoff (attempt : nat) : Z := 2 ^ (Z.of_nat attempt + 1).

(** [sum(slept)] *)
Definition total_slept (st : retry_state) : Z := foldr Z.add 0 (slept st).

(** One dictionary of the list [parse_html] returns. *)
Record corporation := {
  corporate_name : string;
  corporation_number : string;
  business_number : string
}.

(** The body of [while True:], [fuel] iterations at most; [server p a]
    is what attempt [a] for page [p] meets, [parse_html] the parser,
    which [main] calls outside of any [try].  [None] when the loop is
    still running once the fuel is spent.  The sleep between two pages
    is left out. *)
Fixpoint paginate (fuel : nat) (server : nat -> nat -> get_reply)
    (parse_html : string -> outcome (list corporation)) (page_number : nat)
    (all_active_corporations : list corporation)
    : option (outcome (list corporation)) :=
  match fuel with
  | O => None
  | S fuel' =>
      let st := fetch_page (server page_number) in
      match response_var st with
      | None => Some (Ret all_active_corporations)
      | Some response =>
          if negb (ok response) then Some (Ret all_active_corporations)
          else
            match parse_html (text response) with
            | Ret [] => Some (Ret all_active_corporations)
            | Ret corporations_on_page =>
                paginate fuel' server parse_html (S page_number)
                  (all_active_corporations ++ corporations_on_page)
            | Raise e => Some (Raise e)
            | Pending => Some Pending
            end
      end
  end.

(** [main], up to the rows handed to the CSV writer: [Ret None] when
    nothing was collected and no file is written. *)
Definition main (fuel : nat) (server : nat -> nat -> get_reply)
    (parse_html : string -> outcome (list corporation))
    : option (outcome (option (list corporation))) :=
  match paginate fuel server parse_html 0 [] with
  | None => None
  | Some (Ret []) => Some (Ret None)
  | Some (Ret rows) => Some (Ret (Some rows))
  | Some (Raise e) => Some (Raise e)
  | Some Pending => Some Pending
  end.

(** What page [p] adds to the collection: nothing when its retries are
    exhausted or when nothing is parsed from it. *)
Definition page_yield (server : nat -> nat -> get_reply)
    (parse_html : string -> outcome (list corporation)) (p : nat)
    : outcome (list corporation) :=
  match response_var (fetch_page (server p)) with
  | None => Ret []
  | Some response =>
      if negb (ok response) then Ret [] else parse_html (text response)
  end.

(** A server whose first two attempts fail, one with a 503, and whose
    third succeeds. *)
Definition third_time_lucky : nat -> get_reply := fun a =>
  match a with
  | 0%nat => Got {| status_code := 503; text := "busy" |}
  | 1%nat => RequestException "read timeout"
  | _ => Got {| status_code := 200; text := "<ol></ol>" |}
  end.

(** A site of three pages, one corporation a page; the page after the
    last is empty. *)
Definition three_pages : nat -> nat -> get_reply := fun p _ =>
  Got {| status_code := 200;
         text := if (p <? 3)%nat then "corp" else "" |}.

Definition one_per_page : string -> outcome (list corporation) := fun html =>
  if String.eqb html "corp"
  then Ret [{| corporate_name := "Union Co-operative";
               corporation_number := "123456-7";
               business_number := "123456789RC0001" |}]
  else Ret [].

(** Two good pages, then one that the parser chokes on. *)
Definition third_page_broken : nat -> nat -> get_reply := fun p _ =>
  Got {| status_code := 200;
         text := if (p <? 2)%nat then "corp" else "broken" |}.

Definition choking_parser : string -> outcome (list corporation) := fun html =>
  if String.eqb html "broken"
  then Raise "'NoneType' object has no attribute 'get_text'"
  else one_per_page html.

(** A site that never runs out of pages. *)
Definition endless : nat -> nat -> get_reply := fun _ _ =>
  Got {| status_code := 200; text := "corp" |}.

(** What [parse_html] reads in one [li.pad-md.row] item: the text of
    its first [<a>] ([get_text(separator='|', strip=True)]) and the
    text ([get_text(strip=True)]) of the first [<span>] whose string
    contains [Corporation number:], respectively [Business Number:];
    [None] where [find] finds nothing. *)
Record list_item := {
  name_tag : option string;
  corp_num_span : option string;
  bus_num_span : option string
}.

(** [s.split('|')[0]] *)
Fixpoint first_piece (s : string) : string :=
  match s with
  | EmptyString => EmptyString
  | String c rest =>
      if Ascii.eqb c (Ascii.ascii_of_nat 124) (* the bar *)
      then EmptyString
      else String c (first_piece rest)
  end.

(** [span.get_text(strip=True)], on what [find] returned. *)
Definition get_text (span : option string) : outcome string :=
  match span with
  | Some t => Ret t
  | None => Raise "'NoneType' object has no attribute 'get_text'"
  end.

(** The loop of [parse_html] over the selected items, [results] being
    the list built so far; [field label t] stands for
    [t.replace(label, '').strip()]. *)
Fixpoint parse_items (field : string -> string -> string)
    (list_items : list list_item) (results : list corporation)
    : outcome (list corporation) :=
  match list_items with
  | [] => Ret results
  | item :: rest =>
      match name_tag item with
      | None => parse_items field rest results
      | Some name =>
          match get_text (corp_num_span item) with
          | Ret corp_text =>
              match get_text (bus_num_span item) with
              | Ret bus_text =>
                  parse_items field rest
                    (results ++
                     [{| corporate_name := first_piece name;
                         corporation_number :=
                           field "Corporation number:" corp_text;
                         business_number :=
                           field "Business Number:" bus_text |}])
              | Raise e => Raise e
              | Pending => Pending
              end
          | Raise e => Raise e
          | Pending => Pending
          end
      end
  end.

(** [parse_html]; [select] stands for parsing the page and selecting
    [ol.list-unstyled > li.pad-md.row]. *)
Definition parse_html (select : string -> list list_item)
    (field : string -> string -> string) (html_content : string)
    : outcome (list corporation) :=
  parse_items field (select html_content) [].

(** A page of three items: a corporation, a row without a link, and a
    corporation with a French name after the English one. *)
Definition sample_items : list list_item :=
  [ {| name_tag := Some "Union Co-operative";
       corp_num_span := Some "Corporation number:123456-7";
       bus_num_span := Some "Business Number:123456789RC0001" |};
    {| name_tag := None; corp_num_span := None; bus_num_span := None |};
    {| name_tag := Some "Green Housing|Logement Vert";
       corp_num_span := Some "Corporation number:765432-1";
       bus_num_span := Some "Business Number:987654321RC0001" |} ].

(** The same page with a corporation that shows no business number. *)
Definition sample_items_without_number : list list_item :=
  sample_items ++
  [ {| name_tag := Some "Maple Commons";
       corp_num_span := Some "Corporation number:111111-1";
       bus_num_span := None |} ].

End Paginator.

(** ** The completion detector ([_wait_for_results_smart]) *)

Module Detector.

(** What one iteration of the polling loop meets: the answers of the
    page, and how late the [asyncio.sleep(0.5)] that ends the iteration
    comes back, as the clock shows it: [time.time()] reads 0.5 s plus
    [sleep_late] more after the sleep than before it. *)
Record probe := {
  results_q : timed nat;      (* number of result boxes found *)
  no_results_q : timed bool;  (* is the no-results text there *)
  loading_q : timed bool;     (* is a loading indicator there *)
  sleep_late : Z              (* lateness of the sleep, in ticks *)
}.

Definition probe_latency (p : probe) : N :=
  (took (results_q p) + took (no_results_q p) + took (loading_q p))%N.

(** Which [return] (or the exhausted [while] condition) ended the wait.
    The Python function returns [None] on all of them. *)
Inductive exit :=
| ResultsDetected
| NoResultsDetected
| Settled            (* no loading indicator, more than 3 s elapsed *)
| GaveUp             (* a query raised, more than 3 s elapsed *)
| BudgetExhausted.   (* the [while] condition failed *)

Inductive verdict := Stop (why : exit) | Again.

(** [3.0] and [0.5] seconds, in ticks. *)
Definition grace : Z := Eval cbv in 3 * second.
Definition poll_interval : Z := Eval cbv in second / 2.

(** The default of [max_wait], [8.0] seconds. *)
Definition default_max_wait : Z := Eval cbv in 8 * second.

(** The body of the [try]. *)
Definition poll_body (p : probe) (start_time : Z) : M Z verdict :=
  let* results := await (results_q p) in
  if (0 <? results)%nat then ret (Stop ResultsDetected)
  else
    let* no_results := await (no_results_q p) in
    if no_results then ret (Stop NoResultsDetected)
    else
      let* loading := await (loading_q p) in
      let* now := time_time in
      if negb loading && (grace <? now - start_time)
      then ret (Stop Settled)
      else sleep poll_interval (sleep_late p) >> ret Again.

(** The [except Exception] handler. *)
Definition poll_handler (p : probe) (start_time : Z) (e : exn)
    : M Z verdict :=
  let* now := time_time in
  if grace <? now - start_time then ret (Stop GaveUp)
  else sleep poll_interval (sleep_late p) >> ret Again.

Definition poll (p : probe) (start_time : Z) : M Z verdict :=
  try_except (poll_body p start_time) (poll_handler p start_time).

(** [while time.time() - start_time < max_wait: ...]; [k] counts the
    iterations, [now] is the clock at the test. *)
Equations? wait_loop (env : nat -> probe) (max_wait start_time : Z)
    (k : nat) (now : Z) : outcome exit * Z
    by wf (Z.to_nat (max_wait - (now - start_time))) lt :=
  wait_loop env max_wait start_time k now
    with inspect (now - start_time <? max_wait) := {
    | exist _ false _ => (Ret BudgetExhausted, now)
    | exist _ true Hlt with inspect (poll (env k) start_time now) := {
      | exist _ (Ret (Stop why), t) _ => (Ret why, t)
      | exist _ (Ret Again, t) Hpoll =>
          wait_loop env max_wait start_time (S k) t
      | exist _ (Raise e, t) _ => (Raise e, t)
      | exist _ (Pending, t) _ => (Pending, t) } }.
Proof.
  (* an iteration that goes round again has slept: the budget shrinks *)
  apply Z.ltb_lt in Hlt.
  assert (now + 1 <= t); [|lia].
  revert Hpoll.
  unfold poll, try_except, poll_body, poll_handler, bind, await, time_time,
    get, sleep, modify, ret, lasted.
  destruct (answer (results_q (env k))) as [n|e]; simpl.
  - destruct (0 <? n)%nat; simpl; [intros [=]|].
    destruct (answer (no_results_q (env k))) as [b|e]; simpl.
    + destruct b; simpl; [intros [=]|].
      destruct (answer (loading_q (env k))) as [l|e]; simpl.
      * destruct (negb l && _); simpl; intros [=]; lia.
      * destruct (grace <? _); simpl; intros [=]; lia.
    + destruct (grace <? _); simpl; intros [=]; lia.
  - destruct (grace <? _); simpl; intros [=]; lia.
Qed.

(** [_wait_for_results_smart]; [max_wait] is in ticks (a budget that is
    not a whole number of ticks counts as the next one up, which the
    test of the loop cannot tell apart). *)
Definition _wait_for_results_smart (env : nat -> probe) (max_wait : Z)
    : M Z exit :=
  let* start_time := time_time in
  fun now => wait_loop env max_wait start_time 0 now.

(** *** Environments the properties are stated over *)

(** Neither marker ever shows: no result box, no no-results text. *)
Definition never_marked (env : nat -> probe) : Prop :=
  forall k, answer (results_q (env k)) = Answer 0%nat
            /\ answer (no_results_q (env k)) = Answer false.

(** A loading indicator is found at every poll. *)
Definition stays_loading (env : nat -> probe) : Prop :=
  forall k, answer (loading_q (env k)) = Answer true.

(** The queries of one iteration take at most [L] ticks. *)
Definition latency_within (L : Z) (env : nat -> probe) : Prop :=
  forall k, Z.of_N (probe_latency (env k)) <= L.

(** No sleep ends more than [O] ticks late. *)
Definition lateness_within (O : Z) (env : nat -> probe) : Prop :=
  forall k, sleep_late (env k) <= O.

(** One of the queries that the iteration reaches raises. *)
Definition query_fails (p : probe) : bool :=
  match answer (results_q p) with
  | Fails _ => true
  | Answer n =>
      if (0 <? n)%nat then false
      else match answer (no_results_q p) with
           | Fails _ => true
           | Answer true => false
           | Answer false =>
               match answer (loading_q p) with
               | Fails _ => true
               | Answer _ => false
               end
           end
  end.

Definition instantly {A} (r : reply A) : timed A :=
  {| took := 0; answer := r |}.

(** A page that shows nothing at all, and no loading indicator; the
    queries take no time and the sleeps end on time. *)
Definition quiet_page : nat -> probe := fun _ =>
  {| results_q := instantly (Answer 0%nat);
     no_results_q := instantly (Answer false);
     loading_q := instantly (Answer false);
     sleep_late := 0 |}.

(** A page that keeps showing its loading indicator. *)
Definition busy_page : nat -> probe := fun _ =>
  {| results_q := instantly (Answer 0%nat);
     no_results_q := instantly (Answer false);
     loading_q := instantly (Answer true);
     sleep_late := 0 |}.

(** A page whose every query raises. *)
Definition broken_page : nat -> probe := fun _ =>
  {| results_q := instantly (Fails "Target closed");
     no_results_q := instantly (Fails "Target closed");
     loading_q := instantly (Fails "Target closed");
     sleep_late := 0 |}.

(** A page whose first query raises after ten seconds, every time. *)
Definition slow_broken_page : nat -> probe := fun _ =>
  {| results_q := {| took := 41943040; answer := Fails "Timeout" |};
     no_results_q := instantly (Fails "Target closed");
     loading_q := instantly (Fails "Target closed");
     sleep_late := 0 |}.

(** The budget rule as the specification words it: when no marker ever
    appears the wait ends at the 8 s budget, not earlier, and at most
    one poll interval later. *)
Definition spec_full_budget (env : nat -> probe) : Prop :=
  never_marked env ->
  forall r t, _wait_for_results_smart env default_max_wait 0 = (r, t) ->
              default_max_wait <= t <= default_max_wait + poll_interval.

(** The containment rule as it is worded for failing queries: when a
    query raises at every iteration the detector still returns, after
    the grace period and within the budget plus one poll interval. *)
Definition spec_contained_within_budget (env : nat -> probe) (max_wait : Z)
    : Prop :=
  (forall k, query_fails (env k) = true) ->
  exists why t,
    _wait_for_results_smart env max_wait 0 = (Ret why, t)
    /\ grace <= t
    /\ t <= max_wait + poll_interval.

(** The clock at the [while] test of iteration [k], when the
    iterations before it all went round: each added its queries and its
    sleep. *)
Fixpoint clock_at (env : nat -> probe) (now : Z) (k : nat) : Z :=
  match k with
  | O => now
  | S j =>
      clock_at env now j + Z.of_N (probe_latency (env j))
      + lasted poll_interval (sleep_late (env j))
  end.

(** Iteration [k] sees no marker yet and a loading indicator. *)
Definition still_loading (p : probe) : Prop :=
  answer (results_q p) = Answer 0%nat
  /\ answer (no_results_q p) = Answer false
  /\ answer (loading_q p) = Answer true.

(** The marker one iteration finds, if any: result boxes are looked for
    first, the no-results text second; a query that raises finds
    nothing. *)
Definition first_marker (p : probe) : option exit :=
  match answer (results_q p) with
  | Fails _ => None
  | Answer n =>
      if (0 <? n)%nat then Some ResultsDetected
      else match answer (no_results_q p) with
           | Answer true => Some NoResultsDetected
           | _ => None
           end
  end.

(** No loading indicator is ever found. *)
Definition never_loading (env : nat -> probe) : Prop :=
  forall k, answer (loading_q (env k)) = Answer false.

(** The results show at the fourth poll, behind a loading indicator;
    every sleep ends a little late. *)
Definition results_at_fourth_poll : nat -> probe := fun k =>
  {| results_q := instantly (Answer (if (k <? 3)%nat then 0%nat else 12%nat));
     no_results_q := instantly (Answer false);
     loading_q := instantly (Answer true);
     sleep_late := 4200 |}.

End Detector.

(** ** The concurrency limiter ([asyncio.Semaphore(max_concurrent)]) *)

Module Limiter.

(** Where a fetch task stands with respect to
    [async with self.semaphore:]. *)
Inductive phase :=
| Waiting     (* not yet past [acquire] *)
| Running     (* inside the [async with] block *)
| Finished.   (* past [release] *)

Record state := {
  value : nat;          (* free permits, [Semaphore._value] *)
  tasks : list phase
}.

(** [Semaphore(max_concurrent)] and as many tasks as [gather] was given. *)
Definition init (max_concurrent : nat) (n : nat) : state :=
  {| value := max_concurrent; tasks := replicate n Waiting |}.

(** The event loop resumes task [i].  A waiting task enters when a
    permit is free and stays suspended otherwise; a running task leaves
    the block and gives its permit back. *)
Definition step (i : nat) (st : state) : state :=
  match tasks st !! i with
  | Some Waiting =>
      match value st with
      | O => st
      | S v => {| value := v; tasks := <[i := Running]> (tasks st) |}
      end
  | Some Running =>
      {| value := S (value st); tasks := <[i := Finished]> (tasks st) |}
  | _ => st
  end.

(** A schedule is the sequence of tasks the event loop resumes. *)
Definition run (schedule : list nat) (st : state) : state :=
  foldl (fun st i => step i st) st schedule.

Fixpoint count_running (ps : list phase) : nat :=
  match ps with
  | [] => 0
  | Running :: rest => S (count_running rest)
  | _ :: rest => count_running rest
  end.

Definition running (st : state) : nat := count_running (tasks st).

Definition is_running (p : phase) : nat :=
  match p with Running => 1 | _ => 0 end.

End Limiter.

(** ** The scraper ([ConcurrentPlaywrightScraper]) and the orchestrator *)

Module Scraper.

Definition MAX_CONCURRENT_SEARCHES : Z := 5.
Definition BROWSER_POOL_SIZE : Z := 3.

(** [@dataclass SearchResult]; [error_message] defaults to the empty
    string and [search_time] to [0.0]. *)
Record SearchResult := {
  business_name : string;
  html_content : string;
  success : bool;
  error_message : string;
  search_time : Z
}.

Definition default_error_message : string := "".
Definition default_search_time : Z := 0.

(** *** The pool *)

(** A browser is named by the iteration that launched it, a context by
    its browser and its rank in it. *)
Definition browser : Type := nat.
Definition context : Type := nat * nat.

(** What Playwright does when asked. *)
Record browser_env := {
  pw_start : reply unit;                    (* async_playwright().start() *)
  launch : nat -> reply unit;               (* chromium.launch, i-th call *)
  new_context : nat -> nat -> reply unit;   (* browser.new_context *)
  context_close : context -> reply unit;
  browser_close : browser -> reply unit;
  pw_stop : reply unit                      (* playwright.stop() *)
}.

Inductive event :=
| Dispatched (batch : list string)   (* search_multiple_businesses(batch) *)
| Paused (ms : Z).                   (* asyncio.sleep between batches *)

(** The fields of the scraper object, then what exists outside of it:
    the browsers and contexts that are open, the driver process, and a
    journal of what the orchestrator did. *)
Record state := {
  max_concurrent : Z;
  browser_pool_size : Z;
  playwright : bool;                (* [self.playwright] is set *)
  browser_pool : list browser;
  context_pool : list context;
  live_browsers : list browser;
  live_contexts : list context;
  driver_running : bool;
  journal : list event
}.

(** [__init__]; of the semaphore [Semaphore(max_concurrent)] the model
    keeps the number of permits it was built with, the field
    [max_concurrent]. *)
Definition fresh (max_concurrent browser_pool_size : Z) : state :=
  {| max_concurrent := max_concurrent;
     browser_pool_size := browser_pool_size;
     playwright := false; browser_pool := []; context_pool := [];
     live_browsers := []; live_contexts := []; driver_running := false;
     journal := [] |}.

Definition driver_started (s : state) : state :=
  {| max_concurrent := max_concurrent s;
     browser_pool_size := browser_pool_size s;
     playwright := true; browser_pool := browser_pool s;
     context_pool := context_pool s;
     live_browsers := live_browsers s; live_contexts := live_contexts s;
     driver_running := true; journal := journal s |}.

Definition driver_stopped (s : state) : state :=
  {| max_concurrent := max_concurrent s;
     browser_pool_size := browser_pool_size s;
     playwright := playwright s; browser_pool := browser_pool s;
     context_pool := context_pool s;
     live_browsers := live_browsers s; live_contexts := live_contexts s;
     driver_running := false; journal := journal s |}.

(** A launched browser, appended to [self.browser_pool]. *)
Definition browser_added (b : browser) (s : state) : state :=
  {| max_concurrent := max_concurrent s;
     browser_pool_size := browser_pool_size s;
     playwright := playwright s; browser_pool := browser_pool s ++ [b];
     context_pool := context_pool s;
     live_browsers := live_browsers s ++ [b];
     live_contexts := live_contexts s;
     driver_running := driver_running s; journal := journal s |}.

(** A new context, appended to [self.context_pool]. *)
Definition context_added (c : context) (s : state) : state :=
  {| max_concurrent := max_concurrent s;
     browser_pool_size := browser_pool_size s;
     playwright := playwright s; browser_pool := browser_pool s;
     context_pool := context_pool s ++ [c];
     live_browsers := live_browsers s;
     live_contexts := live_contexts s ++ [c];
     driver_running := driver_running s; journal := journal s |}.

Definition context_closed (c : context) (s : state) : state :=
  {| max_concurrent := max_concurrent s;
     browser_pool_size := browser_pool_size s;
     playwright := playwright s; browser_pool := browser_pool s;
     context_pool := context_pool s;
     live_browsers := live_browsers s;
     live_contexts := filter (fun x => x <> c) (live_contexts s);
     driver_running := driver_running s; journal := journal s |}.

(** Closing a browser closes the contexts it owns. *)
Definition browser_closed (b : browser) (s : state) : state :=
  {| max_concurrent := max_concurrent s;
     browser_pool_size := browser_pool_size s;
     playwright := playwright s; browser_pool := browser_pool s;
     context_pool := context_pool s;
     live_browsers := filter (fun x => x <> b) (live_browsers s);
     live_contexts := filter (fun x => x.1 <> b) (live_contexts s);
     driver_running := driver_running s; journal := journal s |}.

Definition logged (ev : event) (s : state) : state :=
  {| max_concurrent := max_concurrent s;
     browser_pool_size := browser_pool_size s;
     playwright := playwright s; browser_pool := browser_pool s;
     context_pool := context_pool s;
     live_browsers := live_browsers s; live_contexts := live_contexts s;
     driver_running := driver_running s;
     journal := journal s ++ [ev] |}.

Definition call {S A} (r : reply A) : M S A := lift (outcome_of_reply r).

(** [start]: no [try] anywhere in it.  First the body of the inner
    loop, then the body of the outer loop, then the function. *)
Definition start_context (env : browser_env) (i j : nat) : M state unit :=
  call (new_context env i j) >> modify (context_added (i, j)).

Definition start_browser (env : browser_env) (i : nat) : M state unit :=
  call (launch env i) >> modify (browser_added i) >>
  let* self := get in
  let contexts_per_browser :=
    Z.max 1 (max_concurrent self / browser_pool_size self) in
  for_each (range contexts_per_browser) (start_context env i).

Definition start (env : browser_env) : M state unit :=
  call (pw_start env) >> modify driver_started >>
  let* self := get in
  for_each (range (browser_pool_size self)) (start_browser env).

(** [close]: every context, then every browser, each under its own
    [try]; then the driver, unguarded. *)
Definition close (env : browser_env) : M state unit :=
  let* self := get in
  for_each (context_pool self) (fun c =>
    try_except (call (context_close env c) >> modify (context_closed c))
               (fun _ => ret tt)) >>
  for_each (browser_pool self) (fun b =>
    try_except (call (browser_close env b) >> modify (browser_closed b))
               (fun _ => ret tt)) >>
  if playwright self
  then call (pw_stop env) >> modify driver_stopped
  else ret tt.

(** [async with cm: body]: [__aexit__] runs only once [__aenter__] has
    returned. *)
Definition async_with {S A} (aenter : M S unit) (body : M S A)
    (aexit : M S unit) : M S A :=
  aenter >> try_finally body aexit.

(** The text of the [ZeroDivisionError] that [%] raises (CPython 3.11
    and later; earlier versions word it "integer division or modulo by
    zero"). *)
Definition modulo_by_zero : exn := "integer modulo by zero".

(** [self.context_pool[context_id % len(self.context_pool)]] *)
Definition acquire_context (pool : list context) (context_id : Z)
    : outcome context :=
  match pool with
  | [] => Raise modulo_by_zero
  | _ =>
      match pool !! Z.to_nat (context_id `mod` Z.of_nat (length pool)) with
      | Some c => Ret c
      | None => Raise "list index out of range"
      end
  end.

(** [_get_available_context]: never called in the file. *)
Definition _get_available_context (pool : list context) : outcome context :=
  let context_index :=
    match pool with
    | [] => 0
    | _ => Z.of_nat (length pool) `mod` Z.of_nat (length pool)
    end in
  match pool !! Z.to_nat context_index with
  | Some c => Ret c
  | None => Raise "list index out of range"
  end.

(** *** The fetch task ([search_business_optimized]) *)

(** What one task meets: the site and the page, the event loop, and
    the other tasks through the semaphore; [started_at] is the clock
    when the coroutine first runs. *)
Record page_env := {
  started_at : Z;
  permit_wait : N;                    (* wait for a permit, when one comes *)
  new_page : timed unit;              (* context.new_page() *)
  goto : timed unit;                  (* page.goto(search_url) *)
  accept_cookies : timed unit;        (* page.click('Accept all') *)
  cookie_sleep_late : Z;              (* lateness of asyncio.sleep(0.5) *)
  wait_query_box : timed unit;        (* page.wait_for_selector *)
  fill_query : timed unit;            (* page.fill *)
  count_button : string -> timed nat; (* page.locator(selector).count() *)
  click_button : string -> timed unit;
  wait_load_state : timed unit;
  polls : nat -> Detector.probe;      (* the queries of the detector *)
  content : timed string;             (* page.content() *)
  close_page : timed unit             (* page.close() *)
}.

Definition search_button_selectors : list string :=
  [ "button[type='submit']"; "input[type='submit']";
    "button:has-text('Search')"; "button:has-text('SEARCH')";
    "input[value='Search']"; "input[value='SEARCH']"; "#nodeW20" ]%string.

Definition submit_error : string :=
  "Could not find or click the search button".

(** One iteration of the loop over the selectors: was the button
    clicked.  An exception is the [continue] of the handler. *)
Definition try_selector (env : page_env) (selector : string) : M Z bool :=
  try_except
    (let* n := await (count_button env selector) in
     if (0 <? n)%nat
     then await (click_button env selector) >> ret true
     else ret false)
    (fun _ => ret false).

(** The loop over the selectors; its value is [search_clicked]. *)
Fixpoint click_first (env : page_env) (selectors : list string) : M Z bool :=
  match selectors with
  | [] => ret false
  | selector :: rest =>
      let* clicked := try_selector env selector in
      if clicked then ret true else click_first env rest
  end.

(** The body of the inner [try], whose [finally] closes the page. *)
Definition page_session (env : page_env) (business_name : string)
    (start_time : Z) : M Z SearchResult :=
  await (goto env) >>
  try_except
    (await (accept_cookies env) >>
     sleep (second / 2) (cookie_sleep_late env))
    (fun _ => ret tt) >>
  await (wait_query_box env) >>
  await (fill_query env) >>
  let* search_clicked := click_first env search_button_selectors in
  (if search_clicked then ret tt else raise submit_error) >>
  await (wait_load_state env) >>
  Detector._wait_for_results_smart (polls env) Detector.default_max_wait >>
  let* html_content := await (content env) in
  let* now := time_time in
  ret {| business_name := business_name;
         html_content := html_content;
         success := true;
         error_message := default_error_message;
         search_time := now - start_time |}.

(** Entering [async with self.semaphore:], seen from one task, for a
    semaphore built with [permits] permits.  The holders of the permits
    are tasks of this same function, which give their permit back on
    every way out of the block: with a permit to go round the task is
    let in, [wait] ticks later (at once when one is free); with none
    ([Semaphore(0)]) it is never resumed.  How many tasks are in the
    block at a time is the subject of [Limiter]. *)
Definition acquire (permits : Z) (wait : N) : M Z unit :=
  fun t => if 0 <? permits then (Ret tt, t + Z.of_N wait) else (Pending, t).

(** [search_business_optimized]; [permits] is the [max_concurrent] the
    semaphore of [__init__] was built with.  Leaving the block gives
    the permit back, which raises nothing and changes nothing for this
    task. *)
Definition search_business_optimized (permits : Z) (pool : list context)
    (env : page_env) (business_name : string) (context_id : Z)
    : M Z SearchResult :=
  let* start_time := time_time in
  acquire permits (permit_wait env) >>
  try_except
    (lift (acquire_context pool context_id) >>
     await (new_page env) >>
     try_finally (page_session env business_name start_time)
                 (await (close_page env)))
    (fun e =>
       let* now := time_time in
       ret {| business_name := business_name;
              html_content := "";
              success := false;
              error_message := e;
              search_time := now - start_time |}).

(** What awaiting the task comes to. *)
Definition run_task (permits : Z) (pool : list context) (env : page_env)
    (business_name : string) (context_id : Z) : outcome SearchResult :=
  (search_business_optimized permits pool env business_name context_id
     (started_at env)).1.

(** The selector finds no button, or counting or clicking raises. *)
Definition selector_fails (env : page_env) (selector : string) : bool :=
  match answer (count_button env selector) with
  | Fails _ => true
  | Answer n =>
      if (0 <? n)%nat
      then match answer (click_button env selector) with
           | Fails _ => true
           | Answer _ => false
           end
      else true
  end.

(** The task gets as far as the search for the submit control: it is
    let in by the semaphore, finds its context, opens the page, loads
    the form and fills the query box. *)
Definition reaches_submit (permits : Z) (pool : list context)
    (env : page_env) : Prop :=
  0 < permits
  /\ pool <> []
  /\ answer (new_page env) = Answer tt
  /\ answer (goto env) = Answer tt
  /\ answer (wait_query_box env) = Answer tt
  /\ answer (fill_query env) = Answer tt.

(** No candidate selector yields a click. *)
Definition submit_exhausted (env : page_env) : Prop :=
  forall selector, selector ∈ search_button_selectors ->
                   selector_fails env selector = true.

(** [needle in hay] *)
Fixpoint contains (needle hay : string) : bool :=
  String.prefix needle hay ||
  match hay with
  | EmptyString => false
  | String _ rest => contains needle rest
  end.

(** The submit-failure rule as the specification words it: such a task
    reports the submit error. *)
Definition spec_submit_failure (permits : Z) (pool : list context)
    (env : page_env) (business_name : string) (context_id : Z) : Prop :=
  reaches_submit permits pool env -> submit_exhausted env ->
  exists r, run_task permits pool env business_name context_id = Ret r
            /\ success r = false
            /\ contains submit_error (error_message r) = true
            /\ html_content r = ""%string.

Definition after {A} (ticks : N) (r : reply A) : timed A :=
  {| took := ticks; answer := r |}.

(** A page with no submit control at all. *)
Definition no_button_page : page_env :=
  {| started_at := 0;
     permit_wait := 0;
     new_page := after 10 (Answer tt);
     goto := after 300 (Answer tt);
     accept_cookies := after 8388608 (Fails "Timeout 2000ms exceeded");
     cookie_sleep_late := 0;
     wait_query_box := after 20 (Answer tt);
     fill_query := after 5 (Answer tt);
     count_button := fun _ => after 1 (Answer 0%nat);
     click_button := fun _ => after 30 (Answer tt);
     wait_load_state := after 100 (Answer tt);
     polls := Detector.quiet_page;
     content := after 5 (Answer "<html></html>"%string);
     close_page := after 5 (Answer tt) |}.

(** The same page, in a browser that dies before the page is closed. *)
Definition no_button_crashing_page : page_env :=
  {| started_at := 0;
     permit_wait := 0;
     new_page := after 10 (Answer tt);
     goto := after 300 (Answer tt);
     accept_cookies := after 8388608 (Fails "Timeout 2000ms exceeded");
     cookie_sleep_late := 0;
     wait_query_box := after 20 (Answer tt);
     fill_query := after 5 (Answer tt);
     count_button := fun _ => after 1 (Answer 0%nat);
     click_button := fun _ => after 30 (Answer tt);
     wait_load_state := after 100 (Answer tt);
     polls := Detector.quiet_page;
     content := after 5 (Answer "<html></html>"%string);
     close_page := after 5 (Fails "Target closed") |}.

(** The page with a working search button, in a browser that dies
    before the page is closed. *)
Definition good_crashing_page : page_env :=
  {| started_at := 0;
     permit_wait := 0;
     new_page := after 10 (Answer tt);
     goto := after 300 (Answer tt);
     accept_cookies := after 8388608 (Fails "Timeout 2000ms exceeded");
     cookie_sleep_late := 0;
     wait_query_box := after 20 (Answer tt);
     fill_query := after 5 (Answer tt);
     count_button := fun selector =>
       after 1 (Answer (if String.eqb selector "input[type='submit']"
                        then 1%nat else 0%nat));
     click_button := fun _ => after 30 (Answer tt);
     wait_load_state := after 100 (Answer tt);
     polls := Detector.busy_page;
     content := after 5 (Answer "<html>results</html>"%string);
     close_page := after 5 (Fails "Target closed") |}.

(** *** The orchestrator *)

(** An element of the list [asyncio.gather(..., return_exceptions=True)]
    resolves to. *)
Inductive gathered :=
| Returned (r : SearchResult)
| Excepted (e : exn).

Definition settle (o : outcome SearchResult) : option gathered :=
  match o with
  | Ret r => Some (Returned r)
  | Raise e => Some (Excepted e)
  | Pending => None
  end.

(** The children that are done once those listed in [order] (the order
    in which they complete) have been run; a child that never resumes
    is never done. *)
Definition finished (children : list (outcome SearchResult))
    (order : list nat) : gmap nat gathered :=
  foldl (fun done j =>
           match children !! j ≫= settle with
           | Some g => <[j := g]> done
           | None => done
           end) ∅ order.

(** [gather] resolves when every child is done, to their results in
    the order of its arguments. *)
Definition gather (children : list (outcome SearchResult))
    (order : list nat) : outcome (list gathered) :=
  match mapM (fun j => finished children order !! j)
             (seq 0 (length children)) with
  | Some results => Ret results
  | None => Pending
  end.

(** The first loop of [search_multiple_businesses]; [coroutine i name
    context_id] is what awaiting the [i]-th task comes to. *)
Definition make_tasks (coroutine : nat -> string -> Z -> outcome SearchResult)
    (pool : list context) (business_names : list string)
    : outcome (list (outcome SearchResult)) :=
  match business_names, pool with
  | [], _ => Ret []
  | _, [] => Raise modulo_by_zero
  | _, _ =>
      Ret (imap (fun i business_name =>
                   let context_id :=
                     Z.of_nat i `mod` Z.of_nat (length pool) in
                   coroutine i business_name context_id)
                business_names)
  end.

(** The second loop of [search_multiple_businesses]. *)
Definition collect (business_names : list string) (results : list gathered)
    : list SearchResult :=
  zip_with (fun business_name result =>
              match result with
              | Excepted e =>
                  {| business_name := business_name;
                     html_content := "";
                     success := false;
                     error_message := e;
                     search_time := default_search_time |}
              | Returned r => r
              end)
           business_names results.

(** [search_multiple_businesses]; [coroutine permits pool] is
    [self.search_business_optimized] for a scraper whose semaphore was
    built with [permits] and whose pool is [pool]. *)
Definition search_multiple_businesses
    (coroutine : Z -> list context -> nat -> string -> Z
                 -> outcome SearchResult)
    (order : list nat) (business_names : list string)
    : M state (list SearchResult) :=
  modify (logged (Dispatched business_names)) >>
  let* self := get in
  let* tasks :=
    lift (make_tasks (coroutine (max_concurrent self) (context_pool self))
            (context_pool self) business_names) in
  let* results := lift (gather tasks order) in
  ret (collect business_names results).

(** [l[lo:hi]] *)
Definition slice_index (len idx : Z) : Z :=
  if idx <? 0 then Z.max 0 (idx + len) else Z.min idx len.

Definition slice {A} (l : list A) (lo hi : Z) : list A :=
  let a := slice_index (Z.of_nat (length l)) lo in
  let b := slice_index (Z.of_nat (length l)) hi in
  take (Z.to_nat (b - a)) (drop (Z.to_nat a) l).

(** [asyncio.sleep(2)]: the journal keeps what the sleep was asked for,
    in milliseconds, not what it lasted. *)
Definition inter_batch_pause : Z := 2000.

(** The loop of [batch_search_businesses] over the values [starts] of
    [i].  [site n] is what the [n]-th name of the input meets;
    [completion b] is the order in which the tasks of batch [b]
    complete. *)
Fixpoint batch_loop (site : nat -> page_env) (completion : nat -> list nat)
    (business_names : list string) (batch_size : Z) (starts : list Z)
    (all_results : list SearchResult) : M state (list SearchResult) :=
  match starts with
  | [] => ret all_results
  | i :: rest =>
      let batch := slice business_names i (i + batch_size) in
      let* batch_results :=
        search_multiple_businesses
          (fun permits pool j =>
             run_task permits pool (site (Z.to_nat i + j)%nat))
          (completion (Z.to_nat (i / batch_size))) batch in
      (if i + batch_size <? Z.of_nat (length business_names)
       then modify (logged (Paused inter_batch_pause))
       else ret tt) >>
      batch_loop site completion business_names batch_size rest
        (all_results ++ batch_results)
  end.

Definition batch_search_businesses (env : browser_env)
    (site : nat -> page_env) (completion : nat -> list nat)
    (business_names : list string) (batch_size : Z)
    : outcome (list SearchResult) * state :=
  let scraper := fresh batch_size BROWSER_POOL_SIZE in
  if batch_size <? 0
  then (Raise "Semaphore initial value must be >= 0", scraper)
  else
    async_with (start env)
      (let* starts :=
         lift (range3 0 (Z.of_nat (length business_names)) batch_size) in
       batch_loop site completion business_names batch_size starts [])
      (close env)
      scraper.

(** *** Reading the journal, and what a run is expected to leave in it *)

Definition dispatched (j : list event) : list (list string) :=
  omap (fun ev => match ev with
                  | Dispatched batch => Some batch
                  | Paused _ => None
                  end) j.

Fixpoint pauses (j : list event) : nat :=
  match j with
  | [] => 0
  | Paused _ :: rest => S (pauses rest)
  | Dispatched _ :: rest => pauses rest
  end.

(** Batches and pauses alternate, a batch first and a batch last, and
    every pause lasts [inter_batch_pause]. *)
Fixpoint well_paced (j : list event) : bool :=
  match j with
  | [] => true
  | [Dispatched _] => true
  | Dispatched _ :: Paused ms :: ((_ :: _) as rest) =>
      (ms =? inter_batch_pause) && well_paced rest
  | _ => false
  end.

(** [ceil(n / batch_size)] *)
Definition batch_count (n : nat) (batch_size : Z) : nat :=
  Z.to_nat ((Z.of_nat n + batch_size - 1) / batch_size).

Definition batch_at (business_names : list string) (batch_size : Z)
    (b : nat) : list string :=
  take (Z.to_nat batch_size)
       (drop (b * Z.to_nat batch_size) business_names).

(** The events of the batches [b0 .. b0+m-1]. *)
Definition journal_of (business_names : list string) (batch_size : Z)
    (b0 m : nat) : list event :=
  flat_map (fun b =>
              Dispatched (batch_at business_names batch_size b)
              :: (if (S b <? batch_count (length business_names) batch_size)%nat
                  then [Paused inter_batch_pause] else []))
           (seq b0 m).

Definition logged_all (evs : list event) (s : state) : state :=
  {| max_concurrent := max_concurrent s;
     browser_pool_size := browser_pool_size s;
     playwright := playwright s; browser_pool := browser_pool s;
     context_pool := context_pool s;
     live_browsers := live_browsers s; live_contexts := live_contexts s;
     driver_running := driver_running s;
     journal := journal s ++ evs |}.

(** Playwright starts, launches, creates and stops without error. *)
Definition pool_serves (env : browser_env) : Prop :=
  pw_start env = Answer tt
  /\ (forall i, launch env i = Answer tt)
  /\ (forall i j, new_context env i j = Answer tt)
  /\ pw_stop env = Answer tt.

(** Every task of every batch completes, in whatever order. *)
Definition every_task_completes (completion : nat -> list nat)
    (business_names : list string) (batch_size : Z) : Prop :=
  forall b j, (j < length (batch_at business_names batch_size b))%nat ->
              j ∈ completion b.

(** A site on which every search succeeds at once. *)
Definition results_page : nat -> Detector.probe := fun _ =>
  {| Detector.results_q := after 40 (Answer 3%nat);
     Detector.no_results_q := after 0 (Answer false);
     Detector.loading_q := after 0 (Answer false);
     Detector.sleep_late := 0 |}.

Definition good_page : page_env :=
  {| started_at := 0;
     permit_wait := 0;
     new_page := after 10 (Answer tt);
     goto := after 300 (Answer tt);
     accept_cookies := after 8388608 (Fails "Timeout 2000ms exceeded");
     cookie_sleep_late := 0;
     wait_query_box := after 20 (Answer tt);
     fill_query := after 5 (Answer tt);
     count_button := fun selector =>
       after 1 (Answer (if String.eqb selector "input[type='submit']"
                        then 1%nat else 0%nat));
     click_button := fun _ => after 30 (Answer tt);
     wait_load_state := after 100 (Answer tt);
     polls := results_page;
     content := after 5 (Answer "<html>results</html>"%string);
     close_page := after 5 (Answer tt) |}.

(** Odd-numbered names meet a page without submit control. *)
Definition mixed_site : nat -> page_env :=
  fun n => if Nat.even n then good_page else no_button_page.

Definition seven_names : list string :=
  ["MTD Products Limited"; "Union Co-op"; "Concordia Club";
   "Grand River Hospital"; "University of Waterloo";
   "Kitchener Market"; "THEMUSEUM"]%string.

(** In every batch the last task completes first. *)
Definition last_first : nat -> list nat := fun _ => [2; 0; 1]%nat.

(** A task function whose second coroutine lets an exception out. *)
Definition second_task_raises (permits : Z) (pool : list context) (i : nat)
    : string -> Z -> outcome SearchResult :=
  if (i =? 1)%nat then fun _ _ => Raise "boom"
  else run_task permits pool good_page.

(** *** What [close] comes to *)

(** One iteration of the first loop of [close]. *)
Definition close_context_step (env : browser_env) (s : state) (c : context)
    : state :=
  match context_close env c with
  | Answer _ => context_closed c s
  | Fails _ => s
  end.

(** One iteration of its second loop. *)
Definition close_browser_step (env : browser_env) (s : state) (b : browser)
    : state :=
  match browser_close env b with
  | Answer _ => browser_closed b s
  | Fails _ => s
  end.

(** The second browser and its contexts cannot be closed. *)
Definition stuck : browser_env :=
  {| pw_start := Answer tt;
     launch := fun _ => Answer tt;
     new_context := fun _ _ => Answer tt;
     context_close := fun c =>
       if (c.1 =? 1)%nat then Fails "Target closed" else Answer tt;
     browser_close := fun b =>
       if (b =? 1)%nat then Fails "Target closed" else Answer tt;
     pw_stop := Answer tt |}.

(** Everything works but the driver cannot be stopped. *)
Definition unstoppable : browser_env :=
  {| pw_start := Answer tt;
     launch := fun _ => Answer tt;
     new_context := fun _ _ => Answer tt;
     context_close := fun _ => Answer tt;
     browser_close := fun _ => Answer tt;
     pw_stop := Fails "Connection closed" |}.

(** [search_multiple_businesses_sync], the event loop apart: the batch
    pipeline with its default batch size. *)
Definition search_multiple_businesses_sync (env : browser_env)
    (site : nat -> page_env) (completion : nat -> list nat)
    (business_names : list string) : outcome (list SearchResult) * state :=
  batch_search_businesses env site completion business_names
    MAX_CONCURRENT_SEARCHES.

(** The state after the browsers [bs] and the contexts [cs] have been
    created and registered. *)
Definition pool_grown (bs : list browser) (cs : list context) (s : state)
    : state :=
  {| max_concurrent := max_concurrent s;
     browser_pool_size := browser_pool_size s;
     playwright := playwright s; browser_pool := browser_pool s ++ bs;
     context_pool := context_pool s ++ cs;
     live_browsers := live_browsers s ++ bs;
     live_contexts := live_contexts s ++ cs;
     driver_running := driver_running s; journal := journal s |}.

(** [c] contexts for each of the browsers [i0 .. i0+n-1], in creation
    order. *)
Definition pool_layout (i0 n c : nat) : list context :=
  flat_map (fun i => (fun j => (i, j)) <$> seq 0 c) (seq i0 n).

(** The cleanup rule as the specification words it: a start that fails
    leaves nothing open behind it. *)
Definition spec_no_partial_pool (env : browser_env)
    (max_concurrent browser_pool_size : Z) : Prop :=
  forall e s,
    start env (fresh max_concurrent browser_pool_size) = (Raise e, s) ->
    live_browsers s = [] /\ live_contexts s = [].

(** Playwright working perfectly. *)
Definition healthy : browser_env :=
  {| pw_start := Answer tt;
     launch := fun _ => Answer tt;
     new_context := fun _ _ => Answer tt;
     context_close := fun _ => Answer tt;
     browser_close := fun _ => Answer tt;
     pw_stop := Answer tt |}.

(** The second browser cannot be launched. *)
Definition second_launch_fails : browser_env :=
  {| pw_start := Answer tt;
     launch := fun i => if (i =? 1)%nat
                        then Fails "Executable doesn't exist"
                        else Answer tt;
     new_context := fun _ _ => Answer tt;
     context_close := fun _ => Answer tt;
     browser_close := fun _ => Answer tt;
     pw_stop := Answer tt |}.

(** Every context and every browser closes when asked. *)
Definition closes_all (env : browser_env) : Prop :=
  (forall c, context_close env c = Answer tt)
  /\ (forall b, browser_close env b = Answer tt).

(** The scraper once [start] has run on a serving Playwright: three
    browsers, [max(1, batch_size // 3)] contexts each. *)
Definition started_pool (batch_size : Z) : state :=
  pool_grown (seq 0 3)
    (pool_layout 0 3 (Z.to_nat (Z.max 1 (batch_size / BROWSER_POOL_SIZE))))
    (driver_started (fresh batch_size BROWSER_POOL_SIZE)).

(** The hint [search_multiple_businesses] computes for position [i]. *)
Definition hint_of (pool : list context) (i : nat) : Z :=
  Z.of_nat i `mod` Z.of_nat (length pool).

(** What the task of the [k]-th name comes to in a run of the
    pipeline: it is task number [k mod batch_size] of its batch, run on
    the pool that [start] built, against a semaphore of [batch_size]
    permits. *)
Definition task_of (site : nat -> page_env) (batch_size : Z) (k : nat)
    (business_name : string) : outcome SearchResult :=
  let pool := context_pool (started_pool batch_size) in
  run_task batch_size pool (site k) business_name
    (hint_of pool (k mod Z.to_nat batch_size)).


End Scraper.

(** * Part II: properties *)

(** ** The monad *)

Lemma bind_eq {S A B} (c : M S A) (k : A -> M S B) (s : S) :
  bind c k s
  = match c s with
    | (Ret a, s') => k a s'
    | (Raise e, s') => (Raise e, s')
    | (Pending, s') => (Pending, s')
    end.
Proof. reflexivity. Qed.

Lemma bind_returned {S A B} (c : M S A) (k : A -> M S B) s a s' :
  c s = (Ret a, s') -> bind c k s = k a s'.
Proof. intros H. rewrite bind_eq, H. reflexivity. Qed.

Lemma bind_raised {S A B} (c : M S A) (k : A -> M S B) s e s' :
  c s = (Raise e, s') -> bind c k s = (Raise e, s').
Proof. intros H. rewrite bind_eq, H. reflexivity. Qed.

Lemma await_answer {A} (c : timed A) a t :
  answer c = Answer a -> await c t = (Ret a, t + Z.of_N (took c)).
Proof. intros H. unfold await. rewrite H. reflexivity. Qed.

Lemma await_fails {A} (c : timed A) e t :
  answer c = Fails e -> await c t = (Raise e, t + Z.of_N (took c)).
Proof. intros H. unfold await. rewrite H. reflexivity. Qed.

Section Ensures.
Context {S : Type}.

Lemma ensures_ret {A} (a : A) (Q : A -> Prop) :
  Q a -> ensures (S := S) (ret a) Q.
Proof. intros H s. exact H. Qed.

Lemma ensures_raise {A} e (Q : A -> Prop) : ensures (S := S) (raise e) Q.
Proof. intros s. exact I. Qed.

Lemma ensures_modify f (Q : unit -> Prop) :
  Q tt -> ensures (S := S) (modify f) Q.
Proof. intros H s. exact H. Qed.

Lemma ensures_get (Q : S -> Prop) : (forall s, Q s) -> ensures get Q.
Proof. intros H s. apply H. Qed.

Lemma ensures_lift {A} (o : outcome A) (Q : A -> Prop) :
  o <> Pending -> (forall a, o = Ret a -> Q a) -> ensures (S := S) (lift o) Q.
Proof.
  intros Hp HQ s. unfold lift. simpl. destruct o; auto.
Qed.

Lemma ensures_weaken {A} (c : M S A) (P Q : A -> Prop) :
  ensures c P -> (forall a, P a -> Q a) -> ensures c Q.
Proof.
  intros Hc HPQ s. specialize (Hc s). destruct (c s).1; auto.
Qed.

Lemma ensures_bind {A B} (c : M S A) (k : A -> M S B) (Q : B -> Prop) :
  ensures c (fun a => ensures (k a) Q) -> ensures (bind c k) Q.
Proof.
  intros Hc s. specialize (Hc s). rewrite bind_eq.
  destruct (c s) as [[a|e|] s']; simpl in *; auto. apply Hc.
Qed.

Lemma ensures_try_except {A} (body : M S A) handler (Q : A -> Prop) :
  ensures body Q -> (forall e, ensures (handler e) Q) ->
  ensures (try_except body handler) Q.
Proof.
  intros Hb Hh s. specialize (Hb s). unfold try_except.
  destruct (body s) as [[a|e|] s']; simpl in *; auto. apply Hh.
Qed.

Lemma ensures_try_finally {A} (body : M S A) fin (Q : A -> Prop) :
  ensures body Q -> ensures fin (fun _ => True) ->
  ensures (try_finally body fin) Q.
Proof.
  intros Hb Hf s. specialize (Hb s). unfold try_finally.
  destruct (body s) as [[a|e|] s']; simpl in *; auto;
    specialize (Hf s'); destruct (fin s') as [[u|e'|] s'']; simpl in *; auto.
Qed.

End Ensures.

Lemma ensures_await {A} (c : timed A) (Q : A -> Prop) :
  (forall a, Q a) -> ensures (await c) Q.
Proof.
  intros H t. unfold await. simpl. destruct (answer c); simpl; auto.
Qed.

(** ** Completion detector *)

Section DetectorFacts.
Import Detector.

Lemma wait_loop_unfold env max_wait start_time k now :
  wait_loop env max_wait start_time k now =
  if now - start_time <? max_wait then
    match poll (env k) start_time now with
    | (Ret (Stop why), t) => (Ret why, t)
    | (Ret Again, t) => wait_loop env max_wait start_time (S k) t
    | (Raise e, t) => (Raise e, t)
    | (Pending, t) => (Pending, t)
    end
  else (Ret BudgetExhausted, now).
Proof.
  funelim (wait_loop env max_wait start_time k now);
    repeat match goal with
           | H : _ = _ |- _ => rewrite H
           end; reflexivity.
Qed.

Lemma lasted_pos delay late : 1 <= lasted delay late.
Proof. unfold lasted. lia. Qed.

Lemma lasted_le delay late O :
  0 < delay -> 0 <= O -> late <= O -> lasted delay late <= delay + O.
Proof. unfold lasted. lia. Qed.

Lemma poll_interval_pos : 0 < poll_interval.
Proof. reflexivity. Qed.

(** One iteration: the [try] with its handler never lets an exception
    out, and the clock moves as the branch taken says. *)
Lemma poll_spec p start_time now :
  exists v t,
    poll p start_time now = (Ret v, t)
    /\ match v with
       | Again =>
           now + lasted poll_interval (sleep_late p) <= t
           <= now + Z.of_N (probe_latency p)
              + lasted poll_interval (sleep_late p)
       | Stop why =>
           now <= t <= now + Z.of_N (probe_latency p)
           /\ why <> BudgetExhausted
           /\ (why = Settled \/ why = GaveUp -> grace < t - start_time)
       end
    /\ (query_fails p = true -> v = Again \/ v = Stop GaveUp)
    /\ (answer (results_q p) = Answer 0%nat ->
        answer (no_results_q p) = Answer false ->
        answer (loading_q p) = Answer true -> v = Again).
Proof.
  pose proof (lasted_pos poll_interval (sleep_late p)) as Hpos.
  unfold poll, try_except, poll_body, poll_handler, bind, await,
    time_time, get, sleep, modify, ret, query_fails, probe_latency.
  set (d := lasted poll_interval (sleep_late p)) in *. clearbody d.
  destruct (answer (results_q p)) as [n|e]; simpl.
  - destruct (0 <? n)%nat eqn:En; simpl.
    { eexists _, _; split; [reflexivity|].
      repeat split; try lia; try congruence.
      - intros [H|H]; discriminate H.
      - intros [= ->]. discriminate En. }
    destruct (answer (no_results_q p)) as [b|e]; simpl.
    + destruct b; simpl.
      { eexists _, _; split; [reflexivity|].
        repeat split; try lia; try congruence.
        intros [H|H]; discriminate H. }
      destruct (answer (loading_q p)) as [l|e]; simpl.
      * destruct (negb l && _) eqn:El; simpl;
          eexists _, _; (split; [reflexivity|]).
        -- apply andb_true_iff in El as [Hl Hg]. apply Z.ltb_lt in Hg.
           repeat split; try lia; try congruence.
           intros _ _ [= ->]. discriminate Hl.
        -- repeat split; try lia; try congruence; auto.
      * destruct (grace <? _) eqn:Eg; simpl;
          eexists _, _; (split; [reflexivity|]).
        -- apply Z.ltb_lt in Eg.
           repeat split; try lia; try congruence; auto.
        -- repeat split; try lia; try congruence; auto.
    + destruct (grace <? _) eqn:Eg; simpl;
        eexists _, _; (split; [reflexivity|]).
      * apply Z.ltb_lt in Eg.
        repeat split; try lia; try congruence; auto.
      * repeat split; try lia; try congruence; auto.
  - destruct (grace <? _) eqn:Eg; simpl;
      eexists _, _; (split; [reflexivity|]).
    + apply Z.ltb_lt in Eg.
      repeat split; try lia; try congruence; auto.
    + repeat split; try lia; try congruence; auto.
Qed.

(** The loop, by induction on what is left of the budget. *)
Lemma wait_loop_spec env max_wait start_time :
  forall (n : nat) k now,
    (Z.to_nat (max_wait - (now - start_time)) <= n)%nat ->
    exists why t,
      wait_loop env max_wait start_time k now = (Ret why, t)
      /\ now <= t
      /\ (why = BudgetExhausted -> max_wait <= t - start_time)
      /\ (why = Settled \/ why = GaveUp -> grace < t - start_time)
      /\ (forall L O, latency_within L env -> lateness_within O env ->
                      0 <= O ->
                      now - start_time < max_wait + poll_interval + L + O ->
                      t - start_time < max_wait + poll_interval + L + O)
      /\ ((forall j, query_fails (env j) = true) ->
          why = GaveUp \/ why = BudgetExhausted)
      /\ (never_marked env -> stays_loading env -> why = BudgetExhausted).
Proof.
  induction n as [|n IH]; intros k now Hn; rewrite wait_loop_unfold;
    destruct (now - start_time <? max_wait) eqn:Hlt;
    try (apply Z.ltb_lt in Hlt; lia);
    try (apply Z.ltb_ge in Hlt; exists BudgetExhausted, now;
         split; [reflexivity|]; repeat split; auto; try lia;
         intros [H|H]; discriminate H).
  apply Z.ltb_lt in Hlt.
  destruct (poll_spec (env k) start_time now)
    as (v & t & -> & Hclock & Hfail & Hbusy).
  pose proof (lasted_pos poll_interval (sleep_late (env k))) as Hpos.
  destruct v as [why|].
  - destruct Hclock as (Ht & Hwhy & Hgrace).
    exists why, t. split; [reflexivity|].
    split; [lia|]. split; [intros ->; contradiction|].
    split; [exact Hgrace|]. split.
    { intros L O HL HO HO0 _. specialize (HL k).
      pose proof poll_interval_pos. lia. }
    split.
    { intros Hall. destruct (Hfail (Hall k)) as [H|H];
        [discriminate H | injection H as ->; auto]. }
    intros Hm Hl. destruct (Hm k) as [H1 H2].
    discriminate (Hbusy H1 H2 (Hl k)).
  - destruct (IH (S k) t) as (why & t' & Heq & Hle & Hb & Hg & HL & Hf & Hl);
      [lia|].
    exists why, t'. split; [exact Heq|].
    split; [lia|]. split; [exact Hb|]. split; [exact Hg|].
    split; [|split; assumption].
    intros L O HLat HLate HO0 _. apply HL; try assumption.
    specialize (HLat k).
    pose proof (lasted_le poll_interval (sleep_late (env k)) O
                  poll_interval_pos HO0 (HLate k)).
    lia.
Qed.

Lemma wait_for_results_smart_unfold env max_wait now :
  _wait_for_results_smart env max_wait now
  = wait_loop env max_wait now 0 now.
Proof. reflexivity. Qed.

Lemma wait_for_results_smart_spec env max_wait now :
  exists why t,
    _wait_for_results_smart env max_wait now = (Ret why, t)
    /\ now <= t
    /\ (why = BudgetExhausted -> max_wait <= t - now)
    /\ (why = Settled \/ why = GaveUp -> grace < t - now)
    /\ (forall L O, latency_within L env -> lateness_within O env ->
                    0 <= O -> 0 <= max_wait ->
                    t - now < max_wait + poll_interval + L + O)
    /\ ((forall j, query_fails (env j) = true) ->
        why = GaveUp \/ why = BudgetExhausted)
    /\ (never_marked env -> stays_loading env -> why = BudgetExhausted).
Proof.
  rewrite wait_for_results_smart_unfold.
  destruct (wait_loop_spec env max_wait now
              (Z.to_nat (max_wait - (now - now))) 0%nat now (le_n _))
    as (why & t & Heq & Hle & Hb & Hg & Hbound & Hfail & Hbusy).
  exists why, t. repeat (split; [assumption|]).
  split; [|split; assumption].
  intros L O HL HO HO0 Hmw. apply Hbound; try assumption.
  pose proof (HL 0%nat). pose proof poll_interval_pos. lia.
Qed.

(** The first iteration of a run. *)
Lemma first_poll env max_wait now :
  0 < max_wait ->
  _wait_for_results_smart env max_wait now
  = match poll (env 0%nat) now now with
    | (Ret (Stop why), t) => (Ret why, t)
    | (Ret Again, t) => wait_loop env max_wait now 1 t
    | (Raise e, t) => (Raise e, t)
    | (Pending, t) => (Pending, t)
    end.
Proof.
  intros Hmw. rewrite wait_for_results_smart_unfold, wait_loop_unfold.
  replace (now - now <? max_wait) with true; [reflexivity|].
  symmetry. apply Z.ltb_lt. lia.
Qed.

(** C2 (as the code has it): when neither marker ever appears AND a
    loading indicator is found at every poll, the wait ends by the
    [while] test: not before the budget [max_wait] has elapsed on the
    clock the code reads, and later than the budget by less than one
    poll interval, plus the time [L] that the queries of one iteration
    take at most, plus the lateness [O] that a sleep has at most.  No
    sleep is assumed to be exact: each may end late, or short. *)
Theorem detector_waits_full_budget_while_loading
    (env : nat -> probe) (max_wait now L O : Z) :
  0 <= max_wait ->
  0 <= O ->
  latency_within L env ->
  lateness_within O env ->
  never_marked env ->
  stays_loading env ->
  exists t,
    _wait_for_results_smart env max_wait now = (Ret BudgetExhausted, t)
    /\ max_wait <= t - now < max_wait + poll_interval + L + O.
Proof.
  intros Hmw HO0 HL HO Hm Hl.
  destruct (wait_for_results_smart_spec env max_wait now)
    as (why & t & Heq & _ & Hb & _ & Hbound & _ & Hwhy).
  specialize (Hwhy Hm Hl). subst why.
  exists t. split; [exact Heq|]. split; [auto|].
  apply Hbound; assumption.
Qed.

Lemma detector_waits_full_budget_witness :
  exists t, _wait_for_results_smart busy_page default_max_wait 0
            = (Ret BudgetExhausted, t)
            /\ default_max_wait <= t - 0
               < default_max_wait + poll_interval + 0 + 0.
Proof.
  apply (detector_waits_full_budget_while_loading
           busy_page default_max_wait 0 0 0).
  - unfold default_max_wait. lia.
  - lia.
  - intros k. reflexivity.
  - intros k. reflexivity.
  - intros k. split; reflexivity.
  - intros k. reflexivity.
Defined.

Lemma quiet_poll_goes_round now :
  now <= grace ->
  poll (quiet_page 0%nat) 0 now = (Ret Again, now + poll_interval).
Proof.
  intros Hg. unfold poll, try_except, poll_body, bind, await, time_time,
    get, sleep, modify, ret. cbn [quiet_page results_q no_results_q
    loading_q sleep_late instantly answer took outcome_of_reply Nat.ltb
    Nat.leb negb andb].
  replace (grace <? now + Z.of_N 0 + Z.of_N 0 + Z.of_N 0 - 0) with false
    by (symmetry; apply Z.ltb_ge; lia).
  f_equal. unfold lasted, poll_interval. lia.
Qed.

Lemma quiet_page_run :
  _wait_for_results_smart quiet_page default_max_wait 0
  = (Ret Settled, grace + poll_interval).
Proof.
  rewrite wait_for_results_smart_unfold.
  do 7 (rewrite wait_loop_unfold;
        match goal with
        | |- context [?a - 0 <? default_max_wait] =>
            replace (a - 0 <? default_max_wait) with true
              by (symmetry; apply Z.ltb_lt;
                  unfold default_max_wait, poll_interval; lia)
        end;
        change (quiet_page _) with (quiet_page 0%nat);
        rewrite quiet_poll_goes_round by (unfold grace, poll_interval; lia)).
  rewrite wait_loop_unfold.
  match goal with
  | |- context [?a - 0 <? default_max_wait] =>
      replace (a - 0 <? default_max_wait) with true
        by (symmetry; apply Z.ltb_lt;
            unfold default_max_wait, poll_interval; lia)
  end.
  unfold poll, try_except, poll_body, bind, await, time_time,
    get, ret. cbn [quiet_page results_q no_results_q
    loading_q instantly answer took outcome_of_reply Nat.ltb
    Nat.leb negb andb].
  match goal with
  | |- context [grace <? ?a] =>
      replace (grace <? a) with true
        by (symmetry; apply Z.ltb_lt; unfold grace, poll_interval; lia)
  end.
  f_equal; unfold grace, poll_interval; lia.
Qed.

(** C2 as worded fails: on a page that shows no marker and no loading
    indicator the wait ends after 3.5 s, by the grace-period rule (the
    sleeps of this page are exact; late ones end it sooner). *)
Lemma spec_full_budget_refuted : ~ spec_full_budget quiet_page.
Proof.
  intros H.
  assert (Hm : never_marked quiet_page) by (intros k; split; reflexivity).
  specialize (H Hm (Ret Settled) (grace + poll_interval) quiet_page_run).
  unfold default_max_wait, grace, poll_interval in H. lia.
Qed.

(** C10 (as the code has it): whatever the page does, the detector
    returns normally: no exception leaves it and it does not wait for
    ever.  It returns later than the [max_wait] budget by less than
    one poll interval, plus the time [L] that the queries of one
    iteration take at most, plus the lateness [O] that a sleep has at
    most; and when a query raises at every iteration it does not return
    before the 3 s grace period has elapsed (for a budget of at least
    3 s). *)
Theorem detector_contains_query_failures
    (env : nat -> probe) (max_wait now : Z) :
  exists why t,
    _wait_for_results_smart env max_wait now = (Ret why, t)
    /\ (forall L O, 0 <= max_wait -> 0 <= O ->
                    latency_within L env -> lateness_within O env ->
                    t - now < max_wait + poll_interval + L + O)
    /\ ((forall k, query_fails (env k) = true) -> grace <= max_wait ->
        grace <= t - now /\ (why = GaveUp \/ why = BudgetExhausted)).
Proof.
  destruct (wait_for_results_smart_spec env max_wait now)
    as (why & t & Heq & _ & Hb & Hg & Hbound & Hfail & _).
  exists why, t. split; [exact Heq|]. split.
  - intros L O Hmw HO0 HL HO. apply Hbound; assumption.
  - intros Hall Hmw. specialize (Hfail Hall). split; [|exact Hfail].
    destruct Hfail as [-> | ->]; [|specialize (Hb eq_refl); lia].
    assert (grace < t - now) by auto. lia.
Qed.

Lemma detector_contains_query_failures_witness :
  exists why t,
    _wait_for_results_smart broken_page default_max_wait 0 = (Ret why, t)
    /\ t - 0 < default_max_wait + poll_interval + 0 + 0
    /\ grace <= t - 0.
Proof.
  destruct (detector_contains_query_failures broken_page default_max_wait 0)
    as (why & t & Heq & Hbound & Hfail).
  exists why, t. split; [exact Heq|]. split.
  - apply Hbound; [unfold default_max_wait; lia | lia
                   | intros k; reflexivity | intros k; reflexivity].
  - apply Hfail; [intros k; reflexivity
                 | unfold grace, default_max_wait; lia].
Defined.

(** C10 as worded fails: a query that takes ten seconds to raise makes
    the detector return after ten seconds, one and a half after the
    budget plus one poll interval. *)
Lemma spec_contained_within_budget_refuted :
  ~ spec_contained_within_budget slow_broken_page default_max_wait.
Proof.
  intros H. destruct H as (why & t & Hrun & _ & Hlate);
    [intros k; reflexivity|].
  rewrite first_poll in Hrun by reflexivity.
  unfold poll, try_except, poll_body, poll_handler, bind, await, time_time,
    get, ret in Hrun.
  cbn [slow_broken_page results_q answer took outcome_of_reply] in Hrun.
  replace (grace <? 0 + Z.of_N 41943040 - 0) with true in Hrun
    by (symmetry; apply Z.ltb_lt; unfold grace; lia).
  injection Hrun as _ <-.
  unfold default_max_wait, poll_interval in Hlate. lia.
Qed.

End DetectorFacts.

(** ** Limiter *)

Section LimiterFacts.
Import Limiter.

Lemma count_running_insert ps : forall i p q,
  ps !! i = Some p ->
  (count_running (<[i := q]> ps) + is_running p
   = count_running ps + is_running q)%nat.
Proof.
  induction ps as [|p0 ps IH]; intros i p q Hi; [discriminate Hi|].
  destruct i as [|i]; simpl in *.
  - injection Hi as ->. destruct p, q; simpl; lia.
  - specialize (IH i p q Hi). destruct p0; simpl; lia.
Qed.

Lemma count_running_replicate n : count_running (replicate n Waiting) = 0%nat.
Proof. induction n; simpl; auto. Qed.

(** Permits held plus permits free stay what the semaphore was built
    with. *)
Lemma step_keeps_permits i st :
  (running (step i st) + value (step i st) = running st + value st)%nat.
Proof.
  unfold step, running.
  destruct (tasks st !! i) as [[| |]|] eqn:Hi; try reflexivity.
  - destruct (value st) as [|v] eqn:Hv; simpl; [lia|].
    pose proof (count_running_insert _ _ _ Running Hi). simpl in *. lia.
  - simpl.
    pose proof (count_running_insert _ _ _ Finished Hi). simpl in *. lia.
Qed.

Lemma run_keeps_permits schedule : forall st,
  (running (run schedule st) + value (run schedule st)
   = running st + value st)%nat.
Proof.
  induction schedule as [|i rest IH]; intros st; simpl; [reflexivity|].
  unfold run in *. simpl. rewrite IH. apply step_keeps_permits.
Qed.

(** C8: whatever tasks the event loop resumes and in whatever order,
    after any number of its steps at most [max_concurrent] tasks are
    inside the [async with self.semaphore] block. *)
Theorem limiter_bounds_running_tasks
    (max_concurrent n : nat) (schedule : list nat) (steps : nat) :
  (running (run (take steps schedule) (init max_concurrent n))
   <= max_concurrent)%nat.
Proof.
  pose proof (run_keeps_permits (take steps schedule)
                (init max_concurrent n)) as H.
  unfold running at 2 in H. simpl in H.
  rewrite count_running_replicate in H. lia.
Qed.

Example limiter_run :
  tasks (run [0; 1; 2; 3; 0; 3; 2]%nat (init 2 4))
  = [Finished; Running; Waiting; Running].
Proof. reflexivity. Qed.

End LimiterFacts.

(** ** Pool *)

Section PoolFacts.
Import Scraper.

Lemma pool_grown_nil s : pool_grown [] [] s = s.
Proof. destruct s. unfold pool_grown. simpl. rewrite !app_nil_r. done. Qed.

Lemma pool_grown_grown bs cs bs' cs' s :
  pool_grown bs' cs' (pool_grown bs cs s) = pool_grown (bs ++ bs') (cs ++ cs') s.
Proof. unfold pool_grown. simpl. rewrite !app_assoc. done. Qed.

Lemma browser_added_grown b s : browser_added b s = pool_grown [b] [] s.
Proof. unfold browser_added, pool_grown. rewrite !app_nil_r. done. Qed.

Lemma context_added_grown c s : context_added c s = pool_grown [] [c] s.
Proof. unfold context_added, pool_grown. rewrite !app_nil_r. done. Qed.

Lemma start_context_eq env i j s :
  start_context env i j s
  = match new_context env i j with
    | Answer _ => (Ret tt, context_added (i, j) s)
    | Fails e => (Raise e, s)
    end.
Proof.
  unfold start_context, bind, call, lift, modify.
  destruct (new_context env i j); reflexivity.
Qed.

(** The inner loop of [start], when every context can be created. *)
Lemma contexts_created env i : forall n j0 s,
  (forall j, new_context env i j = Answer tt) ->
  for_each (seq j0 n) (start_context env i) s
  = (Ret tt, pool_grown [] ((fun j => (i, j)) <$> seq j0 n) s).
Proof.
  induction n as [|n IH]; intros j0 s Hok; simpl.
  - rewrite pool_grown_nil. reflexivity.
  - rewrite bind_eq, start_context_eq, Hok, IH by exact Hok.
    rewrite context_added_grown, pool_grown_grown. reflexivity.
Qed.

Lemma start_browser_ok env i s :
  launch env i = Answer tt ->
  (forall j, new_context env i j = Answer tt) ->
  start_browser env i s
  = (Ret tt,
     pool_grown [i]
       (pool_layout i 1
          (Z.to_nat (Z.max 1 (max_concurrent s / browser_pool_size s)))) s).
Proof.
  intros Hl Hc. unfold start_browser.
  rewrite bind_eq. unfold call at 1, lift at 1. rewrite Hl.
  cbn [outcome_of_reply]. rewrite bind_eq. unfold modify at 1.
  rewrite bind_eq. unfold get at 1.
  unfold range. rewrite contexts_created by exact Hc.
  rewrite browser_added_grown, pool_grown_grown. simpl.
  unfold pool_layout. simpl. rewrite app_nil_r. reflexivity.
Qed.

Lemma start_browser_fails env i e s :
  launch env i = Fails e -> start_browser env i s = (Raise e, s).
Proof.
  intros Hl. unfold start_browser.
  rewrite bind_eq. unfold call at 1, lift at 1. rewrite Hl. reflexivity.
Qed.

Lemma pool_layout_snoc i0 n c :
  pool_layout i0 (S n) c = pool_layout i0 n c ++ pool_layout (i0 + n) 1 c.
Proof.
  unfold pool_layout. rewrite seq_S, flat_map_app. reflexivity.
Qed.

Lemma pool_layout_cons i0 n c :
  pool_layout i0 (S n) c = pool_layout i0 1 c ++ pool_layout (S i0) n c.
Proof.
  unfold pool_layout. simpl. rewrite app_nil_r. reflexivity.
Qed.

(** The outer loop of [start]: [k] launches succeed, then either the
    range is exhausted or the next launch fails. *)
Lemma browsers_launched env c : forall k n i0 s,
  Z.to_nat (Z.max 1 (max_concurrent s / browser_pool_size s)) = c ->
  (k <= n)%nat ->
  (forall i, (i0 <= i < i0 + k)%nat ->
             launch env i = Answer tt
             /\ forall j, new_context env i j = Answer tt) ->
  for_each (seq i0 n) (start_browser env) s
  = (if decide (k = n) then Ret tt
     else outcome_of_reply (launch env (i0 + k)),
     pool_grown (seq i0 k) (pool_layout i0 k c) s)
  \/ (k < n)%nat /\ exists u, launch env (i0 + k)%nat = Answer u.
Proof.
  induction k as [|k IH]; intros n i0 s Hc Hkn Hok.
  - destruct n as [|n]; simpl.
    + left. rewrite pool_grown_nil. reflexivity.
    + destruct (launch env (i0 + 0)) as [u|e] eqn:Hl.
      { right. split; [lia|]. eauto. }
      left. replace (i0 + 0)%nat with i0 in Hl by lia.
      rewrite bind_eq, (start_browser_fails _ _ _ _ Hl).
      rewrite pool_grown_nil. reflexivity.
  - destruct n as [|n]; [lia|]. simpl.
    destruct (Hok i0) as [Hl Hcs]; [lia|].
    rewrite bind_eq, (start_browser_ok _ _ _ Hl Hcs), Hc.
    destruct (IH n (S i0) (pool_grown [i0] (pool_layout i0 1 c) s))
      as [Heq | (Hlt & u & Hu)].
    + exact Hc.
    + lia.
    + intros i Hi. apply Hok. lia.
    + left. rewrite Heq. rewrite pool_grown_grown.
      replace (S i0 + k)%nat with (i0 + S k)%nat by lia.
      rewrite <- pool_layout_cons.
      destruct (decide (k = n)), (decide (S k = S n)); try lia; reflexivity.
    + right. split; [lia|]. exists u.
      replace (i0 + S k)%nat with (S i0 + k)%nat by lia. exact Hu.
Qed.

(** C4 (as the code has it): when the first [k] launches succeed, with
    all their contexts, and either [k] is [browser_pool_size] or launch
    number [k] fails, [start] registers exactly [k] browsers, each with
    [max(1, max_concurrent // browser_pool_size)] contexts; it returns
    when [k] is the pool size and otherwise lets the launch error
    through (the failure is fatal); and in both cases it closes nothing:
    every browser and context created so far is still open. *)
Theorem start_builds_pool_and_releases_nothing
    (env : browser_env) (mc bps : Z) (k : nat) :
  pw_start env = Answer tt ->
  (k <= Z.to_nat bps)%nat ->
  (forall i, (i < k)%nat ->
             launch env i = Answer tt
             /\ forall j, new_context env i j = Answer tt) ->
  ((k < Z.to_nat bps)%nat -> exists e, launch env k = Fails e) ->
  let after := start env (fresh mc bps) in
  after.1 = (if decide (k = Z.to_nat bps) then Ret tt
             else outcome_of_reply (launch env k))
  /\ browser_pool after.2 = seq 0 k
  /\ context_pool after.2
     = pool_layout 0 k
         (Z.to_nat (Z.max 1 (mc / bps)))
  /\ live_browsers after.2 = browser_pool after.2
  /\ live_contexts after.2 = context_pool after.2.
Proof.
  intros Hpw Hk Hok Hfail after. subst after.
  assert (Hrun : start env (fresh mc bps)
                 = for_each (seq 0 (Z.to_nat bps)) (start_browser env)
                     (driver_started (fresh mc bps))).
  { unfold start, bind, call, lift, modify, get. rewrite Hpw. reflexivity. }
  rewrite Hrun. clear Hrun.
  destruct (browsers_launched env
              (Z.to_nat (Z.max 1 (mc / bps)))
              k (Z.to_nat bps) 0
              (driver_started (fresh mc bps)))
    as [-> | (Hlt & u & Hu)].
  - reflexivity.
  - exact Hk.
  - intros i Hi. apply Hok. lia.
  - simpl. repeat split; reflexivity.
  - destruct (Hfail Hlt) as [e He]. simpl in Hu. congruence.
Qed.

Lemma start_builds_pool_witness :
  let after := start second_launch_fails (fresh 5 3) in
  after.1 = Raise "Executable doesn't exist"
  /\ browser_pool after.2 = [0%nat]
  /\ context_pool after.2 = [(0%nat, 0%nat)]
  /\ live_browsers after.2 = browser_pool after.2
  /\ live_contexts after.2 = context_pool after.2.
Proof.
  apply (start_builds_pool_and_releases_nothing second_launch_fails 5 3 1).
  - reflexivity.
  - simpl. lia.
  - intros i Hi. assert (i = 0%nat) as -> by lia. split; reflexivity.
  - intros _. eexists. reflexivity.
Defined.

(** C4 as worded fails: when the second launch fails, the first browser
    and its context stay open. *)
Lemma spec_no_partial_pool_refuted :
  ~ spec_no_partial_pool second_launch_fails 5 3.
Proof.
  intros H.
  destruct (H "Executable doesn't exist"%string
              (start second_launch_fails (fresh 5 3)).2 eq_refl) as [Hb _].
  discriminate Hb.
Qed.

Example healthy_start :
  let after := start healthy (fresh 5 3) in
  after.1 = Ret tt
  /\ browser_pool after.2 = [0; 1; 2]%nat
  /\ context_pool after.2 = [(0, 0); (1, 0); (2, 0)]%nat.
Proof. repeat split. Qed.

Example healthy_start_wide :
  context_pool (start healthy (fresh 7 3)).2
  = [(0, 0); (0, 1); (1, 0); (1, 1); (2, 0); (2, 1)]%nat.
Proof. reflexivity. Qed.

(** C5: from a non-empty pool, the context a task works on is the one
    at index [context_id % len(pool)], for every [context_id]; the
    selection is a plain expression, it never waits; and the hint the
    orchestrator passes for position [i], [i % len(pool)], selects the
    same context as [i] itself. *)
Theorem acquire_context_round_robin (pool : list context) (context_id : Z) :
  pool <> [] ->
  (exists c, acquire_context pool context_id = Ret c
             /\ pool !! Z.to_nat (context_id `mod` Z.of_nat (length pool))
                = Some c)
  /\ acquire_context pool context_id <> Pending
  /\ acquire_context pool (context_id `mod` Z.of_nat (length pool))
     = acquire_context pool context_id.
Proof.
  intros Hne.
  assert (Hlen : 0 < Z.of_nat (length pool)).
  { destruct pool; [contradiction | simpl; lia]. }
  pose proof (Z.mod_pos_bound context_id _ Hlen) as Hmod.
  assert (Hin : is_Some
    (pool !! Z.to_nat (context_id `mod` Z.of_nat (length pool)))).
  { apply lookup_lt_is_Some. lia. }
  destruct Hin as [c Hc].
  assert (Heq : acquire_context pool context_id = Ret c).
  { unfold acquire_context. destruct pool; [contradiction|].
    rewrite Hc. reflexivity. }
  split; [eauto|]. split; [rewrite Heq; discriminate|].
  rewrite Heq. unfold acquire_context. destruct pool; [contradiction|].
  rewrite Z.mod_mod by lia. rewrite Hc. reflexivity.
Qed.

Lemma acquire_context_round_robin_witness :
  (exists c, acquire_context [(0, 0); (1, 0); (2, 0)]%nat (-4) = Ret c
             /\ [(0, 0); (1, 0); (2, 0)]%nat
                  !! Z.to_nat ((-4) `mod` 3) = Some c)
  /\ acquire_context [(0, 0); (1, 0); (2, 0)]%nat (-4) <> Pending
  /\ acquire_context [(0, 0); (1, 0); (2, 0)]%nat ((-4) `mod` 3)
     = acquire_context [(0, 0); (1, 0); (2, 0)]%nat (-4).
Proof.
  apply (acquire_context_round_robin [(0, 0); (1, 0); (2, 0)]%nat (-4)).
  discriminate.
Defined.

Example acquire_negative_hint :
  acquire_context [(0, 0); (1, 0); (2, 0)]%nat (-4) = Ret (2, 0)%nat.
Proof. reflexivity. Qed.

(** The helper that nothing calls takes no hint and always hands out
    the first context. *)
Lemma get_available_context_is_first (pool : list context) :
  _get_available_context pool
  = match pool with
    | [] => Raise "list index out of range"
    | c :: _ => Ret c
    end.
Proof.
  unfold _get_available_context. destruct pool as [|c rest]; [reflexivity|].
  rewrite Z.mod_same by (simpl; lia). reflexivity.
Qed.

End PoolFacts.

(** ** Fetch task *)

Section TaskFacts.
Import Scraper.

Lemma detector_settles env max_wait :
  ensures (Detector._wait_for_results_smart env max_wait) (fun _ => True).
Proof.
  intros now. rewrite wait_for_results_smart_unfold.
  destruct (wait_loop_spec env max_wait now
              (Z.to_nat (max_wait - (now - now))) 0%nat now (le_n _))
    as (why & t & -> & _).
  exact I.
Qed.

Lemma try_selector_settles env selector :
  ensures (try_selector env selector) (fun _ => True).
Proof.
  unfold try_selector. apply ensures_try_except.
  - apply ensures_bind, ensures_await. intros n.
    destruct (0 <? n)%nat.
    + apply ensures_bind, ensures_await. intros _. apply ensures_ret, I.
    + apply ensures_ret, I.
  - intros e. apply ensures_ret, I.
Qed.

Lemma click_first_settles env selectors :
  ensures (click_first env selectors) (fun _ => True).
Proof.
  induction selectors as [|selector rest IH]; simpl.
  - apply ensures_ret, I.
  - apply ensures_bind.
    apply (ensures_weaken _ _ _ (try_selector_settles env selector)).
    intros [] _; [apply ensures_ret, I | exact IH].
Qed.

Lemma page_session_ensures env business_name start_time :
  ensures (page_session env business_name start_time)
          (fun r => Scraper.business_name r = business_name
                    /\ success r = true).
Proof.
  unfold page_session.
  apply ensures_bind, ensures_await. intros _.
  apply ensures_bind.
  apply (ensures_weaken _ (fun _ => True)).
  { apply ensures_try_except.
    - apply ensures_bind, ensures_await. intros _.
      apply ensures_modify, I.
    - intros e. apply ensures_ret, I. }
  intros _ _.
  apply ensures_bind, ensures_await. intros _.
  apply ensures_bind, ensures_await. intros _.
  apply ensures_bind.
  apply (ensures_weaken _ _ _ (click_first_settles env _)).
  intros search_clicked _.
  apply ensures_bind.
  apply (ensures_weaken _ (fun _ => True)).
  { destruct search_clicked; [apply ensures_ret, I | apply ensures_raise]. }
  intros _ _.
  apply ensures_bind, ensures_await. intros _.
  apply ensures_bind.
  apply (ensures_weaken _ _ _ (detector_settles _ _)).
  intros _ _.
  apply ensures_bind, ensures_await. intros html.
  apply ensures_bind, ensures_get. intros now.
  apply ensures_ret. split; reflexivity.
Qed.

Lemma acquire_let_in permits wait t :
  0 < permits -> acquire permits wait t = (Ret tt, t + Z.of_N wait).
Proof.
  intros H. unfold acquire.
  replace (0 <? permits) with true by (symmetry; apply Z.ltb_lt; exact H).
  reflexivity.
Qed.

Lemma acquire_kept_out permits wait t :
  permits <= 0 -> acquire permits wait t = (Pending, t).
Proof.
  intros H. unfold acquire.
  replace (0 <? permits) with false by (symmetry; apply Z.ltb_ge; exact H).
  reflexivity.
Qed.

(** Whatever the page does, the task, once let in, returns a result
    that carries the name it was given; a failed result carries no
    html. *)
Lemma task_returns permits pool env business_name context_id t :
  0 < permits ->
  exists r t',
    search_business_optimized permits pool env business_name context_id t
    = (Ret r, t')
    /\ Scraper.business_name r = business_name
    /\ (success r = false -> html_content r = ""%string).
Proof.
  intros Hpermits. unfold search_business_optimized.
  rewrite bind_eq. unfold time_time at 1, get at 1.
  rewrite (bind_returned _ _ _ _ _ (acquire_let_in _ _ _ Hpermits)).
  generalize (t + Z.of_N (permit_wait env)). intros t0.
  match goal with
  | |- context [try_except ?b ?h] => set (body := b); set (handler := h)
  end.
  assert (Hbody : ensures body
            (fun r => Scraper.business_name r = business_name
                      /\ success r = true)).
  { subst body. apply ensures_bind, ensures_lift.
    - unfold acquire_context. destruct pool; [discriminate|].
      destruct (_ !! _); discriminate.
    - intros c _. apply ensures_bind, ensures_await. intros _.
      apply ensures_try_finally; [apply page_session_ensures|].
      apply ensures_await. auto. }
  specialize (Hbody t0). unfold try_except.
  destruct (body t0) as [[r|e|] t']; simpl in Hbody; [| |contradiction].
  - exists r, t'. destruct Hbody as [Hn Hs]. split; [reflexivity|].
    split; [exact Hn|]. rewrite Hs. discriminate.
  - subst handler. cbv beta. rewrite bind_eq.
    unfold time_time at 1, get at 1.
    eexists _, _. split; [reflexivity|]. split; reflexivity.
Qed.

Lemma run_task_returns permits pool env business_name context_id :
  0 < permits ->
  exists r, run_task permits pool env business_name context_id = Ret r
            /\ Scraper.business_name r = business_name.
Proof.
  intros Hpermits. unfold run_task.
  destruct (task_returns permits pool env business_name context_id
              (started_at env) Hpermits)
    as (r & t' & -> & Hn & _).
  eauto.
Qed.

Lemma try_selector_fails env selector t :
  selector_fails env selector = true ->
  exists t', try_selector env selector t = (Ret false, t').
Proof.
  unfold selector_fails, try_selector, try_except, bind, await, ret.
  destruct (answer (count_button env selector)) as [n|e]; simpl.
  - destruct (0 <? n)%nat; simpl; [|eauto].
    destruct (answer (click_button env selector)); simpl;
      [discriminate | eauto].
  - eauto.
Qed.

Lemma click_first_exhausted env selectors : forall t,
  (forall selector, selector ∈ selectors ->
                    selector_fails env selector = true) ->
  exists t', click_first env selectors t = (Ret false, t').
Proof.
  induction selectors as [|selector rest IH]; intros t Hall; simpl.
  - eexists. reflexivity.
  - destruct (try_selector_fails env selector t) as [t1 H1].
    { apply Hall. left. }
    rewrite (bind_returned _ _ _ _ _ H1).
    apply IH. intros sel Hsel. apply Hall. right. exact Hsel.
Qed.

Lemma cookie_banner_swallowed env t :
  exists t', try_except
               (await (accept_cookies env) >>
                sleep (second / 2) (cookie_sleep_late env))
               (fun _ => ret tt) t = (Ret tt, t').
Proof.
  unfold try_except, bind, await, sleep, modify, ret.
  destruct (answer (accept_cookies env)); simpl; eauto.
Qed.

(** With every selector failing, the inner [try] body raises the
    submit error. *)
Lemma page_session_submit_fails env business_name start_time t :
  answer (goto env) = Answer tt ->
  answer (wait_query_box env) = Answer tt ->
  answer (fill_query env) = Answer tt ->
  submit_exhausted env ->
  exists t', page_session env business_name start_time t
             = (Raise submit_error, t').
Proof.
  intros Hgoto Hbox Hfill Hex. unfold page_session.
  rewrite (bind_returned _ _ _ _ _ (await_answer _ _ _ Hgoto)).
  destruct (cookie_banner_swallowed env (t + Z.of_N (took (goto env))))
    as [t1 H1].
  rewrite (bind_returned _ _ _ _ _ H1).
  rewrite (bind_returned _ _ _ _ _ (await_answer _ _ _ Hbox)).
  rewrite (bind_returned _ _ _ _ _ (await_answer _ _ _ Hfill)).
  destruct (click_first_exhausted env search_button_selectors
              (t1 + Z.of_N (took (wait_query_box env))
               + Z.of_N (took (fill_query env))) Hex) as [t2 H2].
  rewrite (bind_returned _ _ _ _ _ H2).
  eexists. reflexivity.
Qed.

(** What the task reports when the submit search is exhausted: the
    submit error if the page closes, the error of [page.close()] if it
    does not. *)
Lemma task_submit_fails permits pool env business_name context_id t :
  reaches_submit permits pool env -> submit_exhausted env ->
  exists t',
    search_business_optimized permits pool env business_name context_id t
    = (Ret {| Scraper.business_name := business_name;
              html_content := "";
              success := false;
              error_message :=
                match answer (close_page env) with
                | Answer _ => submit_error
                | Fails e => e
                end;
              search_time := t' - t |}, t').
Proof.
  intros (Hpermits & Hpool & Hpage & Hgoto & Hbox & Hfill) Hex.
  unfold search_business_optimized.
  rewrite bind_eq. unfold time_time at 1, get at 1.
  rewrite (bind_returned _ _ _ _ _ (acquire_let_in _ _ _ Hpermits)).
  set (t0 := t + Z.of_N (permit_wait env)).
  assert (Hacq : exists c, acquire_context pool context_id = Ret c).
  { unfold acquire_context. destruct pool as [|c0 rest]; [contradiction|].
    destruct (lookup_lt_is_Some_2 (c0 :: rest)
                (Z.to_nat (context_id `mod` Z.of_nat (length (c0 :: rest)))))
      as [c ->]; [|eauto].
    pose proof (Z.mod_pos_bound context_id
                  (Z.of_nat (length (c0 :: rest)))) as Hm.
    simpl in *. lia. }
  destruct Hacq as [c Hc].
  destruct (page_session_submit_fails env business_name t
              (t0 + Z.of_N (took (new_page env))) Hgoto Hbox Hfill Hex)
    as [t1 H1].
  unfold try_except.
  rewrite (bind_returned _ _ t0 (c) t0) by (unfold lift; rewrite Hc; done).
  rewrite (bind_returned _ _ _ _ _ (await_answer _ _ _ Hpage)).
  unfold try_finally. rewrite H1. unfold await at 1.
  destruct (answer (close_page env)) as [[]|e]; cbn [outcome_of_reply];
    rewrite bind_eq; unfold time_time, get;
    eexists; reflexivity.
Qed.

(** C6 (as the code has it): a task that reaches the submit search,
    finds every candidate selector failing (no match, or counting or
    clicking raises) and whose page then closes normally returns (it
    raises nothing) a result with [success = False], the error message
    "Could not find or click the search button" and empty html, under
    the name it was given. *)
Theorem submit_failure_is_recorded
    (permits : Z) (pool : list context) (env : page_env)
    (business_name : string) (context_id : Z) :
  reaches_submit permits pool env ->
  submit_exhausted env ->
  answer (close_page env) = Answer tt ->
  exists r,
    run_task permits pool env business_name context_id = Ret r
    /\ Scraper.business_name r = business_name
    /\ success r = false
    /\ error_message r = submit_error
    /\ contains submit_error (error_message r) = true
    /\ html_content r = ""%string.
Proof.
  intros Hreach Hex Hclose. unfold run_task.
  destruct (task_submit_fails permits pool env business_name context_id
              (started_at env) Hreach Hex) as [t' ->].
  rewrite Hclose. eexists. split; [reflexivity|].
  repeat split.
Qed.

Lemma no_button_page_exhausted : submit_exhausted no_button_page.
Proof. intros selector _. reflexivity. Qed.

Lemma submit_failure_witness :
  exists r,
    run_task 5 [(0, 0)%nat] no_button_page "Union Co-op" 0 = Ret r
    /\ Scraper.business_name r = "Union Co-op"%string
    /\ success r = false
    /\ error_message r = submit_error
    /\ contains submit_error (error_message r) = true
    /\ html_content r = ""%string.
Proof.
  apply (submit_failure_is_recorded 5 [(0, 0)%nat] no_button_page).
  - split; [lia|]. repeat split. discriminate.
  - intros selector _. reflexivity.
  - reflexivity.
Defined.

(** C6 as worded fails: when closing the page raises, that error is
    the one the result carries. *)
Lemma spec_submit_failure_refuted :
  ~ spec_submit_failure 5 [(0, 0)%nat] no_button_crashing_page
      "Union Co-op" 0.
Proof.
  intros H. destruct H as (r & Hr & _ & Hmsg & _).
  - split; [lia|]. repeat split. discriminate.
  - intros selector _. reflexivity.
  - vm_compute in Hr. injection Hr as <-.
    vm_compute in Hmsg. discriminate Hmsg.
Qed.

Example no_button_crashing_run :
  run_task 5 [(0, 0)%nat] no_button_crashing_page "Union Co-op" 0
  = Ret {| Scraper.business_name := "Union Co-op";
           html_content := "";
           success := false;
           error_message := "Target closed";
           search_time := 8388955 |}.
Proof. reflexivity. Qed.

End TaskFacts.

(** ** Orchestrator *)

Section GatherFacts.
Import Scraper.

Lemma finished_lookup (children : list (outcome SearchResult)) order : forall (acc : gmap nat gathered) j,
  foldl (fun done j =>
           match children !! j ≫= settle with
           | Some g => <[j := g]> done
           | None => done
           end) acc order !! j
  = match (if decide (j ∈ order) then children !! j ≫= settle else None) with
    | Some g => Some g
    | None => acc !! j
    end.
Proof.
  induction order as [|j0 rest IH]; intros acc j; simpl.
  - destruct (decide (j ∈ [])) as [H|_]; [inversion H | reflexivity].
  - rewrite IH.
    destruct (decide (j ∈ rest)) as [Hin|Hnin].
    + destruct (decide (j ∈ j0 :: rest)) as [_|Hn];
        [|exfalso; apply Hn; right; exact Hin].
      destruct (children !! j ≫= settle) as [g|] eqn:Hj; [reflexivity|].
      destruct (children !! j0 ≫= settle) as [g0|] eqn:Hj0; [|reflexivity].
      rewrite lookup_insert_ne; [reflexivity|]. congruence.
    + destruct (decide (j = j0)) as [->|Hne].
      * destruct (decide (j0 ∈ j0 :: rest)) as [_|Hn];
          [|exfalso; apply Hn; left].
        destruct (children !! j0 ≫= settle) as [g0|] eqn:Hj0; [|reflexivity].
        rewrite lookup_insert_eq. reflexivity.
      * destruct (decide (j ∈ j0 :: rest)) as [Hin|_].
        { inversion Hin; subst; contradiction. }
        destruct (children !! j0 ≫= settle) as [g0|] eqn:Hj0; [|reflexivity].
        rewrite lookup_insert_ne by congruence. reflexivity.
Qed.

Lemma finished_Some (children : list (outcome SearchResult)) order j g :
  finished children order !! j = Some g ->
  children !! j ≫= settle = Some g.
Proof.
  unfold finished. rewrite finished_lookup, lookup_empty.
  destruct (decide (j ∈ order)); [|discriminate].
  destruct (children !! j ≫= settle); [auto | discriminate].
Qed.

(** What [gather] resolves to: one result per child, in the order of
    the children, each the settled outcome of its child. *)
Lemma gather_results children order gs :
  gather children order = Ret gs ->
  Forall2 (fun o g => settle o = Some g) children gs.
Proof.
  unfold gather.
  destruct (mapM _ _) as [gs'|] eqn:Hm; [|discriminate].
  intros [= ->]. apply mapM_Some_1 in Hm.
  pose proof (Forall2_length _ _ _ Hm) as Hlen. rewrite length_seq in Hlen.
  apply Forall2_same_length_lookup_2; [exact Hlen|].
  intros j o g Ho Hg.
  assert (Hs : seq 0 (length children) !! j = Some j).
  { apply lookup_seq. split; [reflexivity|].
    apply lookup_lt_Some in Ho. exact Ho. }
  pose proof (Forall2_lookup_lr _ _ _ _ _ _ Hm Hs Hg) as Hf. simpl in Hf.
  apply finished_Some in Hf. rewrite Ho in Hf. exact Hf.
Qed.

(** [gather] resolves as soon as every child completes. *)
Lemma gather_resolves children order :
  (forall j, (j < length children)%nat -> j ∈ order) ->
  (forall j o, children !! j = Some o -> o <> Pending) ->
  exists gs, gather children order = Ret gs.
Proof.
  intros Hall Hsettle. unfold gather.
  destruct (mapM_is_Some_2
              (fun j => finished children order !! j)
              (seq 0 (length children))) as [gs ->]; [|eauto].
  apply Forall_forall. intros j Hj.
  apply elem_of_seq in Hj. simpl.
  unfold finished. rewrite finished_lookup.
  destruct (decide (j ∈ order)) as [_|Hn]; [|exfalso; apply Hn, Hall; lia].
  destruct (lookup_lt_is_Some_2 children j) as [o Ho]; [lia|].
  rewrite Ho. simpl. specialize (Hsettle j o Ho).
  destruct o; simpl; eauto. contradiction.
Qed.

End GatherFacts.

Section OrchestratorFacts.
Import Scraper.

Lemma search_multiple_businesses_eq coroutine order business_names s :
  search_multiple_businesses coroutine order business_names s
  = match make_tasks (coroutine (max_concurrent s) (context_pool s))
            (context_pool s) business_names with
    | Ret tasks =>
        match gather tasks order with
        | Ret results =>
            (Ret (collect business_names results),
             logged (Dispatched business_names) s)
        | Raise e => (Raise e, logged (Dispatched business_names) s)
        | Pending => (Pending, logged (Dispatched business_names) s)
        end
    | Raise e => (Raise e, logged (Dispatched business_names) s)
    | Pending => (Pending, logged (Dispatched business_names) s)
    end.
Proof.
  unfold search_multiple_businesses, bind, modify, get, lift, ret. simpl.
  destruct (make_tasks _ _ _) as [tasks|e|]; reflexivity.
Qed.

Lemma make_tasks_Ret coroutine pool business_names tasks :
  make_tasks coroutine pool business_names = Ret tasks ->
  tasks = imap (fun i business_name =>
                  coroutine i business_name
                    (Z.of_nat i `mod` Z.of_nat (length pool)))
               business_names.
Proof.
  unfold make_tasks.
  destruct business_names, pool; intros [= <-]; reflexivity.
Qed.

Lemma make_tasks_nonempty_pool coroutine pool business_names :
  pool <> [] ->
  make_tasks coroutine pool business_names
  = Ret (imap (fun i business_name =>
                 coroutine i business_name
                   (Z.of_nat i `mod` Z.of_nat (length pool)))
              business_names).
Proof.
  intros Hne. unfold make_tasks.
  destruct business_names, pool; try reflexivity. contradiction.
Qed.

(** C9: when the task at position [i] lets an exception [e] out, so
    that [gather] delivers the exception in place of a result, the
    outcome built for that position carries the [i]-th name, empty
    html, [success = False], the text of [e], and the default
    [search_time] of the dataclass, 0: no elapsed time is recorded. *)
Theorem gathered_exception_becomes_default_timed_failure
    (coroutine : Z -> list context -> nat -> string -> Z
                 -> outcome SearchResult)
    (order : list nat) (business_names : list string) (s s' : state)
    (outs : list SearchResult) (i : nat) (name : string) (e : exn) :
  search_multiple_businesses coroutine order business_names s
    = (Ret outs, s') ->
  business_names !! i = Some name ->
  coroutine (max_concurrent s) (context_pool s) i name
    (Z.of_nat i `mod` Z.of_nat (length (context_pool s))) = Raise e ->
  outs !! i = Some {| business_name := name;
                      html_content := "";
                      success := false;
                      error_message := e;
                      search_time := 0 |}.
Proof.
  intros Hrun Hname Hraise. rewrite search_multiple_businesses_eq in Hrun.
  destruct (make_tasks _ _ _) as [tasks|e0|] eqn:Htasks; try discriminate.
  destruct (gather tasks order) as [results|e0|] eqn:Hg; try discriminate.
  injection Hrun as <- _.
  apply make_tasks_Ret in Htasks.
  apply gather_results in Hg.
  assert (Hchild : tasks !! i = Some (Raise e)).
  { rewrite Htasks, list_lookup_imap, Hname. simpl. rewrite Hraise. done. }
  destruct (Forall2_lookup_l _ _ _ _ _ Hg Hchild) as (g & Hgi & Hset).
  simpl in Hset. injection Hset as <-.
  unfold collect. rewrite lookup_zip_with, Hname, Hgi. reflexivity.
Qed.

Lemma gathered_exception_witness :
  exists outs,
    (search_multiple_businesses second_task_raises [1; 0]%nat
       ["Union Co-op"; "Concordia Club"]%string
       (start healthy (fresh 3 3)).2).1 = Ret outs
    /\ outs !! 1%nat
       = Some {| business_name := "Concordia Club";
                 html_content := "";
                 success := false;
                 error_message := "boom";
                 search_time := 0 |}.
Proof.
  eexists. split; [reflexivity|].
  apply (gathered_exception_becomes_default_timed_failure
           second_task_raises [1; 0]%nat
           ["Union Co-op"; "Concordia Club"]%string
           (start healthy (fresh 3 3)).2
           (logged (Dispatched ["Union Co-op"; "Concordia Club"]%string)
              (start healthy (fresh 3 3)).2)
           _ 1%nat "Concordia Club"%string "boom"%string).
  - reflexivity.
  - reflexivity.
  - reflexivity.
Defined.

(** One batch: with a non-empty pool, every task completing and tasks
    that return a result under the name they were given, the batch
    yields one result per name, in the order of the names: at each
    position, what the task of that position returned. *)
Lemma search_multiple_businesses_ok coroutine order business_names s :
  context_pool s <> [] ->
  (forall j, (j < length business_names)%nat -> j ∈ order) ->
  (forall j name context_id,
      exists r, coroutine (max_concurrent s) (context_pool s) j name
                  context_id = Ret r
                /\ business_name r = name) ->
  exists outs,
    search_multiple_businesses coroutine order business_names s
    = (Ret outs, logged (Dispatched business_names) s)
    /\ business_name <$> outs = business_names
    /\ forall j name,
         business_names !! j = Some name ->
         exists r,
           outs !! j = Some r
           /\ coroutine (max_concurrent s) (context_pool s) j name
                (Z.of_nat j `mod` Z.of_nat (length (context_pool s)))
              = Ret r.
Proof.
  intros Hpool Hall Hco. rewrite search_multiple_businesses_eq.
  rewrite make_tasks_nonempty_pool by exact Hpool.
  set (tasks := imap _ business_names).
  assert (Hchild : forall j o, tasks !! j = Some o ->
            exists name r, business_names !! j = Some name
                           /\ o = Ret r /\ business_name r = name
                           /\ coroutine (max_concurrent s) (context_pool s)
                                j name
                                (Z.of_nat j
                                 `mod` Z.of_nat (length (context_pool s)))
                              = Ret r).
  { intros j o Ho. subst tasks. rewrite list_lookup_imap in Ho.
    destruct (business_names !! j) as [name|]; [|discriminate].
    simpl in Ho. injection Ho as <-.
    destruct (Hco j name
                (Z.of_nat j `mod` Z.of_nat (length (context_pool s))))
      as (r & Hr & Hn).
    exists name, r. repeat split; assumption. }
  destruct (gather_resolves tasks order) as [gs Hg].
  { subst tasks. rewrite length_imap. exact Hall. }
  { intros j o Ho. destruct (Hchild j o Ho) as (? & ? & _ & -> & _).
    discriminate. }
  rewrite Hg. eexists. split; [reflexivity|].
  apply gather_results in Hg.
  pose proof (Forall2_length _ _ _ Hg) as Hlen.
  assert (Hat : forall j name, business_names !! j = Some name ->
            exists r, collect business_names gs !! j = Some r
                      /\ business_name r = name
                      /\ coroutine (max_concurrent s) (context_pool s)
                           j name
                           (Z.of_nat j
                            `mod` Z.of_nat (length (context_pool s)))
                         = Ret r).
  { intros j name Hname.
    destruct (lookup_lt_is_Some_2 tasks j) as [o Ho].
    { subst tasks. rewrite length_imap. apply lookup_lt_Some in Hname.
      exact Hname. }
    destruct (Hchild j o Ho) as (name' & r & Hname' & -> & Hr & Hco').
    rewrite Hname in Hname'. injection Hname' as <-.
    destruct (Forall2_lookup_l _ _ _ _ _ Hg Ho) as (g & Hgj & Hset).
    simpl in Hset. injection Hset as <-.
    exists r. split; [|split; assumption].
    unfold collect. rewrite lookup_zip_with, Hname, Hgj. reflexivity. }
  split.
  - apply list_eq. intros j. rewrite list_lookup_fmap.
    destruct (business_names !! j) as [name|] eqn:Hname.
    + destruct (Hat j name Hname) as (r & -> & Hr & _). simpl.
      rewrite Hr. reflexivity.
    + unfold collect. rewrite lookup_zip_with, Hname. reflexivity.
  - intros j name Hname. destruct (Hat j name Hname) as (r & Hr & _ & Hco').
    eauto.
Qed.

(** *** Batches *)

Lemma batch_count_spec (n : nat) (batch_size : Z) :
  0 < batch_size ->
  Z.of_nat n <= Z.of_nat (batch_count n batch_size) * batch_size
  /\ forall k : nat,
       (k < batch_count n batch_size)%nat
       <-> Z.of_nat k * batch_size < Z.of_nat n.
Proof.
  intros Hpos. unfold batch_count.
  set (q := (Z.of_nat n + batch_size - 1) / batch_size).
  assert (Hlo : batch_size * q <= Z.of_nat n + batch_size - 1)
    by (apply Z.mul_div_le; lia).
  assert (Hhi : Z.of_nat n + batch_size - 1 < batch_size * Z.succ q)
    by (apply Z.mul_succ_div_gt; lia).
  assert (Hq : 0 <= q) by (apply Z.div_pos; lia).
  rewrite Z2Nat.id by exact Hq.
  split; [nia|].
  intros k. split; intros H.
  - assert (Z.of_nat k < q) by lia. nia.
  - assert (Z.of_nat k < q) by nia. lia.
Qed.

Lemma slice_nonneg {A} (l : list A) (lo hi : Z) :
  0 <= lo -> lo <= hi ->
  slice l lo hi = take (Z.to_nat (hi - lo)) (drop (Z.to_nat lo) l).
Proof.
  intros Hlo Hhi. unfold slice, slice_index.
  destruct (lo <? 0) eqn:E1; [apply Z.ltb_lt in E1; lia|].
  destruct (hi <? 0) eqn:E2; [apply Z.ltb_lt in E2; lia|].
  destruct (decide (Z.of_nat (length l) <= lo)) as [Hge|Hlt].
  - rewrite !drop_ge by lia. rewrite !take_nil. reflexivity.
  - rewrite (Z.min_l lo) by lia.
    destruct (decide (hi <= Z.of_nat (length l))) as [Hin|Hout].
    + rewrite (Z.min_l hi) by lia. reflexivity.
    + rewrite (Z.min_r hi) by lia.
      rewrite !take_ge; [reflexivity| |]; rewrite length_drop; lia.
Qed.

Lemma slice_is_batch business_names batch_size (b : nat) :
  0 < batch_size ->
  slice business_names (0 + Z.of_nat b * batch_size)
        (0 + Z.of_nat b * batch_size + batch_size)
  = batch_at business_names batch_size b.
Proof.
  intros Hpos. rewrite slice_nonneg by nia. unfold batch_at.
  f_equal; [f_equal; lia|]. f_equal. nia.
Qed.

Lemma batch_then_rest business_names batch_size (b : nat) :
  batch_at business_names batch_size b
    ++ drop (S b * Z.to_nat batch_size) business_names
  = drop (b * Z.to_nat batch_size) business_names.
Proof.
  unfold batch_at.
  rewrite <- (take_drop (Z.to_nat batch_size)
                (drop (b * Z.to_nat batch_size) business_names)) at 2.
  rewrite drop_drop. f_equal. f_equal. lia.
Qed.

Lemma nothing_after_last_batch (business_names : list string) batch_size :
  0 < batch_size ->
  drop (batch_count (length business_names) batch_size
        * Z.to_nat batch_size) business_names = [].
Proof.
  intros Hpos. apply drop_ge.
  destruct (batch_count_spec (length business_names) batch_size Hpos)
    as [Hn _].
  nia.
Qed.

Lemma pause_iff_not_last (business_names : list string) batch_size (b : nat) :
  0 < batch_size ->
  (0 + Z.of_nat b * batch_size + batch_size
     <? Z.of_nat (length business_names))
  = (S b <? batch_count (length business_names) batch_size)%nat.
Proof.
  intros Hpos.
  destruct (batch_count_spec (length business_names) batch_size Hpos)
    as [_ Hk].
  specialize (Hk (S b)).
  destruct (S b <? _)%nat eqn:E.
  - apply Nat.ltb_lt in E. apply Z.ltb_lt. apply Hk in E. lia.
  - apply Nat.ltb_ge in E. apply Z.ltb_ge.
    destruct (decide (Z.of_nat (S b) * batch_size
                      < Z.of_nat (length business_names))) as [H|H];
      [apply Hk in H|]; lia.
Qed.

Lemma logged_all_nil s : logged_all [] s = s.
Proof. destruct s. unfold logged_all. simpl. rewrite app_nil_r. done. Qed.

Lemma logged_all_logged_all evs evs' s :
  logged_all evs' (logged_all evs s) = logged_all (evs ++ evs') s.
Proof. unfold logged_all. simpl. rewrite app_assoc. done. Qed.

Lemma journal_of_cons business_names batch_size b0 m :
  journal_of business_names batch_size b0 (S m)
  = Dispatched (batch_at business_names batch_size b0)
    :: (if (S b0 <? batch_count (length business_names) batch_size)%nat
        then [Paused inter_batch_pause] else [])
    ++ journal_of business_names batch_size (S b0) m.
Proof. reflexivity. Qed.

Lemma batch_loop_cons site completion business_names batch_size i rest acc :
  batch_loop site completion business_names batch_size (i :: rest) acc
  = (let* batch_results :=
       search_multiple_businesses
         (fun permits pool j =>
            run_task permits pool (site (Z.to_nat i + j)%nat))
         (completion (Z.to_nat (i / batch_size)))
         (slice business_names i (i + batch_size)) in
     (if i + batch_size <? Z.of_nat (length business_names)
      then modify (logged (Paused inter_batch_pause))
      else ret tt) >>
     batch_loop site completion business_names batch_size rest
       (acc ++ batch_results)).
Proof. reflexivity. Qed.

Lemma batch_at_length business_names batch_size (b : nat) :
  (length (batch_at business_names batch_size b) <= Z.to_nat batch_size)%nat
  /\ (drop (S b * Z.to_nat batch_size) business_names <> [] ->
      length (batch_at business_names batch_size b) = Z.to_nat batch_size).
Proof.
  unfold batch_at. rewrite length_take, length_drop. split; [lia|].
  intros Hne.
  assert (S b * Z.to_nat batch_size < length business_names)%nat; [|lia].
  destruct (decide (S b * Z.to_nat batch_size < length business_names)%nat)
    as [H|H]; [exact H|].
  exfalso. apply Hne. apply drop_ge. lia.
Qed.

(** The loop over the batches [b0 .. b0+m-1], the last ones: one
    result per name that is left, each what its task returned. *)
Lemma batch_loop_run site completion business_names batch_size :
  0 < batch_size ->
  every_task_completes completion business_names batch_size ->
  forall m b0 acc s,
    (b0 + m = batch_count (length business_names) batch_size)%nat ->
    context_pool s <> [] ->
    0 < max_concurrent s ->
    exists outs,
      batch_loop site completion business_names batch_size
        ((fun k : nat => 0 + Z.of_nat k * batch_size) <$> seq b0 m) acc s
      = (Ret (acc ++ outs),
         logged_all (journal_of business_names batch_size b0 m) s)
      /\ business_name <$> outs
         = drop (b0 * Z.to_nat batch_size) business_names
      /\ forall j name,
           drop (b0 * Z.to_nat batch_size) business_names !! j = Some name ->
           exists r,
             outs !! j = Some r
             /\ run_task (max_concurrent s) (context_pool s)
                  (site (b0 * Z.to_nat batch_size + j)%nat) name
                  (hint_of (context_pool s) (j mod Z.to_nat batch_size))
                = Ret r.
Proof.
  intros Hpos Hdone.
  induction m as [|m IH]; intros b0 acc s Hb Hpool Hpermits.
  - exists []. simpl. rewrite app_nil_r.
    change (journal_of business_names batch_size b0 0) with (@nil event).
    rewrite logged_all_nil. split; [reflexivity|].
    replace b0 with (batch_count (length business_names) batch_size) by lia.
    rewrite nothing_after_last_batch by exact Hpos.
    split; [reflexivity|]. intros j name Hj. discriminate Hj.
  - cbn [seq fmap list_fmap]. rewrite batch_loop_cons.
    rewrite slice_is_batch by exact Hpos.
    destruct (search_multiple_businesses_ok
                (fun permits pool j =>
                   run_task permits pool
                     (site (Z.to_nat (0 + Z.of_nat b0 * batch_size) + j)%nat))
                (completion
                   (Z.to_nat ((0 + Z.of_nat b0 * batch_size) / batch_size)))
                (batch_at business_names batch_size b0) s Hpool)
      as (outs1 & Hrun & Hnames & Hvalues).
    { intros j Hj. rewrite Z.add_0_l, Z.div_mul by lia.
      rewrite Nat2Z.id. apply Hdone. exact Hj. }
    { intros j name context_id. apply run_task_returns. exact Hpermits. }
    rewrite (bind_returned _ _ _ _ _ Hrun).
    rewrite pause_iff_not_last by exact Hpos.
    destruct (IH (S b0) (acc ++ outs1)
                (logged_all
                   (if (S b0 <? batch_count (length business_names)
                                  batch_size)%nat
                    then [Paused inter_batch_pause] else [])
                   (logged (Dispatched
                              (batch_at business_names batch_size b0)) s)))
      as (outs2 & Hrest & Hnames2 & Hvalues2);
      [lia | exact Hpool | exact Hpermits |].
    cbn [max_concurrent context_pool logged_all logged] in Hvalues2.
    exists (outs1 ++ outs2). split; [|split].
    + rewrite bind_eq.
      assert (Hstate :
        logged_all (journal_of business_names batch_size (S b0) m)
          (logged_all
             (if (S b0 <? batch_count (length business_names)
                            batch_size)%nat
              then [Paused inter_batch_pause] else [])
             (logged (Dispatched (batch_at business_names batch_size b0)) s))
        = logged_all (journal_of business_names batch_size b0 (S m)) s).
      { change (logged (Dispatched ?b) s) with (logged_all [Dispatched b] s).
        rewrite !logged_all_logged_all, journal_of_cons. reflexivity. }
      rewrite Hstate in Hrest. rewrite <- app_assoc in Hrest.
      destruct (S b0 <? _)%nat.
      * unfold modify. cbv beta iota. exact Hrest.
      * unfold ret at 1. cbv beta iota.
        rewrite logged_all_nil in Hrest. exact Hrest.
    + rewrite fmap_app, Hnames, Hnames2. apply batch_then_rest.
    + intros j name Hj.
      rewrite <- batch_then_rest in Hj.
      assert (Hlen1 : length outs1
                      = length (batch_at business_names batch_size b0))
        by (rewrite <- Hnames, length_fmap; reflexivity).
      destruct (batch_at_length business_names batch_size b0)
        as [Hshort Hfull].
      destruct (decide (j < length (batch_at business_names batch_size b0))%nat)
        as [Hin|Hout].
      * rewrite lookup_app_l in Hj by exact Hin.
        destruct (Hvalues j name Hj) as (r & Hr & Hco).
        exists r. split; [rewrite lookup_app_l by lia; exact Hr|].
        unfold hint_of. rewrite Nat.mod_small by lia.
        replace (b0 * Z.to_nat batch_size + j)%nat
          with (Z.to_nat (0 + Z.of_nat b0 * batch_size) + j)%nat by lia.
        exact Hco.
      * rewrite lookup_app_r in Hj by lia.
        assert (Hne : drop (S b0 * Z.to_nat batch_size) business_names <> []).
        { intros Hnil. rewrite Hnil in Hj. discriminate Hj. }
        specialize (Hfull Hne).
        destruct (Hvalues2 _ _ Hj) as (r & Hr & Hco).
        exists r. split; [rewrite lookup_app_r by lia; rewrite Hlen1; exact Hr|].
        rewrite Hfull in Hco.
        replace (b0 * Z.to_nat batch_size + j)%nat
          with (S b0 * Z.to_nat batch_size + (j - Z.to_nat batch_size))%nat
          by lia.
        replace (j mod Z.to_nat batch_size)%nat
          with ((j - Z.to_nat batch_size) mod Z.to_nat batch_size)%nat;
          [exact Hco|].
        replace j with ((j - Z.to_nat batch_size)
                        + 1 * Z.to_nat batch_size)%nat at 2 by lia.
        rewrite Nat.Div0.mod_add. reflexivity.
Qed.

(** *** The whole pipeline *)

Lemma for_each_invariant {S A} (P : S -> Prop) (body : A -> M S unit) :
  (forall x s, P s -> exists s', body x s = (Ret tt, s') /\ P s') ->
  forall l s, P s -> exists s', for_each l body s = (Ret tt, s') /\ P s'.
Proof.
  intros Hbody. induction l as [|x l IH]; intros s Hs; simpl.
  - exists s. split; [reflexivity | exact Hs].
  - destruct (Hbody x s Hs) as (s1 & H1 & Hs1).
    rewrite (bind_returned _ _ _ _ _ H1). apply IH. exact Hs1.
Qed.

(** [close] swallows what closing a context or a browser raises; it
    leaves the journal alone. *)
Lemma close_returns env s :
  pw_stop env = Answer tt ->
  exists s', close env s = (Ret tt, s') /\ journal s' = journal s.
Proof.
  intros Hstop. unfold close. rewrite bind_eq. unfold get at 1.
  destruct (for_each_invariant (fun s' => journal s' = journal s)
              (fun c => try_except
                 (call (context_close env c) >> modify (context_closed c))
                 (fun _ => ret tt))) with (l := context_pool s) (s := s)
    as (s1 & H1 & Hj1); [|reflexivity|].
  { intros c s0 Hs0.
    unfold try_except, bind, call, lift, modify, ret.
    destruct (context_close env c); simpl; eauto. }
  rewrite (bind_returned _ _ _ _ _ H1).
  destruct (for_each_invariant (fun s' => journal s' = journal s)
              (fun b => try_except
                 (call (browser_close env b) >> modify (browser_closed b))
                 (fun _ => ret tt))) with (l := browser_pool s) (s := s1)
    as (s2 & H2 & Hj2); [|exact Hj1|].
  { intros b s0 Hs0.
    unfold try_except, bind, call, lift, modify, ret.
    destruct (browser_close env b); simpl; eauto. }
  rewrite (bind_returned _ _ _ _ _ H2).
  destruct (playwright s).
  - unfold bind, call, lift, modify. rewrite Hstop. simpl.
    eexists. split; [reflexivity | exact Hj2].
  - eexists. split; [reflexivity | exact Hj2].
Qed.

Lemma pool_layout_nonempty n c :
  (0 < n)%nat -> (0 < c)%nat -> pool_layout 0 n c <> [].
Proof.
  intros Hn Hc. destruct n as [|n]; [lia|]. destruct c as [|c]; [lia|].
  rewrite pool_layout_cons. discriminate.
Qed.

(** With Playwright serving, [start] fills the pool. *)
Lemma start_serves env batch_size :
  pool_serves env ->
  exists s, start env (fresh batch_size BROWSER_POOL_SIZE) = (Ret tt, s)
            /\ context_pool s <> [] /\ journal s = [].
Proof.
  intros (Hpw & Hlaunch & Hctx & _).
  assert (Hrun : start env (fresh batch_size BROWSER_POOL_SIZE)
                 = for_each (seq 0 3) (start_browser env)
                     (driver_started (fresh batch_size BROWSER_POOL_SIZE))).
  { unfold start, bind, call, lift, modify, get. rewrite Hpw. reflexivity. }
  rewrite Hrun.
  destruct (browsers_launched env
              (Z.to_nat (Z.max 1 (batch_size / BROWSER_POOL_SIZE)))
              3 3 0 (driver_started (fresh batch_size BROWSER_POOL_SIZE)))
    as [-> | (Hlt & _)]; [reflexivity | lia | auto | | lia].
  eexists. split; [reflexivity|]. split; [|reflexivity].
  simpl. apply pool_layout_nonempty; lia.
Qed.

Lemma range3_batches (n : nat) (batch_size : Z) :
  0 < batch_size ->
  range3 0 (Z.of_nat n) batch_size
  = Ret ((fun k : nat => 0 + Z.of_nat k * batch_size)
           <$> seq 0 (batch_count n batch_size)).
Proof.
  intros Hpos. unfold range3, batch_count.
  destruct (batch_size =? 0) eqn:E0; [apply Z.eqb_eq in E0; lia|].
  destruct (0 <? batch_size) eqn:E1; [|apply Z.ltb_ge in E1; lia].
  rewrite Z.sub_0_r. reflexivity.
Qed.

Lemma pool_layout_length : forall k i0 c,
  length (pool_layout i0 k c) = (k * c)%nat.
Proof.
  induction k as [|k IH]; intros i0 c; [reflexivity|].
  rewrite pool_layout_cons, length_app, IH.
  unfold pool_layout. simpl. rewrite app_nil_r, length_fmap, length_seq. lia.
Qed.

Lemma start_state env batch_size :
  pw_start env = Answer tt ->
  (forall i, launch env i = Answer tt) ->
  (forall i j, new_context env i j = Answer tt) ->
  start env (fresh batch_size BROWSER_POOL_SIZE)
  = (Ret tt, started_pool batch_size).
Proof.
  intros Hpw Hlaunch Hctx.
  assert (Hrun : start env (fresh batch_size BROWSER_POOL_SIZE)
                 = for_each (seq 0 3) (start_browser env)
                     (driver_started (fresh batch_size BROWSER_POOL_SIZE))).
  { unfold start, bind, call, lift, modify, get. rewrite Hpw. reflexivity. }
  rewrite Hrun.
  destruct (browsers_launched env
              (Z.to_nat (Z.max 1 (batch_size / BROWSER_POOL_SIZE)))
              3 3 0 (driver_started (fresh batch_size BROWSER_POOL_SIZE)))
    as [-> | (Hlt & _)]; [reflexivity | lia | auto | | lia].
  reflexivity.
Qed.

(** The pipeline up to the final [close]: one result per name, each
    what the task of its name returned. *)
Lemma pipeline_steps env site completion business_names batch_size :
  0 < batch_size ->
  pw_start env = Answer tt ->
  (forall i, launch env i = Answer tt) ->
  (forall i j, new_context env i j = Answer tt) ->
  every_task_completes completion business_names batch_size ->
  exists outs,
    business_name <$> outs = business_names
    /\ (forall k name,
          business_names !! k = Some name ->
          exists r, outs !! k = Some r
                    /\ task_of site batch_size k name = Ret r)
    /\ batch_search_businesses env site completion business_names batch_size
       = match close env
                 (logged_all
                    (journal_of business_names batch_size 0
                       (batch_count (length business_names) batch_size))
                    (started_pool batch_size)) with
         | (Ret _, s3) => (Ret outs, s3)
         | (Raise e, s3) => (Raise e, s3)
         | (Pending, s3) => (Pending, s3)
         end.
Proof.
  intros Hpos Hpw Hlaunch Hctx Hdone. unfold batch_search_businesses.
  destruct (batch_size <? 0) eqn:Eneg; [apply Z.ltb_lt in Eneg; lia|].
  unfold async_with.
  rewrite (bind_returned _ _ _ _ _ (start_state env batch_size Hpw Hlaunch Hctx)).
  unfold try_finally.
  rewrite bind_eq. unfold lift at 1.
  rewrite range3_batches by exact Hpos.
  destruct (batch_loop_run site completion business_names batch_size
              Hpos Hdone
              (batch_count (length business_names) batch_size) 0%nat []
              (started_pool batch_size))
    as (outs & Hloop & Hnames & Hvalues); [lia | | exact Hpos |].
  { unfold started_pool. simpl. apply pool_layout_nonempty; lia. }
  rewrite Hloop. exists outs. split; [rewrite Hnames; reflexivity|].
  split; [|reflexivity].
  intros k name Hk. destruct (Hvalues k name Hk) as (r & Hr & Hco).
  exists r. split; [exact Hr | exact Hco].
Qed.

(** The pipeline on a serving Playwright with every task completing:
    it returns one result per name, in order, and its journal is that
    of the batches. *)
Lemma pipeline_run env site completion business_names batch_size :
  0 < batch_size ->
  pool_serves env ->
  every_task_completes completion business_names batch_size ->
  exists outs s,
    batch_search_businesses env site completion business_names batch_size
    = (Ret outs, s)
    /\ business_name <$> outs = business_names
    /\ (forall k name,
          business_names !! k = Some name ->
          exists r, outs !! k = Some r
                    /\ task_of site batch_size k name = Ret r)
    /\ journal s
       = journal_of business_names batch_size 0
           (batch_count (length business_names) batch_size).
Proof.
  intros Hpos (Hpw & Hlaunch & Hctx & Hstop) Hdone.
  destruct (pipeline_steps env site completion business_names batch_size
              Hpos Hpw Hlaunch Hctx Hdone) as (outs & Hnames & Hvalues & ->).
  destruct (close_returns env
              (logged_all
                 (journal_of business_names batch_size 0
                    (batch_count (length business_names) batch_size))
                 (started_pool batch_size))
              Hstop) as (s3 & -> & Hj3).
  exists outs, s3. split; [reflexivity|]. split; [exact Hnames|].
  split; [exact Hvalues|]. rewrite Hj3. reflexivity.
Qed.


Lemma last_first_completes :
  every_task_completes last_first seven_names 3.
Proof.
  intros b j Hj. unfold batch_at in Hj. rewrite length_take in Hj.
  unfold last_first.
  destruct j as [|[|[|j]]]; [set_solver | set_solver | set_solver |].
  change (Z.to_nat 3) with 3%nat in Hj. lia.
Qed.


Example mixed_site_run :
  (fun r => (business_name r, success r, error_message r))
    <$> match (batch_search_businesses healthy mixed_site last_first
                 seven_names 3).1 with
        | Ret outs => outs
        | _ => []
        end
  = [ ("MTD Products Limited", true, "");
      ("Union Co-op", false, submit_error);
      ("Concordia Club", true, "");
      ("Grand River Hospital", false, submit_error);
      ("University of Waterloo", true, "");
      ("Kitchener Market", false, submit_error);
      ("THEMUSEUM", true, "") ]%string.
Proof. reflexivity. Qed.

(** *** The journal of a run *)

Lemma dispatched_journal_of business_names batch_size : forall m b0,
  dispatched (journal_of business_names batch_size b0 m)
  = batch_at business_names batch_size <$> seq b0 m.
Proof.
  induction m as [|m IH]; intros b0; [reflexivity|].
  rewrite journal_of_cons. cbn [seq fmap list_fmap].
  rewrite <- IH.
  destruct (S b0 <? _)%nat; reflexivity.
Qed.

Lemma pauses_journal_of business_names batch_size : forall m b0,
  (b0 + m = batch_count (length business_names) batch_size)%nat ->
  pauses (journal_of business_names batch_size b0 m) = (m - 1)%nat.
Proof.
  induction m as [|m IH]; intros b0 Hb; [reflexivity|].
  rewrite journal_of_cons.
  destruct (S b0 <? _)%nat eqn:E.
  - apply Nat.ltb_lt in E. simpl. rewrite IH by lia. lia.
  - apply Nat.ltb_ge in E. assert (m = 0)%nat as -> by lia. reflexivity.
Qed.

Lemma well_paced_journal_of business_names batch_size : forall m b0,
  (b0 + m = batch_count (length business_names) batch_size)%nat ->
  well_paced (journal_of business_names batch_size b0 m) = true.
Proof.
  induction m as [|m IH]; intros b0 Hb; [reflexivity|].
  rewrite journal_of_cons.
  destruct (S b0 <? _)%nat eqn:E.
  - apply Nat.ltb_lt in E. destruct m as [|m]; [lia|].
    specialize (IH (S b0) ltac:(lia)).
    rewrite journal_of_cons in IH |- *. simpl. exact IH.
  - apply Nat.ltb_ge in E. assert (m = 0)%nat as -> by lia. reflexivity.
Qed.

Lemma concat_batches business_names batch_size :
  0 < batch_size ->
  forall m b0,
    (b0 + m = batch_count (length business_names) batch_size)%nat ->
    concat (batch_at business_names batch_size <$> seq b0 m)
    = drop (b0 * Z.to_nat batch_size) business_names.
Proof.
  intros Hpos. induction m as [|m IH]; intros b0 Hb.
  - simpl. replace b0 with (batch_count (length business_names) batch_size)
      by lia.
    rewrite nothing_after_last_batch by exact Hpos. reflexivity.
  - cbn [seq fmap list_fmap concat]. rewrite IH by lia.
    apply batch_then_rest.
Qed.

Lemma batch_length business_names batch_size (b : nat) :
  0 < batch_size ->
  (b < batch_count (length business_names) batch_size)%nat ->
  (0 < length (batch_at business_names batch_size b)
     <= Z.to_nat batch_size)%nat
  /\ ((S b < batch_count (length business_names) batch_size)%nat ->
      length (batch_at business_names batch_size b) = Z.to_nat batch_size).
Proof.
  intros Hpos Hb. unfold batch_at. rewrite length_take, length_drop.
  destruct (batch_count_spec (length business_names) batch_size Hpos)
    as [_ Hk].
  pose proof (proj1 (Hk b) Hb) as Hin.
  assert (Hbn : (b * Z.to_nat batch_size < length business_names)%nat) by nia.
  split; [lia|].
  intros Hnext. pose proof (proj1 (Hk (S b)) Hnext) as Hin'.
  assert ((S b * Z.to_nat batch_size < length business_names)%nat) by nia.
  lia.
Qed.

(** C7: with a positive batch size, Playwright serving and every task
    completing, the batches dispatched are contiguous pieces of the
    input, in order; there are [ceil(N / batch_size)] of them; each has
    between 1 and [batch_size] names and all but the last have exactly
    [batch_size]; the pauses number one less than the batches; and
    batches and 2-second pauses alternate, a batch first and a batch
    last. *)
Theorem batches_are_contiguous_and_paced
    (env : browser_env) (site : nat -> page_env)
    (completion : nat -> list nat) (business_names : list string)
    (batch_size : Z) :
  0 < batch_size ->
  pool_serves env ->
  every_task_completes completion business_names batch_size ->
  let j := journal (batch_search_businesses env site completion
                      business_names batch_size).2 in
  concat (dispatched j) = business_names
  /\ length (dispatched j) = batch_count (length business_names) batch_size
  /\ Forall (fun batch => (0 < length batch <= Z.to_nat batch_size)%nat)
            (dispatched j)
  /\ Forall (fun batch => length batch = Z.to_nat batch_size)
            (take (length (dispatched j) - 1) (dispatched j))
  /\ pauses j = (length (dispatched j) - 1)%nat
  /\ well_paced j = true.
Proof.
  intros Hpos Hserves Hdone j. subst j.
  destruct (pipeline_run env site completion business_names batch_size
              Hpos Hserves Hdone) as (outs & s & -> & _ & _ & Hj).
  cbn [snd]. rewrite Hj. clear Hj.
  rewrite dispatched_journal_of, length_fmap, length_seq.
  set (B := batch_count (length business_names) batch_size).
  split; [rewrite (concat_batches _ _ Hpos) by reflexivity; reflexivity|].
  split; [reflexivity|].
  split.
  { apply Forall_fmap, Forall_forall. intros b Hb.
    apply elem_of_seq in Hb. simpl.
    apply batch_length; [exact Hpos | lia]. }
  split.
  { rewrite <- fmap_take, take_seq.
    apply Forall_fmap, Forall_forall. intros b Hb.
    apply elem_of_seq in Hb. simpl.
    apply batch_length; [exact Hpos | lia | lia]. }
  split; [apply pauses_journal_of | apply well_paced_journal_of];
    reflexivity.
Qed.

Lemma batches_witness :
  let j := journal (batch_search_businesses healthy mixed_site last_first
                      seven_names 3).2 in
  concat (dispatched j) = seven_names
  /\ length (dispatched j) = batch_count (length seven_names) 3
  /\ Forall (fun batch => (0 < length batch <= Z.to_nat 3)%nat)
            (dispatched j)
  /\ Forall (fun batch => length batch = Z.to_nat 3)
            (take (length (dispatched j) - 1) (dispatched j))
  /\ pauses j = (length (dispatched j) - 1)%nat
  /\ well_paced j = true.
Proof.
  apply (batches_are_contiguous_and_paced
           healthy mixed_site last_first seven_names 3).
  - lia.
  - repeat split.
  - exact last_first_completes.
Defined.

(** The scenario of the specification: 7 names in batches of 3. *)
Example seven_in_batches_of_three :
  let j := journal (batch_search_businesses healthy mixed_site last_first
                      seven_names 3).2 in
  length <$> dispatched j = [3; 3; 1]%nat /\ pauses j = 2%nat
  /\ j = [ Dispatched (take 3 seven_names); Paused 2000;
           Dispatched (take 3 (drop 3 seven_names)); Paused 2000;
           Dispatched (drop 6 seven_names) ].
Proof. cbv zeta. repeat split. Qed.

End OrchestratorFacts.

(** ** Paginator *)

Section PaginatorFacts.
Import Paginator.

(** C3 as worded fails: when every attempt is refused, the first sleep
    lasts 2 seconds, not [2^0 = 1]. *)
Lemma spec_backoff_refuted : ~ spec_backoff always_refused.
Proof.
  intros H. specialize (H 0%nat 2 eq_refl). discriminate H.
Qed.

Example always_refused_run :
  slept (fetch_page always_refused) = [2; 4; 8; 16]
  /\ tried (fetch_page always_refused) = 5%nat
  /\ gives_up (fetch_page always_refused) = true.
Proof. repeat split. Qed.

End PaginatorFacts.

(** ** Paginator: outcome of the retry loop, pagination *)

Section PaginationFacts.
Import Paginator.

Lemma retry_attempt_success get a rest st r :
  get a = Got r -> raises_for_status r = false ->
  retry_loop get (a :: rest) st
  = {| response_var := Some r; slept := slept st; tried := S (tried st) |}.
Proof. intros Hg Hr. simpl. rewrite Hg, Hr. reflexivity. Qed.

Lemma retry_attempt_failure get a rest st :
  attempt_succeeds get a = false ->
  exists response',
    (response' = response_var st
     \/ exists r, response' = Some r /\ raises_for_status r = true)
    /\ retry_loop get (a :: rest) st
       = if (a + 1 =? max_retries)%nat
         then {| response_var := response'; slept := slept st;
                 tried := S (tried st) |}
         else retry_loop get rest
                {| response_var := response';
                   slept := slept st ++ [backoff a];
                   tried := S (tried st) |}.
Proof.
  unfold attempt_succeeds. intros Hf. simpl.
  destruct (get a) as [r|e].
  - apply negb_false_iff in Hf. rewrite Hf.
    exists (Some r). split; [right; eauto|].
    unfold on_request_exception. simpl. reflexivity.
  - exists (response_var st). split; [left; reflexivity|].
    unfold on_request_exception. simpl. reflexivity.
Qed.

(** The attempts before the first one that goes through each cost a
    sleep; that one ends the loop. *)
Lemma retry_loop_first_success get r : forall k a0 n st,
  (a0 + n = max_retries)%nat -> (k < n)%nat ->
  (forall a, (a0 <= a < a0 + k)%nat -> attempt_succeeds get a = false) ->
  get (a0 + k)%nat = Got r -> raises_for_status r = false ->
  retry_loop get (seq a0 n) st
  = {| response_var := Some r;
       slept := slept st ++ (backoff <$> seq a0 k);
       tried := tried st + S k |}.
Proof.
  induction k as [|k IH]; intros a0 n st Hn Hk Hfail Hget Hr.
  - destruct n as [|n]; [lia|]. cbn [seq].
    replace (a0 + 0)%nat with a0 in Hget by lia.
    rewrite (retry_attempt_success _ _ _ _ _ Hget Hr).
    simpl. rewrite app_nil_r. f_equal. lia.
  - destruct n as [|n]; [lia|]. cbn [seq].
    destruct (retry_attempt_failure get a0 (seq (S a0) n) st)
      as (resp & _ & ->); [apply Hfail; lia|].
    destruct (a0 + 1 =? max_retries)%nat eqn:E;
      [apply Nat.eqb_eq in E; lia|].
    rewrite (IH (S a0) n); try lia.
    + simpl. rewrite <- app_assoc. f_equal. lia.
    + intros a Ha. apply Hfail. lia.
    + replace (S a0 + k)%nat with (a0 + S k)%nat by lia. exact Hget.
    + exact Hr.
Qed.

(** When no attempt goes through the loop runs to its end; the variable
    [response] is then unset or holds an error response. *)
Lemma retry_loop_all_fail get : forall n a0 st,
  (a0 + n = max_retries)%nat -> (0 < n)%nat ->
  (forall a, (a0 <= a < max_retries)%nat -> attempt_succeeds get a = false) ->
  gives_up st = true ->
  let st' := retry_loop get (seq a0 n) st in
  gives_up st' = true
  /\ slept st' = slept st ++ (backoff <$> seq a0 (n - 1))
  /\ tried st' = (tried st + n)%nat.
Proof.
  induction n as [|n IH]; intros a0 st Hn Hpos Hfail Hgu; [lia|].
  cbn [seq].
  destruct (retry_attempt_failure get a0 (seq (S a0) n) st)
    as (resp & Hresp & ->); [apply Hfail; lia|].
  assert (Hgu' : forall sl tr,
            gives_up {| response_var := resp; slept := sl; tried := tr |}
            = true).
  { intros sl tr. unfold gives_up in *. simpl.
    destruct Hresp as [-> | (r & -> & Hr)]; [exact Hgu|].
    unfold ok. rewrite Hr. reflexivity. }
  destruct (a0 + 1 =? max_retries)%nat eqn:E.
  - apply Nat.eqb_eq in E. assert (n = 0)%nat as -> by lia.
    simpl. rewrite app_nil_r. split; [apply Hgu'|]. split; [reflexivity|lia].
  - apply Nat.eqb_neq in E.
    destruct (IH (S a0)
                {| response_var := resp; slept := slept st ++ [backoff a0];
                   tried := S (tried st) |})
      as (H1 & H2 & H3); try lia.
    + intros a Ha. apply Hfail. lia.
    + apply Hgu'.
    + split; [exact H1|]. split.
      * rewrite H2. simpl. rewrite <- app_assoc.
        destruct n as [|n]; [lia|].
        replace (S (S n) - 1)%nat with (S n) by lia.
        replace (S n - 1)%nat with n by lia. reflexivity.
      * rewrite H3. simpl. lia.
Qed.

Lemma first_true_or_none (P : nat -> bool) : forall n,
  (exists a, (a < n)%nat /\ P a = true
             /\ forall a', (a' < a)%nat -> P a' = false)
  \/ (forall a, (a < n)%nat -> P a = false).
Proof.
  induction n as [|n [(a & Ha & Hp & Hmin) | Hnone]].
  - right. intros a Ha. lia.
  - left. exists a. split; [lia|]. split; assumption.
  - destruct (P n) eqn:Hn.
    + left. exists n. split; [lia|]. split; [exact Hn | exact Hnone].
    + right. intros a Ha.
      destruct (decide (a = n)) as [->|Hne]; [exact Hn | apply Hnone; lia].
Qed.

Lemma attempt_succeeds_Got get a :
  attempt_succeeds get a = true ->
  exists r, get a = Got r /\ raises_for_status r = false.
Proof.
  unfold attempt_succeeds. destruct (get a) as [r|e]; [|discriminate].
  intros H. apply negb_true_iff in H. eauto.
Qed.

Lemma fetch_page_decided
    (get : nat -> get_reply) (a : nat) (r : response) :
  (a < 5)%nat ->
  (forall a', (a' < a)%nat -> attempt_succeeds get a' = false) ->
  get a = Got r ->
  raises_for_status r = false ->
  fetch_page get
  = {| response_var := Some r;
       slept := backoff <$> seq 0 a;
       tried := S a |}
  /\ gives_up (fetch_page get) = false.
Proof.
  intros Ha Hfail Hget Hr.
  assert (Heq : fetch_page get
                = {| response_var := Some r;
                     slept := backoff <$> seq 0 a;
                     tried := S a |}).
  { unfold fetch_page, range. rewrite Nat2Z.id.
    assert (Hlt : (a < max_retries)%nat) by (unfold max_retries; lia).
    assert (Hfail' : forall a', (0 <= a' < 0 + a)%nat ->
                                attempt_succeeds get a' = false)
      by (intros a' Ha'; apply Hfail; lia).
    exact (retry_loop_first_success get r a 0 max_retries
             {| response_var := None; slept := []; tried := 0 |}
             eq_refl Hlt Hfail' Hget Hr). }
  split; [exact Heq|]. rewrite Heq. unfold gives_up, ok. simpl.
  rewrite Hr. reflexivity.
Qed.

(** C3 (as the code has it): whatever the server does, one page costs
    between 1 and 5 calls of [session.get]; every attempt but the last
    one made has failed and is followed by a sleep, the sleep after the
    failed attempt number [a] (0-based) lasting [2^(a+1)] seconds: 2,
    4, 8, 16; the list of the sleeps is exactly that; and the last
    attempt made is followed by no sleep: it went through, or it was
    the fifth. *)
Theorem retry_backoff_doubles_from_two (get : nat -> get_reply) :
  (1 <= tried (fetch_page get) <= 5)%nat
  /\ slept (fetch_page get)
     = (fun a : nat => 2 ^ (Z.of_nat a + 1))
         <$> seq 0 (tried (fetch_page get) - 1)
  /\ (forall a, (a < tried (fetch_page get) - 1)%nat ->
                attempt_succeeds get a = false
                /\ slept (fetch_page get) !! a = Some (2 ^ (Z.of_nat a + 1)))
  /\ ((tried (fetch_page get) < 5)%nat ->
      attempt_succeeds get (tried (fetch_page get) - 1) = true).
Proof.
  assert (Hshape : exists n,
            (1 <= n <= 5)%nat
            /\ tried (fetch_page get) = n
            /\ slept (fetch_page get) = backoff <$> seq 0 (n - 1)
            /\ (forall a, (a < n - 1)%nat -> attempt_succeeds get a = false)
            /\ ((n < 5)%nat -> attempt_succeeds get (n - 1) = true)).
  { destruct (first_true_or_none (attempt_succeeds get) 5)
      as [(a & Ha & Hok & Hmin) | Hnone].
    - destruct (attempt_succeeds_Got get a Hok) as (r & Hget & Hr).
      destruct (fetch_page_decided get a r Ha Hmin Hget Hr) as [-> _].
      exists (S a). cbn [tried slept]. replace (S a - 1)%nat with a by lia.
      split; [lia|]. split; [reflexivity|]. split; [reflexivity|].
      split; [exact Hmin | intros _; exact Hok].
    - destruct (retry_loop_all_fail get max_retries 0
                  {| response_var := None; slept := []; tried := 0 |})
        as (_ & Hs & Ht); try reflexivity.
      { unfold max_retries. lia. }
      { intros a Ha. apply Hnone. unfold max_retries in Ha. lia. }
      exists 5%nat. split; [lia|].
      split; [exact Ht|]. split; [exact Hs|].
      split; [intros a Ha; apply Hnone; lia | lia]. }
  destruct Hshape as (n & Hn & Ht & Hs & Hfail & Hlast).
  rewrite Ht, Hs. split; [exact Hn|]. split; [reflexivity|].
  split; [|exact Hlast].
  intros a Ha. split; [apply Hfail, Ha|].
  rewrite list_lookup_fmap, lookup_seq_lt by exact Ha. reflexivity.
Qed.


(** X1: the first attempt that goes through decides the page: its response
    is the one kept, one call was made per attempt up to it, and each
    failed attempt before it was followed by its backoff sleep. *)
Theorem fetch_page_first_success
    (get : nat -> get_reply) (a : nat) (r : response) :
  (a < 5)%nat ->
  (forall a', (a' < a)%nat -> attempt_succeeds get a' = false) ->
  get a = Got r ->
  raises_for_status r = false ->
  fetch_page get
  = {| response_var := Some r;
       slept := backoff <$> seq 0 a;
       tried := S a |}
  /\ gives_up (fetch_page get) = false.
Proof.
  intros Ha Hfail Hget Hr.
  assert (Heq : fetch_page get
                = {| response_var := Some r;
                     slept := backoff <$> seq 0 a;
                     tried := S a |}).
  { unfold fetch_page, range. rewrite Nat2Z.id.
    assert (Hlt : (a < max_retries)%nat) by (unfold max_retries; lia).
    assert (Hfail' : forall a', (0 <= a' < 0 + a)%nat ->
                                attempt_succeeds get a' = false)
      by (intros a' Ha'; apply Hfail; lia).
    exact (retry_loop_first_success get r a 0 max_retries
             {| response_var := None; slept := []; tried := 0 |}
             eq_refl Hlt Hfail' Hget Hr). }
  split; [exact Heq|]. rewrite Heq. unfold gives_up, ok. simpl.
  rewrite Hr. reflexivity.
Qed.

Lemma fetch_page_first_success_witness :
  fetch_page third_time_lucky
  = {| response_var := Some {| status_code := 200; text := "<ol></ol>" |};
       slept := backoff <$> seq 0 2;
       tried := 3 |}
  /\ gives_up (fetch_page third_time_lucky) = false.
Proof.
  apply (fetch_page_first_success third_time_lucky 2
           {| status_code := 200; text := "<ol></ol>" |}).
  - lia.
  - intros a' Ha'. destruct a' as [|[|a']]; [reflexivity | reflexivity | lia].
  - reflexivity.
  - reflexivity.
Defined.

(** X2: a page is given up exactly when each of the five attempts fails: an
    error response left by an early attempt is not taken for a success,
    and it does not hide a later success. *)
Theorem fetch_page_gives_up_iff (get : nat -> get_reply) :
  gives_up (fetch_page get) = true
  <-> forall a, (a < 5)%nat -> attempt_succeeds get a = false.
Proof.
  split.
  - intros Hgu.
    destruct (first_true_or_none (attempt_succeeds get) 5)
      as [(a & Ha & Hs & Hmin) | Hnone]; [|exact Hnone].
    destruct (attempt_succeeds_Got get a Hs) as (r & Hget & Hr).
    destruct (fetch_page_decided get a r Ha Hmin Hget Hr) as [_ Hok].
    congruence.
  - intros Hnone.
    destruct (retry_loop_all_fail get max_retries 0
                {| response_var := None; slept := []; tried := 0 |})
      as (H & _); try reflexivity; try (unfold max_retries; lia).
    + intros a Ha. apply Hnone. unfold max_retries in Ha. lia.
    + exact H.
Qed.

(** X3: whatever the server does, the retry loop of one page sleeps 30
    seconds at most in all, and exactly 30 when it gives the page up. *)
Theorem fetch_page_total_backoff (get : nat -> get_reply) :
  0 <= total_slept (fetch_page get) <= 30
  /\ (gives_up (fetch_page get) = true -> total_slept (fetch_page get) = 30).
Proof.
  destruct (first_true_or_none (attempt_succeeds get) 5)
    as [(a & Ha & Hs & Hmin) | Hnone].
  - destruct (attempt_succeeds_Got get a Hs) as (r & Hget & Hr).
    destruct (fetch_page_decided get a r Ha Hmin Hget Hr) as [-> Hok].
    split; [|intros H; unfold gives_up, ok in H; simpl in H;
             rewrite Hr in H; discriminate].
    unfold total_slept. simpl.
    destruct a as [|[|[|[|[|a]]]]]; try lia; vm_compute; split; discriminate.
  - destruct (retry_loop_all_fail get max_retries 0
                {| response_var := None; slept := []; tried := 0 |})
      as (_ & H & _); try reflexivity; try (unfold max_retries; lia).
    { intros a Ha. apply Hnone. unfold max_retries in Ha. lia. }
    change (retry_loop get (seq 0 max_retries) _) with (fetch_page get) in H.
    unfold total_slept. rewrite H.
    split; [vm_compute; split; discriminate | reflexivity].
Qed.

Lemma fetch_page_total_backoff_witness :
  0 <= total_slept (fetch_page always_refused) <= 30
  /\ total_slept (fetch_page always_refused) = 30.
Proof.
  destruct (fetch_page_total_backoff always_refused) as [H1 H2].
  split; [exact H1 | apply H2; reflexivity].
Defined.

Lemma paginate_step fuel server parse_html p acc :
  paginate (S fuel) server parse_html p acc
  = match page_yield server parse_html p with
    | Ret [] => Some (Ret acc)
    | Ret records => paginate fuel server parse_html (S p) (acc ++ records)
    | Raise e => Some (Raise e)
    | Pending => Some Pending
    end.
Proof.
  unfold page_yield. simpl.
  destruct (response_var (fetch_page (server p))) as [resp|]; [|reflexivity].
  destruct (negb (ok resp)); reflexivity.
Qed.

(** The pages [p0 .. p0+n-1] yield [records q], none empty. *)
Lemma paginate_run server parse_html (records : nat -> list corporation) :
  forall n p0 acc fuel,
    (forall q, (p0 <= q < p0 + n)%nat ->
               page_yield server parse_html q = Ret (records q)
               /\ records q <> []) ->
    (n < fuel)%nat ->
    paginate fuel server parse_html p0 acc
    = match page_yield server parse_html (p0 + n) with
      | Ret [] => Some (Ret (acc ++ concat (records <$> seq p0 n)))
      | Ret last =>
          paginate (fuel - S n) server parse_html (S (p0 + n))
            ((acc ++ concat (records <$> seq p0 n)) ++ last)
      | Raise e => Some (Raise e)
      | Pending => Some Pending
      end.
Proof.
  induction n as [|n IH]; intros p0 acc fuel Hserved Hfuel;
    (destruct fuel as [|fuel]; [lia|]); rewrite paginate_step.
  - replace (p0 + 0)%nat with p0 by lia. simpl. rewrite app_nil_r.
    replace (fuel - 0)%nat with fuel by lia. reflexivity.
  - destruct (Hserved p0 ltac:(lia)) as [Hy Hne]. rewrite Hy.
    destruct (records p0) as [|c cs] eqn:E; [contradiction|].
    rewrite (IH (S p0)); [| |lia].
    + replace (S p0 + n)%nat with (p0 + S n)%nat by lia.
      cbn [seq fmap list_fmap concat]. rewrite E, !app_assoc. reflexivity.
    + intros q Hq. apply Hserved. lia.
Qed.

(** X4: pagination stops at the first page [p] that yields nothing (its
    retries are exhausted, or nothing is parsed from it) and keeps what
    the pages before it yielded, in order; the CSV is written from these
    rows, and not written at all when the very first page yields
    nothing. *)
Theorem main_collects_until_first_empty_page
    (server : nat -> nat -> get_reply)
    (parse_html : string -> outcome (list corporation))
    (records : nat -> list corporation) (p fuel : nat) :
  (forall q, (q < p)%nat ->
             page_yield server parse_html q = Ret (records q)
             /\ records q <> []) ->
  page_yield server parse_html p = Ret [] ->
  (p < fuel)%nat ->
  paginate fuel server parse_html 0 []
  = Some (Ret (concat (records <$> seq 0 p)))
  /\ main fuel server parse_html
     = Some (Ret (if decide (p = 0%nat) then None
                  else Some (concat (records <$> seq 0 p)))).
Proof.
  intros Hserved Hstop Hfuel.
  assert (Hrun : paginate fuel server parse_html 0 []
                 = Some (Ret (concat (records <$> seq 0 p)))).
  { rewrite (paginate_run server parse_html records p 0 [] fuel);
      [cbn [Nat.add]; rewrite Hstop; reflexivity | | exact Hfuel].
    intros q Hq. apply Hserved. lia. }
  split; [exact Hrun|]. unfold main. rewrite Hrun.
  destruct (decide (p = 0%nat)) as [->|Hp]; [reflexivity|].
  destruct p as [|p]; [contradiction|].
  cbn [seq fmap list_fmap concat].
  destruct (Hserved 0%nat ltac:(lia)) as [_ H0].
  destruct (records 0%nat) as [|c cs]; [contradiction|].
  reflexivity.
Qed.

Lemma main_collects_witness :
  paginate 10 three_pages one_per_page 0 []
  = Some (Ret (concat ((fun _ => [{| corporate_name := "Union Co-operative";
                                     corporation_number := "123456-7";
                                     business_number := "123456789RC0001" |}])
                         <$> seq 0 3)))
  /\ main 10 three_pages one_per_page
     = Some (Ret (if decide (3 = 0)%nat then None
                  else Some (concat
                    ((fun _ => [{| corporate_name := "Union Co-operative";
                                   corporation_number := "123456-7";
                                   business_number := "123456789RC0001" |}])
                       <$> seq 0 3)))).
Proof.
  apply (main_collects_until_first_empty_page three_pages one_per_page
           (fun _ => [{| corporate_name := "Union Co-operative";
                         corporation_number := "123456-7";
                         business_number := "123456789RC0001" |}]) 3 10).
  - intros q Hq. split; [|discriminate].
    destruct q as [|[|[|q]]]; [reflexivity | reflexivity | reflexivity | lia].
  - reflexivity.
  - lia.
Defined.

(** X5: when the parser raises on page [p], [main] raises with it: no CSV
    is written and what the pages before [p] yielded is lost, unlike
    what happens when the retries of page [p] are exhausted. *)
Theorem main_loses_everything_when_parsing_raises
    (server : nat -> nat -> get_reply)
    (parse_html : string -> outcome (list corporation))
    (records : nat -> list corporation) (p fuel : nat) (e : exn) :
  (forall q, (q < p)%nat ->
             page_yield server parse_html q = Ret (records q)
             /\ records q <> []) ->
  page_yield server parse_html p = Raise e ->
  (p < fuel)%nat ->
  main fuel server parse_html = Some (Raise e).
Proof.
  intros Hserved Hstop Hfuel. unfold main.
  rewrite (paginate_run server parse_html records p 0 [] fuel);
    [cbn [Nat.add]; rewrite Hstop; reflexivity | | exact Hfuel].
  intros q Hq. apply Hserved. lia.
Qed.

Lemma main_loses_everything_witness :
  main 10 third_page_broken choking_parser
  = Some (Raise "'NoneType' object has no attribute 'get_text'").
Proof.
  apply (main_loses_everything_when_parsing_raises
           third_page_broken choking_parser
           (fun _ => [{| corporate_name := "Union Co-operative";
                         corporation_number := "123456-7";
                         business_number := "123456789RC0001" |}]) 2 10).
  - intros q Hq. split; [|discriminate].
    destruct q as [|[|q]]; [reflexivity | reflexivity | lia].
  - reflexivity.
  - lia.
Defined.

(** X6: on a site whose every page yields something the loop has no way
    out: however many iterations it is given, it is still running. *)
Theorem main_never_stops_on_endless_site
    (server : nat -> nat -> get_reply)
    (parse_html : string -> outcome (list corporation)) (fuel : nat) :
  (forall q, exists c cs, page_yield server parse_html q = Ret (c :: cs)) ->
  main fuel server parse_html = None.
Proof.
  intros Hall.
  assert (H : forall fuel p acc, paginate fuel server parse_html p acc = None).
  { clear fuel. induction fuel as [|fuel IH]; intros p acc; [reflexivity|].
    rewrite paginate_step. destruct (Hall p) as (c & cs & ->). apply IH. }
  unfold main. rewrite H. reflexivity.
Qed.

Lemma main_never_stops_witness : main 1000 endless one_per_page = None.
Proof.
  apply (main_never_stops_on_endless_site endless one_per_page 1000).
  intros q. eexists _, _. reflexivity.
Defined.

End PaginationFacts.


(** ** Completion detector: when it stops *)

Lemma wait_loop_step env max_wait start_time k now :
  Detector.wait_loop env max_wait start_time k now =
  if now - start_time <? max_wait then
    match Detector.poll (env k) start_time now with
    | (Ret (Detector.Stop why), t) => (Ret why, t)
    | (Ret Detector.Again, t) =>
        Detector.wait_loop env max_wait start_time (S k) t
    | (Raise e, t) => (Raise e, t)
    | (Pending, t) => (Pending, t)
    end
  else (Ret Detector.BudgetExhausted, now).
Proof. apply wait_loop_unfold. Qed.

Section DetectorTiming.
Import Detector.

Lemma poll_still_loading p start_time now :
  still_loading p ->
  poll p start_time now
  = (Ret Again,
     now + Z.of_N (probe_latency p) + lasted poll_interval (sleep_late p)).
Proof.
  intros (Hr & Hn & Hl).
  unfold poll, try_except, poll_body, bind, await, time_time, get, sleep,
    modify, ret, probe_latency.
  rewrite Hr, Hn, Hl. cbn [outcome_of_reply Nat.ltb Nat.leb negb andb].
  f_equal. lia.
Qed.

Lemma poll_first_marker p start_time now why :
  first_marker p = Some why ->
  exists t, poll p start_time now = (Ret (Stop why), t)
            /\ now <= t <= now + Z.of_N (probe_latency p).
Proof.
  unfold first_marker, probe_latency. intros Hm.
  unfold poll, try_except, poll_body, bind, await, time_time, get, ret.
  destruct (answer (results_q p)) as [n|e]; [|discriminate].
  cbn [outcome_of_reply].
  destruct (0 <? n)%nat.
  { injection Hm as <-. eexists. split; [reflexivity | lia]. }
  destruct (answer (no_results_q p)) as [[|]|e]; try discriminate.
  injection Hm as <-. cbn [outcome_of_reply].
  eexists. split; [reflexivity | lia].
Qed.

(** What an iteration does on a page without marker nor loading
    indicator: it settles if the grace period is over when the three
    queries have answered, and sleeps otherwise. *)
Lemma poll_quiet p start_time now :
  answer (results_q p) = Answer 0%nat ->
  answer (no_results_q p) = Answer false ->
  answer (loading_q p) = Answer false ->
  poll p start_time now
  = if grace <? now + Z.of_N (probe_latency p) - start_time
    then (Ret (Stop Settled), now + Z.of_N (probe_latency p))
    else (Ret Again,
          now + Z.of_N (probe_latency p)
          + lasted poll_interval (sleep_late p)).
Proof.
  intros Hr Hn Hl.
  unfold poll, try_except, poll_body, bind, await, time_time, get, sleep,
    modify, ret, probe_latency.
  rewrite Hr, Hn, Hl. cbn [outcome_of_reply Nat.ltb Nat.leb negb andb].
  replace (now + Z.of_N (took (results_q p))
           + Z.of_N (took (no_results_q p))
           + Z.of_N (took (loading_q p)))
    with (now + Z.of_N (took (results_q p) + took (no_results_q p)
                        + took (loading_q p))) by lia.
  destruct (grace <? _); reflexivity.
Qed.

Lemma clock_at_mono env now : forall k j,
  (j <= k)%nat -> clock_at env now j <= clock_at env now k.
Proof.
  induction k as [|k IH]; intros j Hj.
  - assert (j = 0)%nat as -> by lia. lia.
  - destruct (decide (j = S k)) as [->|Hne]; [lia|].
    specialize (IH j ltac:(lia)). cbn [clock_at].
    pose proof (lasted_pos poll_interval (sleep_late (env k))). lia.
Qed.

(** Iterations that all see the loading indicator and no marker. *)
Lemma wait_loop_skips env max_wait start_time : forall (k k0 : nat),
  (forall j, (k0 <= j < k0 + k)%nat -> still_loading (env j)) ->
  (k = 0%nat
   \/ clock_at env start_time (k0 + k - 1) - start_time < max_wait) ->
  wait_loop env max_wait start_time k0 (clock_at env start_time k0)
  = wait_loop env max_wait start_time (k0 + k)
      (clock_at env start_time (k0 + k)).
Proof.
  induction k as [|k IH]; intros k0 Hload Hbudget.
  - replace (k0 + 0)%nat with k0 by lia. reflexivity.
  - destruct Hbudget as [Hk | Hbudget]; [lia|].
    rewrite (wait_loop_step env max_wait start_time k0).
    replace (clock_at env start_time k0 - start_time <? max_wait) with true.
    + rewrite (poll_still_loading _ _ _ (Hload k0 ltac:(lia))).
      change (clock_at env start_time k0
              + Z.of_N (probe_latency (env k0))
              + lasted poll_interval (sleep_late (env k0)))
        with (clock_at env start_time (S k0)).
      replace (k0 + S k)%nat with (S k0 + k)%nat by lia.
      apply IH.
      * intros j Hj. apply Hload. lia.
      * destruct k as [|k]; [left; reflexivity|]. right.
        replace (S k0 + S k - 1)%nat with (k0 + S (S k) - 1)%nat by lia.
        exact Hbudget.
    + symmetry. apply Z.ltb_lt.
      pose proof (clock_at_mono env start_time (k0 + S k - 1) k0
                    ltac:(lia)).
      lia.
Qed.

(** X9: when the page shows its loading indicator and no marker at the
    polls 0 to [k-1], and a marker at poll [k], and the budget is not
    used up when poll [k] starts, the detector returns during poll [k]
    with that marker (result boxes before the no-results text): not
    before the [k] iterations before it are over, queries and sleeps
    taking the time they take, and later than that by the queries of
    poll [k] at most.  No sleep follows the marker. *)
Theorem detector_stops_at_first_marker
    (env : nat -> probe) (max_wait now : Z) (k : nat) (why : exit) :
  (forall j, (j < k)%nat -> still_loading (env j)) ->
  first_marker (env k) = Some why ->
  clock_at env now k - now < max_wait ->
  exists t,
    _wait_for_results_smart env max_wait now = (Ret why, t)
    /\ clock_at env now k <= t
       <= clock_at env now k + Z.of_N (probe_latency (env k)).
Proof.
  intros Hload Hmark Hbudget.
  rewrite wait_for_results_smart_unfold.
  change (wait_loop env max_wait now 0 now)
    with (wait_loop env max_wait now 0 (clock_at env now 0)).
  rewrite (wait_loop_skips env max_wait now k 0).
  - cbn [Nat.add]. rewrite (wait_loop_step env max_wait now k).
    replace (clock_at env now k - now <? max_wait) with true
      by (symmetry; apply Z.ltb_lt; exact Hbudget).
    destruct (poll_first_marker (env k) now (clock_at env now k) why Hmark)
      as (t & -> & Ht).
    exists t. split; [reflexivity | exact Ht].
  - intros j Hj. apply Hload. lia.
  - destruct k as [|k]; [left; reflexivity|]. right.
    pose proof (clock_at_mono env now (S k) (0 + S k - 1) ltac:(lia)).
    lia.
Qed.

Lemma detector_stops_at_first_marker_witness :
  exists t,
    _wait_for_results_smart results_at_fourth_poll default_max_wait 0
    = (Ret ResultsDetected, t)
    /\ clock_at results_at_fourth_poll 0 3 <= t
       <= clock_at results_at_fourth_poll 0 3
          + Z.of_N (probe_latency (results_at_fourth_poll 3)).
Proof.
  apply (detector_stops_at_first_marker
           results_at_fourth_poll default_max_wait 0 3).
  - intros j Hj.
    destruct j as [|[|[|j]]]; [repeat split | repeat split | repeat split
                               | lia].
  - reflexivity.
  - reflexivity.
Defined.

(** X10: whatever the page does: a return that comes within the grace period
    and before the budget is due to a marker.  The two heuristic exits
    (no loading indicator, a query that raised) are never taken during
    the first 3 seconds. *)
Theorem detector_returns_early_only_on_marker
    (env : nat -> probe) (max_wait now t : Z) (why : exit) :
  _wait_for_results_smart env max_wait now = (Ret why, t) ->
  t - now <= grace ->
  t - now < max_wait ->
  why = ResultsDetected \/ why = NoResultsDetected.
Proof.
  intros Hrun Hg Hb. rewrite wait_for_results_smart_unfold in Hrun.
  destruct (wait_loop_spec env max_wait now
              (Z.to_nat (max_wait - (now - now))) 0%nat now (le_n _))
    as (why' & t' & Heq & _ & Hbudget & Hgrace & _).
  rewrite Heq in Hrun. injection Hrun as -> ->.
  destruct why; auto.
  - assert (grace < t - now) by auto. lia.
  - assert (grace < t - now) by auto. lia.
  - specialize (Hbudget eq_refl). lia.
Qed.

Lemma results_at_fourth_poll_run :
  _wait_for_results_smart results_at_fourth_poll default_max_wait 0
  = (Ret ResultsDetected, 6304056).
Proof.
  rewrite wait_for_results_smart_unfold.
  change (wait_loop results_at_fourth_poll default_max_wait 0 0 0)
    with (wait_loop results_at_fourth_poll default_max_wait 0 0
            (clock_at results_at_fourth_poll 0 0)).
  rewrite (wait_loop_skips results_at_fourth_poll default_max_wait 0 3 0).
  - rewrite (wait_loop_step results_at_fourth_poll default_max_wait 0).
    reflexivity.
  - intros j Hj.
    destruct j as [|[|[|j]]]; [repeat split | repeat split | repeat split
                               | lia].
  - right. reflexivity.
Qed.

Lemma detector_returns_early_witness :
  ResultsDetected = ResultsDetected \/ ResultsDetected = NoResultsDetected.
Proof.
  apply (detector_returns_early_only_on_marker
           results_at_fourth_poll default_max_wait 0 6304056
           ResultsDetected).
  - exact results_at_fourth_poll_run.
  - unfold grace. lia.
  - unfold default_max_wait. lia.
Defined.

(** The loop on a page that stays without marker and without loading
    indicator, as long as the test finds the clock within one sleep of
    the grace period. *)
Lemma wait_loop_quiet env max_wait start_time (L O : Z) :
  0 <= O -> latency_within L env -> lateness_within O env ->
  never_marked env -> never_loading env ->
  grace + poll_interval + O < max_wait ->
  forall (n : nat) k now,
    (Z.to_nat (max_wait - (now - start_time)) <= n)%nat ->
    now - start_time <= grace + poll_interval + O ->
    exists t,
      wait_loop env max_wait start_time k now = (Ret Settled, t)
      /\ grace < t - start_time <= grace + poll_interval + O + L.
Proof.
  intros HO0 HL HO Hm Hl Hbudget.
  induction n as [|n IH]; intros k now Hn Hinv; [lia|].
  rewrite (wait_loop_step env max_wait start_time k now).
  replace (now - start_time <? max_wait) with true
    by (symmetry; apply Z.ltb_lt; lia).
  destruct (Hm k) as [Hr Hnr].
  rewrite (poll_quiet _ _ _ Hr Hnr (Hl k)).
  specialize (HL k).
  destruct (grace <? now + Z.of_N (probe_latency (env k)) - start_time)
    eqn:Eg.
  - apply Z.ltb_lt in Eg. eexists. split; [reflexivity|]. lia.
  - apply Z.ltb_ge in Eg.
    pose proof (lasted_pos poll_interval (sleep_late (env k))) as Hpos.
    pose proof (lasted_le poll_interval (sleep_late (env k)) O
                  poll_interval_pos HO0 (HO k)) as Hle.
    apply IH; lia.
Qed.

(** X11: a page that never shows a marker nor a loading indicator is
    not waited for up to the budget: the detector takes it for settled
    at the first poll whose queries end after the 3 s grace period,
    that is within one poll interval after it, plus the lateness [O]
    that a sleep has at most, plus the time [L] that the queries of one
    iteration take at most; whatever the budget above that. *)
Theorem detector_settles_on_quiet_page
    (env : nat -> probe) (max_wait now L O : Z) :
  0 <= O ->
  latency_within L env ->
  lateness_within O env ->
  never_marked env ->
  never_loading env ->
  grace + poll_interval + O < max_wait ->
  exists t,
    _wait_for_results_smart env max_wait now = (Ret Settled, t)
    /\ grace < t - now <= grace + poll_interval + O + L.
Proof.
  intros HO0 HL HO Hm Hl Hbudget.
  rewrite wait_for_results_smart_unfold.
  apply (wait_loop_quiet env max_wait now L O HO0 HL HO Hm Hl Hbudget
           (Z.to_nat (max_wait - (now - now))) 0%nat now (le_n _)).
  pose proof poll_interval_pos. unfold grace. lia.
Qed.

Lemma detector_settles_on_quiet_page_witness :
  exists t,
    _wait_for_results_smart quiet_page default_max_wait 100
    = (Ret Settled, t)
    /\ grace < t - 100 <= grace + poll_interval + 0 + 0.
Proof.
  apply (detector_settles_on_quiet_page quiet_page default_max_wait 100 0 0).
  - lia.
  - intros k. reflexivity.
  - intros k. reflexivity.
  - intros k. split; reflexivity.
  - intros k. reflexivity.
  - reflexivity.
Defined.

End DetectorTiming.

(** ** Fetch task: the ways it ends *)

Section TaskOutcomes.
Import Scraper.

Lemma try_selector_clicks env selector t :
  selector_fails env selector = false ->
  exists t', try_selector env selector t = (Ret true, t').
Proof.
  unfold selector_fails, try_selector, try_except, bind, await, ret.
  destruct (answer (count_button env selector)) as [n|e]; simpl;
    [|discriminate].
  destruct (0 <? n)%nat; simpl; [|discriminate].
  destruct (answer (click_button env selector)); simpl;
    [eauto | discriminate].
Qed.

(** X12: the first selector that yields a click ends the search for the
    submit control: the selectors listed after it are not consulted, so
    that neither the result nor the time spent depends on them. *)
Theorem click_first_first_match_wins
    (env : page_env) (before rest : list string) (selector : string) (t : Z) :
  (forall s, s ∈ before -> selector_fails env s = true) ->
  selector_fails env selector = false ->
  click_first env (before ++ selector :: rest) t
  = click_first env (before ++ [selector]) t
  /\ (click_first env (before ++ selector :: rest) t).1 = Ret true.
Proof.
  revert t. induction before as [|s0 before IH]; intros t Hfail Hok; simpl.
  - destruct (try_selector_clicks env selector t Hok) as [t1 H1].
    rewrite !(bind_returned _ _ _ _ _ H1). split; reflexivity.
  - destruct (try_selector_fails env s0 t) as [t1 H1];
      [apply Hfail; left|].
    rewrite !(bind_returned _ _ _ _ _ H1).
    apply IH; [|exact Hok]. intros s Hs. apply Hfail. right. exact Hs.
Qed.

Lemma click_first_first_match_witness :
  click_first good_page
    (["button[type='submit']"%string] ++ "input[type='submit']"%string
       :: ["button:has-text('Search')"%string; "#nodeW20"%string]) 0
  = click_first good_page
      (["button[type='submit']"%string] ++ ["input[type='submit']"%string]) 0
  /\ (click_first good_page
        (["button[type='submit']"%string] ++ "input[type='submit']"%string
           :: ["button:has-text('Search')"%string; "#nodeW20"%string]) 0).1
     = Ret true.
Proof.
  apply (click_first_first_match_wins good_page).
  - intros s Hs. apply list_elem_of_singleton in Hs. subst s. reflexivity.
  - reflexivity.
Defined.

Lemma click_first_some env selectors : forall t,
  (exists selector, selector ∈ selectors
                    /\ selector_fails env selector = false) ->
  exists t', click_first env selectors t = (Ret true, t').
Proof.
  induction selectors as [|s0 rest IH]; intros t (sel & Hin & Hok).
  - inversion Hin.
  - simpl. destruct (selector_fails env s0) eqn:E.
    + destruct (try_selector_fails env s0 t E) as [t1 H1].
      rewrite (bind_returned _ _ _ _ _ H1). apply IH.
      exists sel. split; [|exact Hok].
      inversion Hin; subst; [congruence | assumption].
    + destruct (try_selector_clicks env s0 t E) as [t1 H1].
      rewrite (bind_returned _ _ _ _ _ H1). eexists. reflexivity.
Qed.

(** The body of the inner [try] when every step works and some selector
    yields a click. *)
Lemma page_session_succeeds env business_name start_time t html :
  answer (goto env) = Answer tt ->
  answer (wait_query_box env) = Answer tt ->
  answer (fill_query env) = Answer tt ->
  (exists selector, selector ∈ search_button_selectors
                    /\ selector_fails env selector = false) ->
  answer (wait_load_state env) = Answer tt ->
  answer (content env) = Answer html ->
  exists t',
    page_session env business_name start_time t
    = (Ret {| Scraper.business_name := business_name;
              html_content := html;
              success := true;
              error_message := "";
              search_time := t' - start_time |}, t').
Proof.
  intros Hgoto Hbox Hfill Hsel Hload Hcontent. unfold page_session.
  rewrite (bind_returned _ _ _ _ _ (await_answer _ _ _ Hgoto)).
  destruct (cookie_banner_swallowed env (t + Z.of_N (took (goto env))))
    as [t1 H1].
  rewrite (bind_returned _ _ _ _ _ H1).
  rewrite (bind_returned _ _ _ _ _ (await_answer _ _ _ Hbox)).
  rewrite (bind_returned _ _ _ _ _ (await_answer _ _ _ Hfill)).
  destruct (click_first_some env search_button_selectors
              (t1 + Z.of_N (took (wait_query_box env))
               + Z.of_N (took (fill_query env))) Hsel) as [t2 H2].
  rewrite (bind_returned _ _ _ _ _ H2).
  rewrite (bind_returned _ _ t2 tt t2) by reflexivity.
  rewrite (bind_returned _ _ _ _ _ (await_answer _ _ _ Hload)).
  set (t3 := t2 + Z.of_N (took (wait_load_state env))).
  destruct (wait_for_results_smart_spec (polls env)
              Detector.default_max_wait t3) as (why & t4 & Hw & _).
  rewrite (bind_returned _ _ t3 why t4 Hw).
  rewrite (bind_returned _ _ _ _ _ (await_answer _ _ _ Hcontent)).
  rewrite bind_eq. unfold time_time, get. eexists. reflexivity.
Qed.

(** What the task reports when every step works and some selector
    yields a click: the content of the page if the page closes, a
    failure carrying the error of [page.close()] if it does not. *)
Lemma task_after_good_session permits pool env business_name context_id
    t html :
  reaches_submit permits pool env ->
  (exists selector, selector ∈ search_button_selectors
                    /\ selector_fails env selector = false) ->
  answer (wait_load_state env) = Answer tt ->
  answer (content env) = Answer html ->
  exists t0 t',
    search_business_optimized permits pool env business_name context_id t
    = (Ret match answer (close_page env) with
           | Answer _ =>
               {| Scraper.business_name := business_name;
                  html_content := html;
                  success := true;
                  error_message := "";
                  search_time := t0 - t |}
           | Fails e =>
               {| Scraper.business_name := business_name;
                  html_content := "";
                  success := false;
                  error_message := e;
                  search_time := t' - t |}
           end, t').
Proof.
  intros (Hpermits & Hpool & Hpage & Hgoto & Hbox & Hfill) Hsel Hload
    Hcontent.
  unfold search_business_optimized.
  rewrite bind_eq. unfold time_time at 1, get at 1.
  rewrite (bind_returned _ _ _ _ _ (acquire_let_in _ _ _ Hpermits)).
  set (tin := t + Z.of_N (permit_wait env)).
  assert (Hacq : exists c, acquire_context pool context_id = Ret c).
  { unfold acquire_context. destruct pool as [|c0 rest]; [contradiction|].
    destruct (lookup_lt_is_Some_2 (c0 :: rest)
                (Z.to_nat (context_id `mod` Z.of_nat (length (c0 :: rest)))))
      as [c ->]; [|eauto].
    pose proof (Z.mod_pos_bound context_id
                  (Z.of_nat (length (c0 :: rest)))) as Hm.
    simpl in *. lia. }
  destruct Hacq as [c Hc].
  destruct (page_session_succeeds env business_name t
              (tin + Z.of_N (took (new_page env))) html
              Hgoto Hbox Hfill Hsel Hload Hcontent) as [t1 H1].
  unfold try_except.
  rewrite (bind_returned _ _ tin (c) tin) by (unfold lift; rewrite Hc; done).
  rewrite (bind_returned _ _ _ _ _ (await_answer _ _ _ Hpage)).
  unfold try_finally. rewrite H1. unfold await at 1.
  destruct (answer (close_page env)) as [[]|e]; cbn [outcome_of_reply].
  - eexists _, _. reflexivity.
  - rewrite bind_eq. unfold time_time, get. eexists 0, _. reflexivity.
Qed.

(** X13: a task whose steps all work (navigation, query box, some selector
    that yields a click, load state, content, closing the page) reports
    a success carrying the content of the page and no error message,
    whether or not the cookie banner shows and whatever the detector
    sees. *)
Theorem task_reports_page_content
    (permits : Z) (pool : list context) (env : page_env)
    (business_name : string) (context_id : Z) (html : string) :
  reaches_submit permits pool env ->
  (exists selector, selector ∈ search_button_selectors
                    /\ selector_fails env selector = false) ->
  answer (wait_load_state env) = Answer tt ->
  answer (content env) = Answer html ->
  answer (close_page env) = Answer tt ->
  exists r,
    run_task permits pool env business_name context_id = Ret r
    /\ Scraper.business_name r = business_name
    /\ success r = true
    /\ html_content r = html
    /\ error_message r = ""%string.
Proof.
  intros Hreach Hsel Hload Hcontent Hclose. unfold run_task.
  destruct (task_after_good_session permits pool env business_name context_id
              (started_at env) html Hreach Hsel Hload Hcontent)
    as (t0 & t' & ->).
  rewrite Hclose. eexists. split; [reflexivity|]. repeat split.
Qed.

Lemma task_reports_page_content_witness :
  exists r,
    run_task 5 [(0, 0)%nat] good_page "Union Co-op" 0 = Ret r
    /\ Scraper.business_name r = "Union Co-op"%string
    /\ success r = true
    /\ html_content r = "<html>results</html>"%string
    /\ error_message r = ""%string.
Proof.
  apply (task_reports_page_content 5 [(0, 0)%nat] good_page).
  - split; [lia|]. repeat split. discriminate.
  - exists "input[type='submit']"%string. split; [set_solver | reflexivity].
  - reflexivity.
  - reflexivity.
  - reflexivity.
Defined.

(** X14: the same task when closing the page raises: the content that was
    fetched is dropped and the task reports a failure carrying the
    error of [page.close()] and empty html. *)
Theorem task_success_is_lost_when_close_raises
    (permits : Z) (pool : list context) (env : page_env)
    (business_name : string) (context_id : Z) (html : string) (e : exn) :
  reaches_submit permits pool env ->
  (exists selector, selector ∈ search_button_selectors
                    /\ selector_fails env selector = false) ->
  answer (wait_load_state env) = Answer tt ->
  answer (content env) = Answer html ->
  answer (close_page env) = Fails e ->
  exists r,
    run_task permits pool env business_name context_id = Ret r
    /\ Scraper.business_name r = business_name
    /\ success r = false
    /\ html_content r = ""%string
    /\ error_message r = e.
Proof.
  intros Hreach Hsel Hload Hcontent Hclose. unfold run_task.
  destruct (task_after_good_session permits pool env business_name context_id
              (started_at env) html Hreach Hsel Hload Hcontent)
    as (t0 & t' & ->).
  rewrite Hclose. eexists. split; [reflexivity|]. repeat split.
Qed.

Lemma task_success_is_lost_witness :
  exists r,
    run_task 5 [(0, 0)%nat] good_crashing_page "Union Co-op" 0 = Ret r
    /\ Scraper.business_name r = "Union Co-op"%string
    /\ success r = false
    /\ html_content r = ""%string
    /\ error_message r = "Target closed"%string.
Proof.
  apply (task_success_is_lost_when_close_raises
           5 [(0, 0)%nat] good_crashing_page "Union Co-op"%string 0
           "<html>results</html>"%string).
  - split; [lia|]. repeat split. discriminate.
  - exists "input[type='submit']"%string. split; [set_solver | reflexivity].
  - reflexivity.
  - reflexivity.
  - reflexivity.
Defined.

Lemma page_session_clean env business_name start_time :
  ensures (page_session env business_name start_time)
          (fun r => Scraper.business_name r = business_name
                    /\ success r = true
                    /\ error_message r = ""%string).
Proof.
  unfold page_session.
  apply ensures_bind, ensures_await. intros _.
  apply ensures_bind.
  apply (ensures_weaken _ (fun _ => True)).
  { apply ensures_try_except.
    - apply ensures_bind, ensures_await. intros _.
      apply ensures_modify, I.
    - intros e. apply ensures_ret, I. }
  intros _ _.
  apply ensures_bind, ensures_await. intros _.
  apply ensures_bind, ensures_await. intros _.
  apply ensures_bind.
  apply (ensures_weaken _ _ _ (click_first_settles env _)).
  intros search_clicked _.
  apply ensures_bind.
  apply (ensures_weaken _ (fun _ => True)).
  { destruct search_clicked; [apply ensures_ret, I | apply ensures_raise]. }
  intros _ _.
  apply ensures_bind, ensures_await. intros _.
  apply ensures_bind.
  apply (ensures_weaken _ _ _ (detector_settles _ _)).
  intros _ _.
  apply ensures_bind, ensures_await. intros html.
  apply ensures_bind, ensures_get. intros now.
  apply ensures_ret. repeat split.
Qed.

(** What the task comes to once it is let in: a result, well formed. *)
Lemma task_let_in permits pool env business_name context_id t :
  0 < permits ->
  exists r t',
    search_business_optimized permits pool env business_name context_id t
    = (Ret r, t')
    /\ Scraper.business_name r = business_name
    /\ (if success r then error_message r = ""%string
        else html_content r = ""%string).
Proof.
  intros Hpermits. unfold search_business_optimized.
  rewrite bind_eq. unfold time_time at 1, get at 1.
  rewrite (bind_returned _ _ _ _ _ (acquire_let_in _ _ _ Hpermits)).
  generalize (t + Z.of_N (permit_wait env)). intros t0.
  match goal with
  | |- context [try_except ?b ?h] => set (body := b); set (handler := h)
  end.
  assert (Hbody : ensures body
            (fun r => Scraper.business_name r = business_name
                      /\ success r = true
                      /\ error_message r = ""%string)).
  { subst body. apply ensures_bind, ensures_lift.
    - unfold acquire_context. destruct pool; [discriminate|].
      destruct (_ !! _); discriminate.
    - intros c _. apply ensures_bind, ensures_await. intros _.
      apply ensures_try_finally; [apply page_session_clean|].
      apply ensures_await. auto. }
  specialize (Hbody t0). unfold try_except.
  destruct (body t0) as [[r|e|] t'];
    simpl in Hbody; [| |contradiction].
  - exists r, t'. destruct Hbody as (Hn & Hs & He). split; [reflexivity|].
    split; [exact Hn|]. rewrite Hs. exact He.
  - subst handler. cbv beta. rewrite bind_eq.
    unfold time_time at 1, get at 1.
    eexists _, _. split; [reflexivity|]. split; reflexivity.
Qed.

(** X15: whatever the pool (even empty), the page and the hint, no
    exception leaves the task.  Against a semaphore without permits
    ([max_concurrent = 0]) the task is never resumed.  Against a
    semaphore with permits, and with calls to the page that all answer
    or raise, as they do in this model, the task returns a result; and a
    result it returns is under the name the task was given, a success
    carrying no error message and a failure no html. *)
Theorem task_always_returns_well_formed_result
    (permits : Z) (pool : list context) (env : page_env)
    (business_name : string) (context_id : Z) :
  (forall e, run_task permits pool env business_name context_id <> Raise e)
  /\ (permits <= 0 ->
      run_task permits pool env business_name context_id = Pending)
  /\ (0 < permits ->
      exists r, run_task permits pool env business_name context_id = Ret r)
  /\ (forall r,
        run_task permits pool env business_name context_id = Ret r ->
        Scraper.business_name r = business_name
        /\ (if success r then error_message r = ""%string
            else html_content r = ""%string)).
Proof.
  unfold run_task.
  destruct (decide (0 < permits)) as [Hin|Hout].
  - destruct (task_let_in permits pool env business_name context_id
                (started_at env) Hin) as (r & t' & -> & Hname & Hshape).
    cbn [fst].
    split; [discriminate|]. split; [lia|]. split; [eauto|].
    intros r' [= <-]. split; assumption.
  - assert (Hrun : search_business_optimized permits pool env business_name
                     context_id (started_at env)
                   = (Pending, started_at env)).
    { unfold search_business_optimized.
      rewrite bind_eq. unfold time_time at 1, get at 1.
      rewrite bind_eq, acquire_kept_out by lia. reflexivity. }
    rewrite Hrun. cbn [fst].
    split; [discriminate|]. split; [reflexivity|]. split; [lia|].
    discriminate.
Qed.

Lemma task_always_returns_witness :
  run_task 0 [(0, 0)%nat] good_page "Union Co-op" 0 = Pending
  /\ exists r, run_task 5 [] good_page "Union Co-op" 0 = Ret r.
Proof.
  split.
  - apply (task_always_returns_well_formed_result
             0 [(0, 0)%nat] good_page "Union Co-op"%string 0).
    lia.
  - apply (task_always_returns_well_formed_result
             5 [] good_page "Union Co-op"%string 0).
    lia.
Defined.

End TaskOutcomes.

(** ** Pool: shutdown *)

Section ShutdownFacts.
Import Scraper.

Lemma for_each_foldl {S A} (step : S -> A -> S) (body : A -> M S unit) :
  (forall x s, body x s = (Ret tt, step s x)) ->
  forall l s, for_each l body s = (Ret tt, foldl step s l).
Proof.
  intros Hbody. induction l as [|x l IH]; intros s; simpl; [reflexivity|].
  rewrite (bind_returned _ _ _ _ _ (Hbody x s)). apply IH.
Qed.

Lemma close_eq env s :
  close env s
  = let s2 := foldl (close_browser_step env)
                (foldl (close_context_step env) s (context_pool s))
                (browser_pool s) in
    if playwright s
    then match pw_stop env with
         | Answer _ => (Ret tt, driver_stopped s2)
         | Fails e => (Raise e, s2)
         end
    else (Ret tt, s2).
Proof.
  assert (Hc : forall l s0,
    for_each l (fun c =>
      try_except (call (context_close env c) >> modify (context_closed c))
                 (fun _ => ret tt)) s0
    = (Ret tt, foldl (close_context_step env) s0 l)).
  { apply for_each_foldl. intros c s0.
    unfold close_context_step, try_except, bind, call, lift, modify, ret.
    destruct (context_close env c); reflexivity. }
  assert (Hb : forall l s0,
    for_each l (fun b =>
      try_except (call (browser_close env b) >> modify (browser_closed b))
                 (fun _ => ret tt)) s0
    = (Ret tt, foldl (close_browser_step env) s0 l)).
  { apply for_each_foldl. intros b s0.
    unfold close_browser_step, try_except, bind, call, lift, modify, ret.
    destruct (browser_close env b); reflexivity. }
  unfold close. rewrite bind_eq. unfold get at 1.
  rewrite (bind_returned _ _ _ _ _ (Hc (context_pool s) s)).
  rewrite (bind_returned _ _ _ _ _ (Hb (browser_pool s) _)).
  cbv zeta. destruct (playwright s); [|reflexivity].
  unfold bind, call, lift, modify. destruct (pw_stop env); reflexivity.
Qed.

Lemma close_context_step_live env s c0 :
  live_browsers (close_context_step env s c0) = live_browsers s
  /\ journal (close_context_step env s c0) = journal s
  /\ forall c, c ∈ live_contexts (close_context_step env s c0)
               <-> c ∈ live_contexts s
                   /\ ~ (c = c0 /\ context_close env c = Answer tt).
Proof.
  unfold close_context_step.
  destruct (context_close env c0) as [[]|e] eqn:E.
  - split; [reflexivity|]. split; [reflexivity|]. intros c.
    cbn [live_contexts context_closed]. rewrite list_elem_of_filter. split.
    + intros [Hne Hin]. split; [exact Hin|]. intros [-> _]. contradiction.
    + intros [Hin Hn]. split; [|exact Hin]. intros ->. apply Hn. auto.
  - split; [reflexivity|]. split; [reflexivity|]. intros c. split.
    + intros Hin. split; [exact Hin|]. intros [-> Hcl]. congruence.
    + intros [Hin _]. exact Hin.
Qed.

(** The first loop: a context stays open when it was open and its own
    [close] was not called with success. *)
Lemma close_contexts_live env : forall l s,
  live_browsers (foldl (close_context_step env) s l) = live_browsers s
  /\ journal (foldl (close_context_step env) s l) = journal s
  /\ forall c, c ∈ live_contexts (foldl (close_context_step env) s l)
               <-> c ∈ live_contexts s
                   /\ ~ (c ∈ l /\ context_close env c = Answer tt).
Proof.
  induction l as [|c0 l IH]; intros s; cbn [foldl].
  - split; [reflexivity|]. split; [reflexivity|]. intros c. split.
    + intros H. split; [exact H|]. intros [Hin _]. inversion Hin.
    + intros [H _]. exact H.
  - destruct (IH (close_context_step env s c0)) as (Hb & Hj & Hc).
    destruct (close_context_step_live env s c0) as (Hb0 & Hj0 & Hc0).
    split; [congruence|]. split; [congruence|].
    intros c. rewrite Hc, Hc0, elem_of_cons. tauto.
Qed.

Lemma close_browser_step_live env s b0 :
  journal (close_browser_step env s b0) = journal s
  /\ (forall b, b ∈ live_browsers (close_browser_step env s b0)
                <-> b ∈ live_browsers s
                    /\ ~ (b = b0 /\ browser_close env b = Answer tt))
  /\ (forall c, c ∈ live_contexts (close_browser_step env s b0) ->
                c ∈ live_contexts s).
Proof.
  unfold close_browser_step.
  destruct (browser_close env b0) as [[]|e] eqn:E.
  - split; [reflexivity|]. split.
    + intros b. cbn [live_browsers browser_closed].
      rewrite list_elem_of_filter. split.
      * intros [Hne Hin]. split; [exact Hin|]. intros [-> _]. contradiction.
      * intros [Hin Hn]. split; [|exact Hin]. intros ->. apply Hn. auto.
    + intros c. cbn [live_contexts browser_closed].
      rewrite list_elem_of_filter. intros [_ Hin]. exact Hin.
  - split; [reflexivity|]. split; [|auto]. intros b. split.
    + intros Hin. split; [exact Hin|]. intros [-> Hcl]. congruence.
    + intros [Hin _]. exact Hin.
Qed.

(** The second loop: a browser stays open when it was open and its own
    [close] was not called with success; no context is opened. *)
Lemma close_browsers_live env : forall l s,
  journal (foldl (close_browser_step env) s l) = journal s
  /\ (forall b, b ∈ live_browsers (foldl (close_browser_step env) s l)
                <-> b ∈ live_browsers s
                    /\ ~ (b ∈ l /\ browser_close env b = Answer tt))
  /\ (forall c, c ∈ live_contexts (foldl (close_browser_step env) s l) ->
                c ∈ live_contexts s).
Proof.
  induction l as [|b0 l IH]; intros s; cbn [foldl].
  - split; [reflexivity|]. split; [|auto]. intros b. split.
    + intros H. split; [exact H|]. intros [Hin _]. inversion Hin.
    + intros [H _]. exact H.
  - destruct (IH (close_browser_step env s b0)) as (Hj & Hb & Hc).
    destruct (close_browser_step_live env s b0) as (Hj0 & Hb0 & Hc0).
    split; [congruence|]. split; [|auto].
    intros b. rewrite Hb, Hb0, elem_of_cons. tauto.
Qed.

(** X16: [close] is best effort: what closing a context or a browser raises
    never leaves it (only stopping the driver can make it raise); every
    browser and every context of the pools whose own [close] succeeds is
    closed, whatever happens to the others; and nothing is opened. *)
Theorem close_is_best_effort (env : browser_env) (s : state) :
  (close env s).1
  = (if playwright s then outcome_of_reply (pw_stop env) else Ret tt)
  /\ (forall b, b ∈ browser_pool s -> browser_close env b = Answer tt ->
                b ∉ live_browsers (close env s).2)
  /\ (forall c, c ∈ context_pool s -> context_close env c = Answer tt ->
                c ∉ live_contexts (close env s).2)
  /\ (forall b, b ∈ live_browsers (close env s).2 -> b ∈ live_browsers s)
  /\ (forall c, c ∈ live_contexts (close env s).2 -> c ∈ live_contexts s).
Proof.
  rewrite close_eq. cbv zeta.
  destruct (close_contexts_live env (context_pool s) s) as (Hb1 & _ & Hc1).
  destruct (close_browsers_live env (browser_pool s)
              (foldl (close_context_step env) s (context_pool s)))
    as (_ & Hb2 & Hc2).
  set (s2 := foldl (close_browser_step env) _ (browser_pool s)) in *.
  assert (Hlb : forall s3, live_browsers s3 = live_browsers s2 ->
            (forall b, b ∈ browser_pool s -> browser_close env b = Answer tt ->
                       b ∉ live_browsers s3)
            /\ (forall b, b ∈ live_browsers s3 -> b ∈ live_browsers s)).
  { intros s3 ->. split.
    - intros b Hin Hcl Hlive. apply Hb2 in Hlive as [_ Hn]. apply Hn. auto.
    - intros b Hlive. apply Hb2 in Hlive as [Hlive _].
      rewrite Hb1 in Hlive. exact Hlive. }
  assert (Hlc : forall s3, live_contexts s3 = live_contexts s2 ->
            (forall c, c ∈ context_pool s -> context_close env c = Answer tt ->
                       c ∉ live_contexts s3)
            /\ (forall c, c ∈ live_contexts s3 -> c ∈ live_contexts s)).
  { intros s3 ->. split.
    - intros c Hin Hcl Hlive. apply Hc2, Hc1 in Hlive as [_ Hn].
      apply Hn. auto.
    - intros c Hlive. apply Hc2, Hc1 in Hlive as [Hlive _]. exact Hlive. }
  destruct (playwright s).
  - destruct (pw_stop env) as [[]|e]; cbn [fst snd outcome_of_reply];
      (split; [reflexivity|]);
      destruct (Hlb _ eq_refl) as [? ?]; destruct (Hlc _ eq_refl) as [? ?];
      auto.
  - cbn [fst snd]. split; [reflexivity|].
    destruct (Hlb _ eq_refl) as [? ?]; destruct (Hlc _ eq_refl) as [? ?]; auto.
Qed.

Lemma close_is_best_effort_witness :
  (close stuck (start stuck (fresh 3 3)).2).1 = Ret tt
  /\ (0%nat ∉ live_browsers (close stuck (start stuck (fresh 3 3)).2).2)
  /\ ((2, 0)%nat
        ∉ live_contexts (close stuck (start stuck (fresh 3 3)).2).2).
Proof.
  destruct (close_is_best_effort stuck (start stuck (fresh 3 3)).2)
    as (H1 & H2 & H3 & _).
  split; [exact H1|]. split.
  - apply H2; [set_solver | reflexivity].
  - apply H3; [set_solver | reflexivity].
Defined.

Example stuck_close_run :
  live_browsers (close stuck (start stuck (fresh 3 3)).2).2 = [1%nat]
  /\ live_contexts (close stuck (start stuck (fresh 3 3)).2).2 = [(1, 0)%nat].
Proof. split; reflexivity. Qed.

End ShutdownFacts.

(** ** Orchestrator: one call of [search_multiple_businesses] *)

Section GatherEdges.
Import Scraper.

(** X17: whatever the tasks do and in whatever order they complete: when the
    call returns, it returns one outcome per name, and at the position
    of a task that returned a result, that very result. *)
Theorem search_multiple_businesses_aligns_results
    (coroutine : Z -> list context -> nat -> string -> Z
                 -> outcome SearchResult)
    (order : list nat) (business_names : list string) (s s' : state)
    (outs : list SearchResult) :
  search_multiple_businesses coroutine order business_names s
    = (Ret outs, s') ->
  length outs = length business_names
  /\ forall i name r,
       business_names !! i = Some name ->
       coroutine (max_concurrent s) (context_pool s) i name
         (Z.of_nat i `mod` Z.of_nat (length (context_pool s))) = Ret r ->
       outs !! i = Some r.
Proof.
  intros Hrun. rewrite search_multiple_businesses_eq in Hrun.
  destruct (make_tasks _ _ _) as [tasks|e0|] eqn:Htasks; try discriminate.
  destruct (gather tasks order) as [results|e0|] eqn:Hg; try discriminate.
  injection Hrun as <- _.
  apply make_tasks_Ret in Htasks. apply gather_results in Hg.
  pose proof (Forall2_length _ _ _ Hg) as Hlen.
  rewrite Htasks, length_imap in Hlen.
  split.
  - unfold collect. rewrite length_zip_with. lia.
  - intros i name r Hname Hret.
    assert (Hchild : tasks !! i = Some (Ret r)).
    { rewrite Htasks, list_lookup_imap, Hname. simpl. rewrite Hret. done. }
    destruct (Forall2_lookup_l _ _ _ _ _ Hg Hchild) as (g & Hgi & Hset).
    simpl in Hset. injection Hset as <-.
    unfold collect. rewrite lookup_zip_with, Hname, Hgi. reflexivity.
Qed.

Lemma search_multiple_businesses_aligns_witness :
  exists outs,
    (search_multiple_businesses second_task_raises [1; 0]%nat
       ["Union Co-op"; "Concordia Club"]%string
       (start healthy (fresh 3 3)).2).1 = Ret outs
    /\ length outs = 2%nat
    /\ outs !! 0%nat
       = Some {| business_name := "Union Co-op";
                 html_content := "<html>results</html>";
                 success := true;
                 error_message := "";
                 search_time := 8389120 |}.
Proof.
  eexists. split; [reflexivity|].
  destruct (search_multiple_businesses_aligns_results
              second_task_raises [1; 0]%nat
              ["Union Co-op"; "Concordia Club"]%string
              (start healthy (fresh 3 3)).2
              (logged (Dispatched ["Union Co-op"; "Concordia Club"]%string)
                 (start healthy (fresh 3 3)).2)
              _ eq_refl) as [Hlen Hpass].
  split; [exact Hlen|].
  apply (Hpass 0%nat "Union Co-op"%string); reflexivity.
Defined.

Lemma settled_is_functional (children : list (outcome SearchResult)) gs gs' :
  Forall2 (fun o g => settle o = Some g) children gs ->
  Forall2 (fun o g => settle o = Some g) children gs' ->
  gs = gs'.
Proof.
  intros H. revert gs'. induction H as [|o g children gs Hog _ IH];
    intros gs' H'; inversion H'; subst; [reflexivity|].
  f_equal; [congruence | apply IH; assumption].
Qed.

(** X18: the outcomes do not depend on the order in which the tasks
    complete: two calls that differ by it only and that both return,
    return the same list. *)
Theorem search_multiple_businesses_ignores_completion_order
    (coroutine : Z -> list context -> nat -> string -> Z
                 -> outcome SearchResult)
    (order order' : list nat) (business_names : list string) (s : state)
    (outs outs' : list SearchResult) :
  (search_multiple_businesses coroutine order business_names s).1 = Ret outs ->
  (search_multiple_businesses coroutine order' business_names s).1
    = Ret outs' ->
  outs = outs'.
Proof.
  rewrite !search_multiple_businesses_eq.
  destruct (make_tasks _ _ _) as [tasks|e0|]; try discriminate.
  destruct (gather tasks order) as [gs|e0|] eqn:Hg; try discriminate.
  destruct (gather tasks order') as [gs'|e0|] eqn:Hg'; try discriminate.
  cbn [fst]. intros [= <-] [= <-].
  apply gather_results in Hg, Hg'.
  rewrite (settled_is_functional tasks gs gs' Hg Hg'). reflexivity.
Qed.

Lemma search_multiple_businesses_order_witness :
  exists outs outs',
    (search_multiple_businesses second_task_raises [1; 0]%nat
       ["Union Co-op"; "Concordia Club"]%string
       (start healthy (fresh 3 3)).2).1 = Ret outs
    /\ (search_multiple_businesses second_task_raises [0; 1]%nat
          ["Union Co-op"; "Concordia Club"]%string
          (start healthy (fresh 3 3)).2).1 = Ret outs'
    /\ outs = outs'.
Proof.
  eexists _, _. split; [reflexivity|]. split; [reflexivity|].
  apply (search_multiple_businesses_ignores_completion_order
           second_task_raises [1; 0]%nat [0; 1]%nat
           ["Union Co-op"; "Concordia Club"]%string
           (start healthy (fresh 3 3)).2);
    reflexivity.
Defined.

(** X19: the barrier: as long as one task of the batch has not completed,
    the call does not return, whatever the others did. *)
Theorem search_multiple_businesses_waits_for_every_task
    (coroutine : Z -> list context -> nat -> string -> Z
                 -> outcome SearchResult)
    (order : list nat) (business_names : list string) (s : state) (j : nat) :
  context_pool s <> [] ->
  (j < length business_names)%nat ->
  j ∉ order ->
  (search_multiple_businesses coroutine order business_names s).1 = Pending.
Proof.
  intros Hpool Hj Hnot. rewrite search_multiple_businesses_eq.
  rewrite make_tasks_nonempty_pool by exact Hpool.
  set (tasks := imap _ business_names).
  assert (Hg : gather tasks order = Pending).
  { unfold gather.
    rewrite (mapM_None_2 (fun j => finished tasks order !! j)); [reflexivity|].
    apply Exists_exists. exists j. split.
    - apply elem_of_seq. subst tasks. rewrite length_imap. lia.
    - unfold finished. rewrite finished_lookup.
      destruct (decide (j ∈ order)); [contradiction | apply lookup_empty]. }
  rewrite Hg. reflexivity.
Qed.

Lemma search_multiple_businesses_waits_witness :
  (search_multiple_businesses second_task_raises [1]%nat
     ["Union Co-op"; "Concordia Club"]%string
     (start healthy (fresh 3 3)).2).1 = Pending.
Proof.
  apply (search_multiple_businesses_waits_for_every_task
           second_task_raises [1]%nat
           ["Union Co-op"; "Concordia Club"]%string
           (start healthy (fresh 3 3)).2 0).
  - discriminate.
  - simpl. lia.
  - intros H. apply list_elem_of_singleton in H. discriminate H.
Defined.

(** X20: with an empty context pool the call raises the
    [ZeroDivisionError] of [i % len(self.context_pool)] as soon as there
    is a name to search, before any task runs (a task on its own, once
    let in, would have turned that same error into a failed result);
    with no name at all it returns the empty list, whatever the pool. *)
Theorem search_multiple_businesses_on_empty_pool
    (coroutine : Z -> list context -> nat -> string -> Z
                 -> outcome SearchResult)
    (order : list nat) (business_names : list string) (s : state) :
  (search_multiple_businesses coroutine order [] s).1 = Ret []
  /\ (context_pool s = [] -> business_names <> [] ->
      (search_multiple_businesses coroutine order business_names s).1
      = Raise modulo_by_zero
      /\ forall permits env name context_id,
           0 < permits ->
           exists r, run_task permits (context_pool s) env name context_id
                     = Ret r
                     /\ success r = false
                     /\ error_message r = modulo_by_zero).
Proof.
  split.
  - rewrite search_multiple_businesses_eq. reflexivity.
  - intros Hpool Hne. rewrite search_multiple_businesses_eq, Hpool.
    split.
    + destruct business_names; [contradiction | reflexivity].
    + intros permits env name context_id Hpermits.
      unfold run_task, search_business_optimized.
      rewrite bind_eq. unfold time_time at 1, get at 1.
      rewrite (bind_returned _ _ _ _ _ (acquire_let_in _ _ _ Hpermits)).
      eexists. split; [reflexivity|]. split; reflexivity.
Qed.

Lemma search_multiple_businesses_on_empty_pool_witness :
  (search_multiple_businesses second_task_raises [] ["Union Co-op"]%string
     (fresh 3 3)).1
  = Raise modulo_by_zero.
Proof.
  destruct (search_multiple_businesses_on_empty_pool
              second_task_raises [] ["Union Co-op"]%string (fresh 3 3))
    as [_ H].
  apply H; [reflexivity | discriminate].
Defined.

End GatherEdges.

(** ** Orchestrator: the pipeline at its edges *)

Section PipelineEdges.
Import Scraper.

Lemma started_pool_live batch_size evs :
  let s := logged_all evs (started_pool batch_size) in
  playwright s = true
  /\ live_browsers s = browser_pool s
  /\ live_contexts s = context_pool s.
Proof. repeat split. Qed.

(** X21: after a run on a Playwright that serves and whose browsers and
    contexts close when asked, nothing is left open: no browser, no
    context, and the driver is stopped. *)
Theorem pipeline_releases_the_pool
    (env : browser_env) (site : nat -> page_env)
    (completion : nat -> list nat) (business_names : list string)
    (batch_size : Z) :
  0 < batch_size ->
  pool_serves env ->
  closes_all env ->
  every_task_completes completion business_names batch_size ->
  let final := (batch_search_businesses env site completion business_names
                  batch_size).2 in
  live_browsers final = []
  /\ live_contexts final = []
  /\ driver_running final = false.
Proof.
  intros Hpos (Hpw & Hlaunch & Hctx & Hstop) [Hcc Hcb] Hdone final.
  subst final.
  destruct (pipeline_steps env site completion business_names batch_size
              Hpos Hpw Hlaunch Hctx Hdone) as (outs & _ & _ & ->).
  set (s2 := logged_all _ (started_pool batch_size)).
  destruct (started_pool_live batch_size
              (journal_of business_names batch_size 0
                 (batch_count (length business_names) batch_size)))
    as (Hplay & Hlb & Hlc).
  fold s2 in Hplay, Hlb, Hlc.
  rewrite close_eq. cbv zeta. rewrite Hplay, Hstop. cbn [snd].
  destruct (close_contexts_live env (context_pool s2) s2) as (Hb1 & _ & Hc1).
  destruct (close_browsers_live env (browser_pool s2)
              (foldl (close_context_step env) s2 (context_pool s2)))
    as (_ & Hb2 & Hc2).
  cbn [live_browsers live_contexts driver_running driver_stopped].
  split; [|split; [|reflexivity]].
  - apply elem_of_nil_inv. intros b Hb. apply Hb2 in Hb as [Hb Hn].
    rewrite Hb1, Hlb in Hb. apply Hn. auto.
  - apply elem_of_nil_inv. intros c Hc.
    apply Hc2, Hc1 in Hc as [Hc Hn]. rewrite Hlc in Hc. apply Hn. auto.
Qed.

Lemma pipeline_releases_the_pool_witness :
  let final := (batch_search_businesses healthy mixed_site last_first
                  seven_names 3).2 in
  live_browsers final = []
  /\ live_contexts final = []
  /\ driver_running final = false.
Proof.
  apply (pipeline_releases_the_pool healthy mixed_site last_first
           seven_names 3).
  - lia.
  - repeat split.
  - split; intros; reflexivity.
  - exact last_first_completes.
Defined.

(** X22: when the driver cannot be stopped at the end of a run, the
    pipeline raises the error of [playwright.stop()] in place of
    returning: every batch was dispatched, and the results are lost. *)
Theorem pipeline_loses_results_when_stop_raises
    (env : browser_env) (site : nat -> page_env)
    (completion : nat -> list nat) (business_names : list string)
    (batch_size : Z) (e : exn) :
  0 < batch_size ->
  pw_start env = Answer tt ->
  (forall i, launch env i = Answer tt) ->
  (forall i j, new_context env i j = Answer tt) ->
  every_task_completes completion business_names batch_size ->
  pw_stop env = Fails e ->
  let run := batch_search_businesses env site completion business_names
               batch_size in
  run.1 = Raise e
  /\ journal run.2
     = journal_of business_names batch_size 0
         (batch_count (length business_names) batch_size).
Proof.
  intros Hpos Hpw Hlaunch Hctx Hdone Hstop run. subst run.
  destruct (pipeline_steps env site completion business_names batch_size
              Hpos Hpw Hlaunch Hctx Hdone) as (outs & _ & _ & ->).
  set (s2 := logged_all _ (started_pool batch_size)).
  rewrite close_eq. cbv zeta.
  change (playwright s2) with true. rewrite Hstop. cbn [fst snd].
  split; [reflexivity|].
  destruct (close_contexts_live env (context_pool s2) s2) as (_ & Hj1 & _).
  destruct (close_browsers_live env (browser_pool s2)
              (foldl (close_context_step env) s2 (context_pool s2)))
    as (Hj2 & _ & _).
  rewrite Hj2, Hj1. reflexivity.
Qed.

Lemma pipeline_loses_results_witness :
  let run := batch_search_businesses unstoppable mixed_site last_first
               seven_names 3 in
  run.1 = Raise "Connection closed"
  /\ journal run.2
     = journal_of seven_names 3 0 (batch_count (length seven_names) 3).
Proof.
  apply (pipeline_loses_results_when_stop_raises unstoppable mixed_site
           last_first seven_names 3).
  - lia.
  - reflexivity.
  - intros i. reflexivity.
  - intros i j. reflexivity.
  - exact last_first_completes.
  - reflexivity.
Defined.



(** X23: on an empty list of names the pipeline returns the empty list and
    dispatches no batch and makes no pause; the three browsers are
    launched all the same. *)
Theorem pipeline_on_empty_input
    (env : browser_env) (site : nat -> page_env)
    (completion : nat -> list nat) (batch_size : Z) :
  0 < batch_size ->
  pool_serves env ->
  let run := batch_search_businesses env site completion [] batch_size in
  run.1 = Ret []
  /\ journal run.2 = []
  /\ browser_pool run.2 = [0; 1; 2]%nat.
Proof.
  intros Hpos (Hpw & Hlaunch & Hctx & Hstop) run. subst run.
  destruct (pipeline_steps env site completion [] batch_size
              Hpos Hpw Hlaunch Hctx) as (outs & Hnames & _ & ->).
  { intros b j Hj. unfold batch_at in Hj. rewrite drop_nil, take_nil in Hj.
    simpl in Hj. lia. }
  apply fmap_nil_inv in Hnames. subst outs.
  assert (Hcount : batch_count (@length string []) batch_size = 0%nat).
  { unfold batch_count. simpl.
    rewrite Z.div_small by lia. reflexivity. }
  rewrite Hcount.
  change (journal_of [] batch_size 0 0) with (@nil event).
  rewrite logged_all_nil, close_eq. cbv zeta.
  change (playwright (started_pool batch_size)) with true.
  rewrite Hstop. cbn [fst snd].
  split; [reflexivity|].
  destruct (close_contexts_live env (context_pool (started_pool batch_size))
              (started_pool batch_size)) as (_ & Hj1 & _).
  destruct (close_browsers_live env (browser_pool (started_pool batch_size))
              (foldl (close_context_step env) (started_pool batch_size)
                 (context_pool (started_pool batch_size))))
    as (Hj2 & _ & _).
  split.
  - cbn [journal driver_stopped]. rewrite Hj2, Hj1. reflexivity.
  - cbn [browser_pool driver_stopped].
    assert (Hc : forall l s, browser_pool (foldl (close_context_step env) s l)
                             = browser_pool s).
    { induction l as [|c l IH]; intros s; cbn [foldl]; [reflexivity|].
      rewrite IH. unfold close_context_step.
      destruct (context_close env c); reflexivity. }
    assert (Hb : forall l s, browser_pool (foldl (close_browser_step env) s l)
                             = browser_pool s).
    { induction l as [|b l IH]; intros s; cbn [foldl]; [reflexivity|].
      rewrite IH. unfold close_browser_step.
      destruct (browser_close env b); reflexivity. }
    rewrite Hb, Hc. reflexivity.
Qed.

Lemma pipeline_on_empty_input_witness :
  let run := batch_search_businesses healthy mixed_site last_first [] 5 in
  run.1 = Ret []
  /\ journal run.2 = []
  /\ browser_pool run.2 = [0; 1; 2]%nat.
Proof.
  apply (pipeline_on_empty_input healthy mixed_site last_first 5).
  - lia.
  - repeat split.
Defined.

Lemma for_each_settles {S A} (P : S -> Prop) (body : A -> M S unit) :
  (forall x s, P s -> (body x s).1 <> Pending /\ P (body x s).2) ->
  forall l s, P s ->
    (for_each l body s).1 <> Pending /\ P (for_each l body s).2.
Proof.
  intros Hbody. induction l as [|x l IH]; intros s Hs.
  - split; [discriminate | exact Hs].
  - cbn [for_each]. rewrite bind_eq.
    destruct (Hbody x s Hs) as [Hn Hp].
    destruct (body x s) as [[u|e|] s1]; cbn [fst snd] in *.
    + apply IH, Hp.
    + split; [discriminate | exact Hp].
    + congruence.
Qed.

Lemma start_browser_settles env J i s :
  journal s = J ->
  (start_browser env i s).1 <> Pending
  /\ journal (start_browser env i s).2 = J.
Proof.
  intros Hs. unfold start_browser.
  rewrite bind_eq. unfold call at 1, lift at 1.
  destruct (launch env i) as [u|e]; cbn [outcome_of_reply].
  - rewrite bind_eq. unfold modify at 1. rewrite bind_eq. unfold get at 1.
    apply (for_each_settles (fun s' => journal s' = J)); [|exact Hs].
    intros j s' Hs'. rewrite start_context_eq.
    destruct (new_context env i j); cbn [fst snd];
      (split; [discriminate | exact Hs']).
  - split; [discriminate | exact Hs].
Qed.

Lemma start_settles env s :
  (start env s).1 <> Pending /\ journal (start env s).2 = journal s.
Proof.
  unfold start. rewrite bind_eq. unfold call at 1, lift at 1.
  destruct (pw_start env) as [u|e]; cbn [outcome_of_reply].
  - rewrite bind_eq. unfold modify at 1. rewrite bind_eq. unfold get at 1.
    apply (for_each_settles (fun s' => journal s' = journal s));
      [|reflexivity].
    intros i s' Hs'. apply start_browser_settles, Hs'.
  - split; [discriminate | reflexivity].
Qed.

Lemma close_settles env s :
  (close env s).1 <> Pending /\ journal (close env s).2 = journal s.
Proof.
  rewrite close_eq. cbv zeta.
  destruct (close_contexts_live env (context_pool s) s) as (_ & Hj1 & _).
  destruct (close_browsers_live env (browser_pool s)
              (foldl (close_context_step env) s (context_pool s)))
    as (Hj2 & _ & _).
  destruct (playwright s); [destruct (pw_stop env)|]; cbn [fst snd];
    (split; [discriminate|]); cbn [journal driver_stopped];
    rewrite Hj2, Hj1; reflexivity.
Qed.

(** X24: a batch size of zero or less never yields results, whatever
    Playwright does: the pipeline raises (the semaphore refuses a
    negative value, [range] refuses a zero step) before any batch is
    dispatched. *)
Theorem pipeline_rejects_non_positive_batch_size
    (env : browser_env) (site : nat -> page_env)
    (completion : nat -> list nat) (business_names : list string)
    (batch_size : Z) :
  batch_size <= 0 ->
  let run := batch_search_businesses env site completion business_names
               batch_size in
  (exists e, run.1 = Raise e) /\ journal run.2 = [].
Proof.
  intros Hle run. subst run. unfold batch_search_businesses.
  destruct (batch_size <? 0) eqn:Eneg.
  { split; [eexists; reflexivity | reflexivity]. }
  apply Z.ltb_ge in Eneg. assert (batch_size = 0) as -> by lia.
  unfold async_with. rewrite bind_eq.
  destruct (start_settles env (fresh 0 BROWSER_POOL_SIZE)) as [Hn Hj].
  destruct (start env (fresh 0 BROWSER_POOL_SIZE)) as [[u|e|] s1];
    cbn [fst snd] in *; change (journal (fresh 0 BROWSER_POOL_SIZE))
                          with (@nil event) in Hj;
    [| split; [eexists; reflexivity | exact Hj] | congruence].
  unfold try_finally. rewrite bind_eq.
  change (range3 0 (Z.of_nat (length business_names)) 0)
    with (@Raise (list Z) "range() arg 3 must not be zero").
  unfold lift. cbv iota beta.
  destruct (close_settles env s1) as [Hcn Hcj].
  destruct (close env s1) as [[u'|e'|] s2]; cbn [fst snd] in *;
    [| |congruence];
    (split; [eexists; reflexivity | congruence]).
Qed.

Lemma pipeline_rejects_non_positive_witness :
  let run := batch_search_businesses healthy mixed_site last_first
               seven_names 0 in
  (exists e, run.1 = Raise e) /\ journal run.2 = [].
Proof.
  apply (pipeline_rejects_non_positive_batch_size healthy mixed_site
           last_first seven_names 0).
  lia.
Defined.

Lemma limiter_two_enter (i j m mc : nat) :
  i <> j -> (i < m)%nat -> (j < m)%nat -> (2 <= mc)%nat ->
  let st := Limiter.run [i; j] (Limiter.init mc m) in
  Limiter.tasks st !! i = Some Limiter.Running
  /\ Limiter.tasks st !! j = Some Limiter.Running.
Proof.
  intros Hij Hi Hj Hmc.
  destruct mc as [|[|mc]]; [lia | lia |].
  assert (H1 : Limiter.step i (Limiter.init (S (S mc)) m)
               = {| Limiter.value := S mc;
                    Limiter.tasks :=
                      <[i := Limiter.Running]>
                        (replicate m Limiter.Waiting) |}).
  { unfold Limiter.step, Limiter.init. cbn [Limiter.tasks Limiter.value].
    rewrite lookup_replicate_2 by exact Hi. reflexivity. }
  unfold Limiter.run. cbn [foldl]. rewrite H1.
  unfold Limiter.step. cbn [Limiter.tasks Limiter.value].
  rewrite list_lookup_insert_ne by exact Hij.
  rewrite lookup_replicate_2 by exact Hj.
  cbn [Limiter.tasks].
  split.
  - rewrite list_lookup_insert_ne by auto.
    apply list_lookup_insert_eq. rewrite length_replicate. exact Hi.
  - apply list_lookup_insert_eq.
    rewrite length_insert, length_replicate. exact Hj.
Qed.

(** X25: when the batch size is above three and not a multiple of three,
    [start] builds fewer contexts than a batch has tasks: the tasks at
    positions [0] and [len(context_pool)] of one batch are given the
    same context, and the semaphore lets both run at once. *)
Theorem pool_is_shared_within_a_batch
    (env : browser_env) (batch_size : Z) :
  pw_start env = Answer tt ->
  (forall i, launch env i = Answer tt) ->
  (forall i j, new_context env i j = Answer tt) ->
  3 < batch_size ->
  batch_size `mod` 3 <> 0 ->
  let pool :=
    context_pool (start env (fresh batch_size BROWSER_POOL_SIZE)).2 in
  let n := length pool in
  (n < Z.to_nat batch_size)%nat
  /\ (exists c, acquire_context pool (hint_of pool 0) = Ret c
                /\ acquire_context pool (hint_of pool n) = Ret c)
  /\ let st := Limiter.run [0%nat; n]
                 (Limiter.init (Z.to_nat batch_size) (Z.to_nat batch_size)) in
     Limiter.tasks st !! 0%nat = Some Limiter.Running
     /\ Limiter.tasks st !! n = Some Limiter.Running.
Proof.
  intros Hpw Hlaunch Hctx Hbig Hrem pool n.
  subst n pool. rewrite (start_state env batch_size Hpw Hlaunch Hctx).
  cbn [snd]. unfold started_pool.
  cbn [context_pool pool_grown driver_started fresh app].
  set (c := Z.to_nat (Z.max 1 (batch_size / BROWSER_POOL_SIZE))).
  assert (Hlen : length (pool_layout 0 3 c) = (3 * c)%nat)
    by apply pool_layout_length.
  assert (Hc : Z.of_nat c = batch_size / 3).
  { unfold c, BROWSER_POOL_SIZE.
    assert (1 <= batch_size / 3) by (apply Z.div_le_lower_bound; lia).
    lia. }
  assert (Hlt : (3 * c < Z.to_nat batch_size)%nat).
  { pose proof (Z.div_mod batch_size 3 ltac:(lia)) as Hdm.
    pose proof (Z.mod_pos_bound batch_size 3 ltac:(lia)) as Hmb.
    lia. }
  assert (Hcpos : (0 < c)%nat).
  { assert (1 <= batch_size / 3) by (apply Z.div_le_lower_bound; lia).
    lia. }
  split; [rewrite Hlen; exact Hlt|]. split.
  - assert (Hne : pool_layout 0 3 c <> []).
    { intros Hnil. rewrite Hnil in Hlen. simpl in Hlen. lia. }
    assert (Hlive : exists c0, acquire_context (pool_layout 0 3 c) 0 = Ret c0).
    { destruct (pool_layout 0 3 c) as [|c0 rest] eqn:Hpool; [congruence|].
      exists c0. unfold acquire_context.
      rewrite Z.mod_0_l by (cbn [length]; lia). reflexivity. }
    destruct Hlive as (c0 & Hc0). exists c0.
    assert (H0 : hint_of (pool_layout 0 3 c) 0 = 0).
    { unfold hint_of. apply Z.mod_0_l. rewrite Hlen. lia. }
    assert (Hn : hint_of (pool_layout 0 3 c) (length (pool_layout 0 3 c)) = 0).
    { unfold hint_of. apply Z.mod_same. rewrite Hlen. lia. }
    rewrite H0, Hn. split; exact Hc0.
  - rewrite Hlen. apply limiter_two_enter; lia.
Qed.

Lemma pool_is_shared_witness :
  let pool := context_pool (start healthy (fresh 5 BROWSER_POOL_SIZE)).2 in
  let n := length pool in
  (n < Z.to_nat 5)%nat
  /\ (exists c, acquire_context pool (hint_of pool 0) = Ret c
                /\ acquire_context pool (hint_of pool n) = Ret c)
  /\ let st := Limiter.run [0%nat; n]
                 (Limiter.init (Z.to_nat 5) (Z.to_nat 5)) in
     Limiter.tasks st !! 0%nat = Some Limiter.Running
     /\ Limiter.tasks st !! n = Some Limiter.Running.
Proof.
  apply (pool_is_shared_within_a_batch healthy 5).
  - reflexivity.
  - intros i. reflexivity.
  - intros i j. reflexivity.
  - lia.
  - discriminate.
Defined.

End PipelineEdges.

(** ** The limiter makes progress *)

Section LimiterProgress.
Import Limiter.

Lemma count_running_zero ps :
  count_running ps = 0%nat -> forall i, ps !! i <> Some Running.
Proof.
  induction ps as [|p ps IH]; intros Hz i Hi; [discriminate Hi|].
  destruct i as [|i]; simpl in *.
  - injection Hi as ->. discriminate Hz.
  - destruct p; try discriminate Hz; exact (IH Hz i Hi).
Qed.

Lemma some_running_or_none ps :
  (exists i, ps !! i = Some Running) \/ count_running ps = 0%nat.
Proof.
  induction ps as [|p ps [[i Hi] | Hz]].
  - right. reflexivity.
  - left. exists (S i). exact Hi.
  - destruct p; [right; exact Hz | left; exists 0%nat; reflexivity
                 | right; exact Hz].
Qed.

(** X26: the semaphore never deadlocks and never leaks a permit: in any
    state the event loop can reach, as long as some task has not left
    the [async with] block there is a task whose resumption changes the
    state, and once no task is inside the block every permit is free. *)
Theorem limiter_makes_progress
    (max_concurrent n : nat) (schedule : list nat) (i : nat) (p : phase) :
  (0 < max_concurrent)%nat ->
  let st := run schedule (init max_concurrent n) in
  tasks st !! i = Some p ->
  p <> Finished ->
  (exists j, step j st <> st)
  /\ (running st = 0%nat -> value st = max_concurrent).
Proof.
  intros Hmc st Hi Hp.
  pose proof (run_keeps_permits schedule (init max_concurrent n)) as Hinv.
  fold st in Hinv. unfold running at 2 in Hinv. simpl in Hinv.
  rewrite count_running_replicate in Hinv.
  split; [|intros Hz; lia].
  destruct (some_running_or_none (tasks st)) as [[j Hj] | Hz].
  - exists j. unfold step. rewrite Hj. intros Heq.
    apply (f_equal value) in Heq. simpl in Heq. lia.
  - exists i. unfold step. rewrite Hi.
    destruct p; [| exfalso; exact (count_running_zero _ Hz i Hi)
                 | congruence].
    unfold running in Hinv. rewrite Hz in Hinv.
    destruct (value st) as [|v] eqn:Hv; [simpl in Hinv; lia|].
    intros Heq. apply (f_equal value) in Heq. simpl in Heq. lia.
Qed.

Lemma limiter_makes_progress_witness :
  let st := run [0; 1; 2]%nat (init 2 3) in
  (exists j, step j st <> st)
  /\ (running st = 0%nat -> value st = 2%nat).
Proof.
  apply (limiter_makes_progress 2 3 [0; 1; 2]%nat 2 Waiting).
  - lia.
  - reflexivity.
  - discriminate.
Defined.

End LimiterProgress.

(** ** Parsing one page *)

Section ParsingFacts.
Import Paginator.

Lemma parse_items_linked field : forall items results,
  (forall item, item ∈ items -> name_tag item <> None ->
     corp_num_span item <> None /\ bus_num_span item <> None) ->
  exists rows,
    parse_items field items results = Ret (results ++ rows)
    /\ corporate_name <$> rows = first_piece <$> omap name_tag items.
Proof.
  induction items as [|item rest IH]; intros results Hspans.
  - exists []. rewrite app_nil_r. split; reflexivity.
  - assert (Hrest : forall it, it ∈ rest -> name_tag it <> None ->
              corp_num_span it <> None /\ bus_num_span it <> None).
    { intros it Hit. apply Hspans. apply elem_of_cons. right. exact Hit. }
    cbn [parse_items omap list_omap].
    destruct (name_tag item) as [name|] eqn:Hname.
    + destruct (Hspans item) as [Hc Hb];
        [apply elem_of_cons; left; reflexivity | congruence |].
      destruct (corp_num_span item) as [ct|]; [|congruence].
      destruct (bus_num_span item) as [bt|]; [|congruence].
      cbn [get_text].
      destruct (IH (results ++
                    [{| corporate_name := first_piece name;
                        corporation_number := field "Corporation number:" ct;
                        business_number := field "Business Number:" bt |}])
                  Hrest) as (rows & Hrows & Hnames).
      eexists (_ :: rows). rewrite Hrows, <- app_assoc. split; [reflexivity|].
      cbn [fmap list_fmap corporate_name]. f_equal. exact Hnames.
    + destruct (IH results Hrest) as (rows & Hrows & Hnames).
      exists rows. split; assumption.
Qed.

(** X7: when every item that has a link also shows both numbers,
    [parse_html] returns one row per item with a link, in page order,
    named by the text of the link up to its first separator; items
    without a link are skipped. *)
Theorem parse_html_keeps_linked_items
    (select : string -> list list_item)
    (field : string -> string -> string) (html_content : string) :
  (forall item, item ∈ select html_content -> name_tag item <> None ->
     corp_num_span item <> None /\ bus_num_span item <> None) ->
  exists rows,
    parse_html select field html_content = Ret rows
    /\ corporate_name <$> rows
       = first_piece <$> omap name_tag (select html_content).
Proof.
  intros Hspans. unfold parse_html.
  destruct (parse_items_linked field (select html_content) [] Hspans)
    as (rows & Hrows & Hnames).
  exists rows. split; assumption.
Qed.

Lemma parse_html_keeps_linked_items_witness :
  exists rows,
    parse_html (fun _ => sample_items) (fun _ t => t) "<html>" = Ret rows
    /\ corporate_name <$> rows = ["Union Co-operative"; "Green Housing"].
Proof.
  apply (parse_html_keeps_linked_items (fun _ => sample_items)
           (fun _ t => t) "<html>").
  intros item Hitem Hname. unfold sample_items in Hitem.
  repeat (apply elem_of_cons in Hitem as [-> | Hitem];
          [cbn in *; split; congruence|]).
  apply elem_of_nil in Hitem. destruct Hitem.
Defined.

(** X8: one item with a link but without a corporation number or without a
    business number makes [parse_html] raise: the rows of the other
    items of the page are not returned. *)
Theorem parse_html_raises_on_missing_number
    (select : string -> list list_item)
    (field : string -> string -> string) (html_content : string)
    (item : list_item) :
  item ∈ select html_content ->
  name_tag item <> None ->
  corp_num_span item = None \/ bus_num_span item = None ->
  parse_html select field html_content
  = Raise "'NoneType' object has no attribute 'get_text'".
Proof.
  intros Hin Hname Hmissing. unfold parse_html.
  generalize (@nil corporation).
  induction (select html_content) as [|item0 rest IH]; intros results.
  - apply elem_of_nil in Hin. destruct Hin.
  - cbn [parse_items]. apply elem_of_cons in Hin as [<- | Hin].
    + destruct (name_tag item) as [name|]; [|congruence].
      destruct Hmissing as [-> | ->]; [reflexivity|].
      destruct (corp_num_span item); reflexivity.
    + destruct (name_tag item0) as [name0|]; [|apply IH, Hin].
      destruct (corp_num_span item0); [|reflexivity].
      destruct (bus_num_span item0); [|reflexivity].
      cbn [get_text]. apply IH, Hin.
Qed.

Lemma parse_html_raises_on_missing_number_witness :
  parse_html (fun _ => sample_items_without_number) (fun _ t => t) "<html>"
  = Raise "'NoneType' object has no attribute 'get_text'".
Proof.
  apply (parse_html_raises_on_missing_number
           (fun _ => sample_items_without_number) (fun _ t => t) "<html>"
           {| name_tag := Some "Maple Commons";
              corp_num_span := Some "Corporation number:111111-1";
              bus_num_span := None |}).
  - unfold sample_items_without_number, sample_items.
    do 3 (apply elem_of_cons; right). apply elem_of_cons. left. reflexivity.
  - discriminate.
  - right. reflexivity.
Defined.

End ParsingFacts.
